(** * NEWICK tree-statement reader of DendroPy: a shallow embedding

    The development follows [dendropy/dataio/newickreader.py].  The reader is
    a recursive-descent parser that pulls tokens from a [NexusTokenizer],
    builds nodes through factory callbacks and resolves labels through a
    taxon-symbol mapper.  Python exceptions are values of [exn]; statements
    that mutate the tokenizer, the taxon namespace or the reader's
    [tree_statement_complete] flag are functions on an explicit state. *)

From Stdlib Require Import String Ascii List Bool Arith ZArith Lia.
Import ListNotations.
Open Scope string_scope.
Open Scope list_scope.

(* ================================================================== *)
(** ** Exceptions and results *)

(** The exception classes the reader can raise or let through. *)
Inductive exn : Type :=
| DataParseError
| NewickReaderError
| NewickReaderInvalidTokenError
| NewickReaderMalformedStatementError
| NewickReaderIncompleteTreeStatementError
| NewickReaderInvalidValueError
| UnexpectedEndOfStreamError
| NameError (name : string)
| AttributeError
| IndexError
| ValueError
| TypeError
| StopIteration.

Definition exn_eqb (a b : exn) : bool :=
  match a, b with
  | DataParseError, DataParseError => true
  | NewickReaderError, NewickReaderError => true
  | NewickReaderInvalidTokenError, NewickReaderInvalidTokenError => true
  | NewickReaderMalformedStatementError, NewickReaderMalformedStatementError => true
  | NewickReaderIncompleteTreeStatementError,
    NewickReaderIncompleteTreeStatementError => true
  | NewickReaderInvalidValueError, NewickReaderInvalidValueError => true
  | UnexpectedEndOfStreamError, UnexpectedEndOfStreamError => true
  | NameError x, NameError y => String.eqb x y
  | AttributeError, AttributeError => true
  | IndexError, IndexError => true
  | ValueError, ValueError => true
  | TypeError, TypeError => true
  | StopIteration, StopIteration => true
  | _, _ => false
  end.

(** The direct base class of each reader exception, as the nested class
    statements of [NewickReader] declare them. *)
Definition base_class (e : exn) : option exn :=
  match e with
  | NewickReaderError => Some DataParseError
  | NewickReaderInvalidTokenError => Some NewickReaderError
  | NewickReaderMalformedStatementError => Some NewickReaderError
  | NewickReaderIncompleteTreeStatementError =>
      Some NewickReaderMalformedStatementError
  | NewickReaderInvalidValueError => Some NewickReaderError
  | UnexpectedEndOfStreamError => Some DataParseError
  | _ => None
  end.

Fixpoint isinstance_upto (depth : nat) (e cls : exn) : bool :=
  exn_eqb e cls ||
  match depth with
  | 0 => false
  | S d => match base_class e with
           | Some b => isinstance_upto d b cls
           | None => false
           end
  end.

(** [isinstance e cls]: an exception of class [e] is caught by
    [except cls]. The hierarchy above is four levels deep. *)
Definition isinstance (e cls : exn) : bool := isinstance_upto 4 e cls.

(** Result of a call that returns or raises. *)
Inductive result (A : Type) : Type :=
| Ok (a : A)
| Raise (e : exn).
Arguments Ok {A} a.
Arguments Raise {A} e.

(** Outcome of running a loop or a recursion of the reader under a budget of
    iterations: a value, a raised exception, or the budget used up. *)
Inductive outcome (A : Type) : Type :=
| Return (a : A)
| Throw (e : exn)
| NoFuel.
Arguments Return {A} a.
Arguments Throw {A} e.
Arguments NoFuel {A}.

(** State-and-exception monad used for the statements that touch mutable
    objects. *)
Definition M (S A : Type) : Type := S -> outcome (A * S).

Definition ret {S A : Type} (a : A) : M S A := fun s => Return (a, s).

Definition bind {S A B : Type} (c : M S A) (k : A -> M S B) : M S B :=
  fun s => match c s with
           | Return (a, s') => k a s'
           | Throw e => Throw e
           | NoFuel => NoFuel
           end.

Definition raise {S A : Type} (e : exn) : M S A := fun _ => Throw e.
Definition out_of_fuel {S A : Type} : M S A := fun _ => NoFuel.
Definition get {S : Type} : M S S := fun s => Return (s, s).
Definition lift {S A : Type} (r : result A) : M S A :=
  fun s => match r with
           | Ok a => Return (a, s)
           | Raise e => Throw e
           end.

Declare Scope py_scope.
Delimit Scope py_scope with py.
Notation "x <- c1 ;; c2" := (bind c1 (fun x => c2))
  (at level 61, c1 at next level, right associativity) : py_scope.
Notation "c1 ;; c2" := (bind c1 (fun _ => c2))
  (at level 61, right associativity) : py_scope.
Open Scope py_scope.

(* ================================================================== *)
(** ** The token stream *)

(** What the lexical scanner finds in the character stream: a token (with
    its quoting flag) or a bracketed comment. *)
Inductive Item : Type :=
| Tok (text : string) (quoted : bool)
| Comment (text : string).

(** Modelled from the spec: the tokenizer ([nexusprocessing.NexusTokenizer],
    not part of the sources at hand). It holds the unread rest of the stream,
    the current token, whether that token was quote-delimited, and the
    comments captured since the last drain. *)
Record NexusTokenizer : Type := mkTokenizer {
  src : list Item;
  current_token : option string;
  is_token_quoted : bool;
  captured_comments : list string
}.

(** Modelled from the spec: advancing moves to the next token, accumulating
    the comments passed on the way; at the end of the stream there is no
    current token. *)
Fixpoint scan (items : list Item) (captured : list string) : NexusTokenizer :=
  match items with
  | [] => mkTokenizer [] None false captured
  | Comment c :: rest => scan rest (captured ++ [c])
  | Tok t q :: rest => mkTokenizer rest (Some t) q captured
  end.

Definition NexusTokenizer_init (stream : list Item) : NexusTokenizer :=
  mkTokenizer stream None false [].

Definition next_token (tk : NexusTokenizer) : NexusTokenizer :=
  scan (src tk) (captured_comments tk).

(** Modelled from the spec: [require_advance()] moves and fails if no token
    remains; the error is the tokenizer's own
    [Tokenizer.UnexpectedEndOfStreamError]. *)
Definition require_next_token (tk : NexusTokenizer) : result NexusTokenizer :=
  let tk' := next_token tk in
  match current_token tk' with
  | Some _ => Ok tk'
  | None => Raise UnexpectedEndOfStreamError
  end.

Definition is_eof (tk : NexusTokenizer) : bool :=
  match src tk with
  | [] => true
  | _ :: _ => false
  end.

Definition pull_captured_comments (tk : NexusTokenizer)
  : list string * NexusTokenizer :=
  (captured_comments tk,
   mkTokenizer (src tk) (current_token tk) (is_token_quoted tk) []).

Definition clear_captured_comments (tk : NexusTokenizer) : NexusTokenizer :=
  snd (pull_captured_comments tk).

(** [nexus_tokenizer.current_token == s]; [None] equals no string. *)
Definition token_is (tk : NexusTokenizer) (s : string) : bool :=
  match current_token tk with
  | Some t => String.eqb t s
  | None => false
  end.

(** *** A scanner for the examples *)

Definition is_whitespace (c : ascii) : bool :=
  existsb (Ascii.eqb c) [" "%char; "009"%char; "010"%char; "013"%char].

Definition is_punctuation (c : ascii) : bool :=
  existsb (Ascii.eqb c) ["("%char; ")"%char; ","%char; ";"%char; ":"%char].

Inductive ScanMode : Type :=
| Idle
| InWord (acc : string)
| InQuote (acc : string)
| InComment (acc : string).

Definition snoc_char (s : string) (c : ascii) : string :=
  s ++ String c EmptyString.

(** [str.upper] on ASCII letters. *)
Definition upper_char (c : ascii) : ascii :=
  let n := nat_of_ascii c in
  if Nat.leb 97 n && Nat.leb n 122 then ascii_of_nat (n - 32) else c.

Fixpoint upper (s : string) : string :=
  match s with
  | EmptyString => EmptyString
  | String c rest => String (upper_char c) (upper rest)
  end.

(** Modelled from the spec: the lexical scanner. Whitespace separates
    tokens, each of [( ) , ; :] is a token of its own, ['...'] is a quoted
    token and [[...]] a comment. *)
Fixpoint scan_chars (mode : ScanMode) (cs : list ascii) : list Item :=
  match cs with
  | [] =>
      match mode with
      | Idle => []
      | InWord acc => [Tok acc false]
      | InQuote acc => [Tok acc true]
      | InComment acc => [Comment acc]
      end
  | c :: rest =>
      match mode with
      | InComment acc =>
          if Ascii.eqb c "]"%char then Comment acc :: scan_chars Idle rest
          else scan_chars (InComment (snoc_char acc c)) rest
      | InQuote acc =>
          if Ascii.eqb c "'"%char then Tok acc true :: scan_chars Idle rest
          else scan_chars (InQuote (snoc_char acc c)) rest
      | InWord acc =>
          if is_whitespace c then Tok acc false :: scan_chars Idle rest
          else if is_punctuation c then
            Tok acc false :: Tok (String c EmptyString) false
              :: scan_chars Idle rest
          else if Ascii.eqb c "["%char then
            Tok acc false :: scan_chars (InComment EmptyString) rest
          else if Ascii.eqb c "'"%char then
            Tok acc false :: scan_chars (InQuote EmptyString) rest
          else scan_chars (InWord (snoc_char acc c)) rest
      | Idle =>
          if is_whitespace c then scan_chars Idle rest
          else if is_punctuation c then
            Tok (String c EmptyString) false :: scan_chars Idle rest
          else if Ascii.eqb c "["%char then
            scan_chars (InComment EmptyString) rest
          else if Ascii.eqb c "'"%char then
            scan_chars (InQuote EmptyString) rest
          else scan_chars (InWord (String c EmptyString)) rest
      end
  end.

Definition tokenize (s : string) : list Item :=
  scan_chars Idle (list_ascii_of_string s).

(* ================================================================== *)
(** ** Taxa, nodes and trees *)

Record Taxon : Type := mkTaxon {
  taxon_label : option string;
  taxon_index : nat
}.

(** The taxon namespace: an ordered collection of taxa. *)
Definition TaxonNamespace : Type := list Taxon.

(** The callback [taxon_symbol_mapper.require_taxon_for_symbol]: it receives
    the label (which Python lets be [None]) and may grow the namespace or
    raise. *)
Definition TaxonSymbolMapFunc : Type :=
  TaxonNamespace -> option string -> result (Taxon * TaxonNamespace).

(** Labels compared as the default policy of the namespace has it, case
    aside. *)
Definition label_eqb (a b : option string) : bool :=
  match a, b with
  | Some x, Some y => String.eqb (upper x) (upper y)
  | None, None => true
  | _, _ => false
  end.

(** Modelled from the spec: the taxon namespace resolver
    ([resolve_or_create], not part of the sources at hand), in its
    lookup-or-create behaviour under the default policy of case-insensitive
    labels: a label that the namespace holds, case aside, yields its taxon, a
    new one is appended to the namespace. The spec's duplicate-label
    condition concerns the labels of one tree, which a callback that sees
    the label and the namespace only cannot tell apart from the labels of
    earlier trees; it is left out, so a label that comes back yields the
    taxon it has. *)
Definition require_taxon_for_symbol : TaxonSymbolMapFunc :=
  fun ns symbol =>
    match symbol with
    | None => Raise TypeError
    | Some _ =>
        match find (fun t => label_eqb (taxon_label t) symbol) ns with
        | Some t => Ok (t, ns)
        | None =>
            let t := mkTaxon symbol (List.length ns) in
            Ok (t, ns ++ [t])
        end
    end.

(** A structured annotation extracted from a metadata comment. *)
Definition Annotation : Type := (string * string)%type.

(** A node; [edge_length] is the [length] of the node's one edge
    ([node.edge.length]), [None] when unspecified. [Num] is the type of the
    numbers the configured edge-length cast produces. *)
#[warnings="-register-all"]
Inductive Node (Num : Type) : Type := mkNode {
  label : option string;
  taxon : option Taxon;
  edge_length : option Num;
  comments : list string;
  annotations : list Annotation;
  _child_nodes : list (Node Num)
}.
Arguments mkNode {Num}.
Arguments label {Num}.
Arguments taxon {Num}.
Arguments edge_length {Num}.
Arguments comments {Num}.
Arguments annotations {Num}.
Arguments _child_nodes {Num}.

Record Tree (Num : Type) : Type := mkTree {
  seed_node : Node Num;
  is_rooted : option bool;
  weight : option Num;
  tree_comments : list string;
  tree_annotations : list Annotation
}.
Arguments mkTree {Num}.
Arguments seed_node {Num}.
Arguments is_rooted {Num}.
Arguments weight {Num}.
Arguments tree_comments {Num}.
Arguments tree_annotations {Num}.

(** Modelled from the spec: [new_node()], the factory for an empty node with
    an empty edge ([tree.node_factory]). *)
Definition node_factory {Num : Type} : Node Num :=
  mkNode None None None [] [] [].

(** Modelled from the spec: [new_tree()], the caller-supplied tree factory,
    here the one that hands out an empty tree. *)
Definition new_tree {Num : Type} : Tree Num :=
  mkTree node_factory None None [] [].

Definition add_child {Num} (n c : Node Num) : Node Num :=
  mkNode (label n) (taxon n) (edge_length n) (comments n) (annotations n)
         (_child_nodes n ++ [c]).

Definition set_label {Num} (n : Node Num) (l : option string) : Node Num :=
  mkNode l (taxon n) (edge_length n) (comments n) (annotations n)
         (_child_nodes n).

Definition set_taxon {Num} (n : Node Num) (t : Taxon) : Node Num :=
  mkNode (label n) (Some t) (edge_length n) (comments n) (annotations n)
         (_child_nodes n).

Definition set_edge_length {Num} (n : Node Num) (v : Num) : Node Num :=
  mkNode (label n) (taxon n) (Some v) (comments n) (annotations n)
         (_child_nodes n).

Definition append_comment {Num} (n : Node Num) (c : string) : Node Num :=
  mkNode (label n) (taxon n) (edge_length n) (comments n ++ [c])
         (annotations n) (_child_nodes n).

Definition update_annotations {Num} (n : Node Num) (a : list Annotation)
  : Node Num :=
  mkNode (label n) (taxon n) (edge_length n) (comments n)
         (annotations n ++ a) (_child_nodes n).

Definition set_is_rooted {Num} (t : Tree Num) (r : option bool) : Tree Num :=
  mkTree (seed_node t) r (weight t) (tree_comments t) (tree_annotations t).

Definition set_weight {Num} (t : Tree Num) (w : Num) : Tree Num :=
  mkTree (seed_node t) (is_rooted t) (Some w) (tree_comments t)
         (tree_annotations t).

Definition tree_append_comment {Num} (t : Tree Num) (c : string) : Tree Num :=
  mkTree (seed_node t) (is_rooted t) (weight t) (tree_comments t ++ [c])
         (tree_annotations t).

Definition tree_update_annotations {Num} (t : Tree Num)
  (a : list Annotation) : Tree Num :=
  mkTree (seed_node t) (is_rooted t) (weight t) (tree_comments t)
         (tree_annotations t ++ a).

Definition set_seed_node {Num} (t : Tree Num) (n : Node Num) : Tree Num :=
  mkTree n (is_rooted t) (weight t) (tree_comments t) (tree_annotations t).

(* ================================================================== *)
(** ** The reader's configuration *)

(** Keyword-argument values of the kinds the constructor is called with. *)
Inductive PyVal : Type :=
| PyNone
| PyBool (b : bool)
| PyStr (s : string).

(** Python truthiness. *)
Definition truthy (v : PyVal) : bool :=
  match v with
  | PyNone => false
  | PyBool b => b
  | PyStr s => negb (String.eqb s EmptyString)
  end.

(** The attributes [__init__] stores on the reader. The boolean options are
    only ever tested for truthiness, so they are kept as booleans. *)
Record NewickReader (Num : Type) : Type := mkReader {
  _rooting : option string;
  edge_len_type : option string -> result Num;
  suppress_edge_lengths : bool;
  extract_comment_metadata : bool;
  store_tree_weights : bool;
  encode_splits : bool;
  finish_node_func : option (Node Num -> Node Num);
  case_sensitive_taxon_labels : bool;
  preserve_underscores : bool;
  suppress_internal_node_taxa : bool;
  suppress_external_node_taxa : bool;
  allow_duplicate_taxon_labels : bool
}.
Arguments mkReader {Num}.
Arguments _rooting {Num}.
Arguments edge_len_type {Num}.
Arguments suppress_edge_lengths {Num}.
Arguments extract_comment_metadata {Num}.
Arguments store_tree_weights {Num}.
Arguments encode_splits {Num}.
Arguments finish_node_func {Num}.
Arguments case_sensitive_taxon_labels {Num}.
Arguments preserve_underscores {Num}.
Arguments suppress_internal_node_taxa {Num}.
Arguments suppress_external_node_taxa {Num}.
Arguments allow_duplicate_taxon_labels {Num}.

(** The keyword arguments given to the constructor: [None] stands for a
    key that is absent; [kw_other] lists any further keys. *)
Record Kwargs (Num : Type) : Type := mkKwargs {
  kw_as_unrooted : option PyVal;
  kw_as_rooted : option PyVal;
  kw_default_as_rooted : option PyVal;
  kw_default_as_unrooted : option PyVal;
  kw_rooting : option PyVal;
  kw_edge_len_type : option (option string -> result Num);
  kw_suppress_edge_lengths : option PyVal;
  kw_extract_comment_metadata : option PyVal;
  kw_store_tree_weights : option PyVal;
  kw_encode_splits : option PyVal;
  kw_finish_node_func : option (option (Node Num -> Node Num));
  kw_case_sensitive_taxon_labels : option PyVal;
  kw_preserve_underscores : option PyVal;
  kw_suppress_internal_node_taxa : option PyVal;
  kw_suppress_external_node_taxa : option PyVal;
  kw_allow_duplicate_taxon_labels : option PyVal;
  kw_other : list string
}.
Arguments mkKwargs {Num}.
Arguments kw_as_unrooted {Num}.
Arguments kw_as_rooted {Num}.
Arguments kw_default_as_rooted {Num}.
Arguments kw_default_as_unrooted {Num}.
Arguments kw_rooting {Num}.
Arguments kw_edge_len_type {Num}.
Arguments kw_suppress_edge_lengths {Num}.
Arguments kw_extract_comment_metadata {Num}.
Arguments kw_store_tree_weights {Num}.
Arguments kw_encode_splits {Num}.
Arguments kw_finish_node_func {Num}.
Arguments kw_case_sensitive_taxon_labels {Num}.
Arguments kw_preserve_underscores {Num}.
Arguments kw_suppress_internal_node_taxa {Num}.
Arguments kw_suppress_external_node_taxa {Num}.
Arguments kw_allow_duplicate_taxon_labels {Num}.
Arguments kw_other {Num}.

(** [kwargs.pop(key, default)] followed by the truthiness test the reader
    applies to the stored value. *)
Definition pop_flag (v : option PyVal) (default : bool) : bool :=
  match v with
  | Some x => truthy x
  | None => default
  end.

(** [_set_rooting]: the setter of the [rooting] property. *)
Definition _set_rooting (val : PyVal) : result (option string) :=
  match val with
  | PyNone => Ok None
  | PyStr s =>
      if existsb (String.eqb s)
           ["force-unrooted"; "force-rooted";
            "default-unrooted"; "default-rooted"]
      then Ok (Some s)
      else Raise ValueError
  | PyBool _ => Raise ValueError
  end.

(** The "special handling for legacy signature" block of [__init__]: it
    yields the value bound to [rooting] afterwards ([None] when that key is
    absent). *)
Definition legacy_rooting {Num} (kwargs : Kwargs Num)
  : result (option PyVal) :=
  let present (v : option PyVal) := match v with Some _ => 1 | None => 0 end in
  let specs := present (kw_as_unrooted kwargs) + present (kw_as_rooted kwargs)
               + present (kw_default_as_rooted kwargs)
               + present (kw_default_as_unrooted kwargs) in
  if Nat.eqb specs 0 then Ok (kw_rooting kwargs)
  else
    match kw_rooting kwargs with
    | Some _ => Raise ValueError
    | None =>
        if Nat.ltb 1 specs then Raise ValueError
        else
          match kw_as_unrooted kwargs, kw_as_rooted kwargs,
                kw_default_as_unrooted kwargs, kw_default_as_rooted kwargs with
          | Some v, _, _, _ =>
              Ok (Some (PyStr (if truthy v then "force-unrooted"
                               else "force-rooted")))
          | _, Some v, _, _ =>
              Ok (Some (PyStr (if truthy v then "force-rooted"
                               else "force-unrooted")))
          | _, _, Some v, _ =>
              Ok (Some (PyStr (if truthy v then "default-unrooted"
                               else "default-rooted")))
          | _, _, _, Some v =>
              Ok (Some (PyStr (if truthy v then "default-rooted"
                               else "default-unrooted")))
          | None, None, None, None => Ok (kw_rooting kwargs)
          end
    end.

(** [float], the default of [edge_len_type], is a parameter of the
    constructor's model. *)
Definition NewickReader_init {Num} (float : option string -> result Num)
  (kwargs : Kwargs Num) : result (NewickReader Num) :=
  match legacy_rooting kwargs with
  | Raise e => Raise e
  | Ok rooting_kw =>
      let val := match rooting_kw with
                 | Some v => v
                 | None => PyStr "default-unrooted"
                 end in
      match _set_rooting val with
      | Raise e => Raise e
      | Ok rooting =>
          let self :=
            mkReader rooting
              (match kw_edge_len_type kwargs with
               | Some f => f
               | None => float
               end)
              (pop_flag (kw_suppress_edge_lengths kwargs) false)
              (pop_flag (kw_extract_comment_metadata kwargs) false)
              (pop_flag (kw_store_tree_weights kwargs) false)
              (pop_flag (kw_encode_splits kwargs) false)
              (match kw_finish_node_func kwargs with
               | Some f => f
               | None => None
               end)
              (pop_flag (kw_case_sensitive_taxon_labels kwargs) false)
              (pop_flag (kw_preserve_underscores kwargs) false)
              (pop_flag (kw_suppress_internal_node_taxa kwargs) true)
              (pop_flag (kw_suppress_external_node_taxa kwargs) false)
              (pop_flag (kw_allow_duplicate_taxon_labels kwargs) false) in
          match kw_other kwargs with
          | [] => Ok self
          | _ :: _ => Raise TypeError
          end
      end
  end.

(** No keyword argument at all. *)
Definition no_kwargs {Num} : Kwargs Num :=
  mkKwargs None None None None None None None None None None None None None
           None None None [].

(* ================================================================== *)
(** ** The reader's methods *)

(** What parsing mutates: the tokenizer, the taxon namespace behind the
    symbol mapper, and the reader's [tree_statement_complete] attribute. *)
Record ParseState : Type := mkState {
  nexus_tokenizer : NexusTokenizer;
  taxon_namespace : TaxonNamespace;
  tree_statement_complete : option bool
}.

Definition current : M ParseState NexusTokenizer :=
  fun s => Return (nexus_tokenizer s, s).

Definition do_pull_captured_comments : M ParseState (list string) :=
  fun s =>
    let (cs, tk) := pull_captured_comments (nexus_tokenizer s) in
    Return (cs, mkState tk (taxon_namespace s) (tree_statement_complete s)).

Definition do_clear_captured_comments : M ParseState unit :=
  fun s =>
    Return (tt, mkState (clear_captured_comments (nexus_tokenizer s))
                        (taxon_namespace s) (tree_statement_complete s)).

(** Both advancing calls return the new current token. *)
Definition do_next_token : M ParseState (option string) :=
  fun s =>
    let tk := next_token (nexus_tokenizer s) in
    Return (current_token tk,
            mkState tk (taxon_namespace s) (tree_statement_complete s)).

Definition do_require_next_token : M ParseState (option string) :=
  fun s =>
    match require_next_token (nexus_tokenizer s) with
    | Ok tk =>
        Return (current_token tk,
                mkState tk (taxon_namespace s) (tree_statement_complete s))
    | Raise e => Throw e
    end.

Definition set_tree_statement_complete (b : bool) : M ParseState unit :=
  fun s =>
    Return (tt, mkState (nexus_tokenizer s) (taxon_namespace s) (Some b)).

Definition call_taxon_symbol_map_func (f : TaxonSymbolMapFunc)
  (symbol : option string) : M ParseState Taxon :=
  fun s =>
    match f (taxon_namespace s) symbol with
    | Ok (t, ns) =>
        Return (t, mkState (nexus_tokenizer s) ns (tree_statement_complete s))
    | Raise e => Throw e
    end.

(** [s.replace("_", " ")] *)
Fixpoint replace_underscores (s : string) : string :=
  match s with
  | EmptyString => EmptyString
  | String c rest =>
      String (if Ascii.eqb c "_"%char then " "%char else c)
             (replace_underscores rest)
  end.

(** [opt == s] for a value that is a string or [None]. *)
Definition str_is (opt : option string) (s : string) : bool :=
  match opt with
  | Some x => String.eqb x s
  | None => false
  end.

(** A [for] loop whose body may raise. *)
Fixpoint for_each {A B : Type} (body : A -> B -> result A) (l : list B)
  (a : A) : result A :=
  match l with
  | [] => Ok a
  | x :: rest =>
      match body a x with
      | Ok a' => for_each body rest a'
      | Raise e => Raise e
      end
  end.

(** The names bound when the body of [_process_tree_comments] runs: its
    parameters and local variables, the names the module binds at top level,
    and the builtins the method refers to. *)
Definition _process_tree_comments_locals : list string :=
  ["self"; "tree"; "tree_comments"; "rooting_token_found";
   "weighting_token_found"; "comment"; "weight_expression"; "annotations"].

Definition module_globals : list string :=
  ["re"; "warnings"; "StringIO"; "base"; "error"; "tokenizer";
   "nexusprocessing"; "ioservice"; "NewickReader"].

Definition builtins_referenced : list string :=
  ["eval"; "float"; "IndexError"; "ValueError"; "True"; "False"].

(** Evaluating a name: the object it denotes (identified by the name), or
    [NameError] when no scope binds it. *)
Definition load_name (name : string) : result string :=
  if existsb (String.eqb name)
       (_process_tree_comments_locals ++ module_globals
        ++ builtins_referenced)
  then Ok name
  else Raise (NameError name).

Definition is_rooting_comment (comment : string) : bool :=
  existsb (String.eqb comment) ["&u"; "&U"; "&r"; "&R"].

Definition is_weight_comment (comment : string) : bool :=
  String.prefix "&W" comment || String.prefix "&w" comment.

(** Truthiness of a value that is [True], [False] or [None]. *)
Definition is_true (b : option bool) : bool :=
  match b with
  | Some true => true
  | _ => false
  end.

Definition is_None {A : Type} (x : option A) : bool :=
  match x with
  | None => true
  | Some _ => false
  end.

Section Reader.

Context {Num : Type}.

(** The float [1.0]. *)
Variable float_one : Num.

(** [nexusprocessing.parse_comment_metadata_to_annotations], reached
    through [_parse_comment_metadata]; an empty result is falsy. *)
Variable parse_comment_metadata_to_annotations : string -> list Annotation.

(** What the try block of the weight directive computes from the object
    its first name denotes: the second space-separated field of that
    object's [tree_weight_comment] and the [eval] of the float quotient
    built from it. *)
Variable eval_tree_weight : string -> result Num.

Variable self : NewickReader Num.

Definition _parse_comment_metadata (comment : string) : list Annotation :=
  parse_comment_metadata_to_annotations comment.

(** [_parse_tree_rooting_state]; the empty string stands for "no rooting
    comment". The result is [True], [False] or [None]. *)
Definition _parse_tree_rooting_state (rooting_comment : string)
  : result (option bool) :=
  if str_is (_rooting self) "force-unrooted" then Ok (Some false)
  else if str_is (_rooting self) "force-rooted" then Ok (Some true)
  else if String.eqb rooting_comment "&R" || String.eqb rooting_comment "&r"
  then Ok (Some true)
  else if String.eqb rooting_comment "&U" || String.eqb rooting_comment "&u"
  then Ok (Some false)
  else if str_is (_rooting self) "default-rooted" then Ok (Some true)
  else if str_is (_rooting self) "default-unrooted" then Ok (Some false)
  else match _rooting self with
       | None => Ok None
       | Some _ => Raise TypeError
       end.

(** The body of the [try] statement of a weight directive: it starts by
    evaluating the name [stream_tokenizer]. *)
Definition weight_try_body (comment : string) : result Num :=
  match load_name "stream_tokenizer" with
  | Ok stream_tokenizer => eval_tree_weight stream_tokenizer
  | Raise e => Raise e
  end.

(** [try: tree.weight = ... except IndexError: pass except ValueError:
    pass], for a given result of the body. *)
Definition try_set_weight (body : result Num) (tree : Tree Num)
  : result (Tree Num) :=
  match body with
  | Ok w => Ok (set_weight tree w)
  | Raise IndexError => Ok tree
  | Raise ValueError => Ok tree
  | Raise e => Raise e
  end.

(** Loop state of [_process_tree_comments]. *)
Record TreeCommentsState : Type := mkTCS {
  tcs_tree : Tree Num;
  rooting_token_found : bool;
  weighting_token_found : bool
}.

(** One iteration of [for comment in tree_comments], with the body of the
    weight directive's [try] statement as a parameter. *)
Definition process_tree_comment (try_body : string -> result Num)
  (st : TreeCommentsState) (comment : string) : result TreeCommentsState :=
  let tree := tcs_tree st in
  if is_rooting_comment comment then
    match _parse_tree_rooting_state comment with
    | Ok r => Ok (mkTCS (set_is_rooted tree r) true
                        (weighting_token_found st))
    | Raise e => Raise e
    end
  else if is_weight_comment comment then
    if store_tree_weights self then
      match try_set_weight (try_body comment) tree with
      | Ok tree' => Ok (mkTCS tree' (rooting_token_found st) true)
      | Raise e => Raise e
      end
    else
      Ok (mkTCS (tree_append_comment tree comment)
                (rooting_token_found st) true)
  else if extract_comment_metadata self && String.prefix "&" comment then
    match _parse_comment_metadata comment with
    | [] => Ok (mkTCS (tree_append_comment tree comment)
                      (rooting_token_found st) (weighting_token_found st))
    | annotations =>
        Ok (mkTCS (tree_update_annotations tree annotations)
                  (rooting_token_found st) (weighting_token_found st))
    end
  else
    Ok (mkTCS (tree_append_comment tree comment)
              (rooting_token_found st) (weighting_token_found st)).

(** The two statements after the loop of [_process_tree_comments]. *)
Definition finish_tree_comments (st : TreeCommentsState)
  : result (Tree Num) :=
  let tree := tcs_tree st in
  match (if rooting_token_found st then Ok tree
         else match _parse_tree_rooting_state EmptyString with
              | Ok r => Ok (set_is_rooted tree r)
              | Raise e => Raise e
              end) with
  | Ok tree =>
      if store_tree_weights self && negb (weighting_token_found st)
      then Ok (set_weight tree float_one)
      else Ok tree
  | Raise e => Raise e
  end.

(** [_process_tree_comments] for a given body of the weight [try]. *)
Definition _process_tree_comments_with (try_body : string -> result Num)
  (tree : Tree Num) (tree_comments : list string) : result (Tree Num) :=
  match for_each (process_tree_comment try_body) tree_comments
                 (mkTCS tree false false) with
  | Ok st => finish_tree_comments st
  | Raise e => Raise e
  end.

(** [_process_tree_comments] as the source has it. *)
Definition _process_tree_comments (tree : Tree Num)
  (tree_comments : list string) : result (Tree Num) :=
  _process_tree_comments_with weight_try_body tree tree_comments.

Definition process_node_comment (node : Node Num) (comment : string)
  : Node Num :=
  if extract_comment_metadata self && String.prefix "&" comment then
    match _parse_comment_metadata comment with
    | [] => append_comment node comment
    | annotations => update_annotations node annotations
    end
  else append_comment node comment.

Definition _process_node_comments (node : Node Num)
  (node_comments : list string) : Node Num :=
  fold_left process_node_comment node_comments node.

Definition _finish_node (node : Node Num) : Node Num :=
  match finish_node_func self with
  | Some f => f node
  | None => node
  end.

(** A blank node: created, given the captured comments, finished and
    attached to [current_node]. *)
Definition add_blank_child (current_node : Node Num)
  : M ParseState (Node Num) :=
  node_comments <- do_pull_captured_comments ;;
  let new_node := _process_node_comments node_factory node_comments in
  ret (add_child current_node (_finish_node new_node)).

(** [while nexus_tokenizer.current_token == ",":] "another blank node". *)
Fixpoint blank_nodes_loop (fuel : nat) (current_node : Node Num)
  : M ParseState (Node Num) :=
  match fuel with
  | 0 => out_of_fuel
  | S fuel' =>
      tk <- current ;;
      if token_is tk "," then
        current_node <- add_blank_child current_node ;;
        do_require_next_token ;;
        blank_nodes_loop fuel' current_node
      else ret current_node
  end.

(** The text of a label; the current token is [None] only at the end of
    the stream, and [None.replace] is an [AttributeError]. *)
Definition label_of_token (tk : NexusTokenizer) : result (option string) :=
  if negb (preserve_underscores self) && negb (is_token_quoted tk) then
    match current_token tk with
    | Some t => Ok (Some (replace_underscores t))
    | None => Raise AttributeError
    end
  else Ok (current_token tk).

(** [current_node.edge.length = self.edge_len_type(token)], a
    [ValueError] of the cast becoming a malformed-statement error. *)
Definition read_edge_length (current_node : Node Num)
  : M ParseState (Node Num) :=
  tk <- current ;;
  match edge_len_type self (current_token tk) with
  | Ok edge_length => ret (set_edge_length current_node edge_length)
  | Raise ValueError => raise NewickReaderMalformedStatementError
  | Raise e => raise e
  end.

(** The label becomes a plain label or a taxon reference. *)
Definition store_label (taxon_symbol_map_func : TaxonSymbolMapFunc)
  (is_internal_node : option bool) (current_node : Node Num)
  (label : option string) : M ParseState (Node Num) :=
  if (is_true is_internal_node && suppress_internal_node_taxa self)
     || (negb (is_true is_internal_node) && suppress_external_node_taxa self)
  then ret (set_label current_node label)
  else
    t <- call_taxon_symbol_map_func taxon_symbol_map_func label ;;
    ret (set_taxon current_node t).

(** The second [while True:] of [_parse_tree_node_description]: label,
    edge length and the end of the node. *)
Fixpoint label_loop (fuel : nat) (taxon_symbol_map_func : TaxonSymbolMapFunc)
  (is_internal_node : option bool) (current_node : Node Num)
  (current_node_comments : list string) (label_parsed : bool)
  : M ParseState (Node Num) :=
  match fuel with
  | 0 => out_of_fuel
  | S fuel' =>
      pulled <- do_pull_captured_comments ;;
      let current_node_comments := current_node_comments ++ pulled in
      tk <- current ;;
      if token_is tk ":" then
        do_require_next_token ;;
        current_node <-
          (if negb (suppress_edge_lengths self)
           then read_edge_length current_node
           else ret current_node) ;;
        do_require_next_token ;;
        label_loop fuel' taxon_symbol_map_func is_internal_node current_node
                   current_node_comments label_parsed
      else if token_is tk ")" then
        ret (_finish_node
               (_process_node_comments current_node current_node_comments))
      else if token_is tk ";" then
        set_tree_statement_complete true ;;
        do_next_token ;;
        ret (_finish_node
               (_process_node_comments current_node current_node_comments))
      else if token_is tk "," then
        ret (_finish_node
               (_process_node_comments current_node current_node_comments))
      else if token_is tk "(" then
        raise NewickReaderMalformedStatementError
      else if label_parsed then
        raise NewickReaderMalformedStatementError
      else
        label <- lift (label_of_token tk) ;;
        current_node <- store_label taxon_symbol_map_func is_internal_node
                                    current_node label ;;
        do_require_next_token ;;
        label_loop fuel' taxon_symbol_map_func is_internal_node current_node
                   current_node_comments true
  end.

(** The first [while True:] of [_parse_tree_node_description]: the child
    nodes between parentheses. [descend] is the recursive call. *)
Fixpoint children_loop
  (descend : Node Num -> option bool -> M ParseState (Node Num))
  (fuel : nat) (current_node : Node Num) (node_created : bool)
  : M ParseState (Node Num) :=
  match fuel with
  | 0 => out_of_fuel
  | S fuel' =>
      tk <- current ;;
      if token_is tk "," then
        current_node <-
          (if negb node_created then add_blank_child current_node
           else ret current_node) ;;
        do_require_next_token ;;
        current_node <- blank_nodes_loop fuel' current_node ;;
        tk <- current ;;
        if negb node_created && token_is tk ")" then
          current_node <- add_blank_child current_node ;;
          children_loop descend fuel' current_node true
        else children_loop descend fuel' current_node node_created
      else if token_is tk ")" then
        do_require_next_token ;;
        ret current_node
      else
        let is_new_internal_node := token_is tk "(" in
        node_comments <- do_pull_captured_comments ;;
        let new_node := _process_node_comments node_factory node_comments in
        new_node <- descend new_node (Some is_new_internal_node) ;;
        children_loop descend fuel' (add_child current_node new_node) true
  end.

Definition has_children (n : Node Num) : bool :=
  match _child_nodes n with
  | [] => false
  | _ :: _ => true
  end.

Fixpoint _parse_tree_node_description (fuel : nat)
  (taxon_symbol_map_func : TaxonSymbolMapFunc)
  (current_node : Node Num) (is_internal_node : option bool)
  : M ParseState (Node Num) :=
  match fuel with
  | 0 => out_of_fuel
  | S fuel' =>
      current_node_comments <- do_pull_captured_comments ;;
      tk <- current ;;
      current_node <-
        (if token_is tk "(" then
           do_require_next_token ;;
           children_loop
             (_parse_tree_node_description fuel' taxon_symbol_map_func)
             fuel' current_node false
         else ret current_node) ;;
      set_tree_statement_complete false ;;
      let is_internal_node :=
        match is_internal_node with
        | None => if has_children current_node then Some true else None
        | Some b => Some b
        end in
      label_loop fuel' taxon_symbol_map_func is_internal_node current_node
                 current_node_comments false
  end.

(** The first loop of [_parse_tree_statement]: skip semicolons and the
    initial absence of a token. It yields the local variables
    [current_token] and [tree_comments]. *)
Fixpoint skip_to_statement (fuel : nat) (token : option string)
  (tree_comments : list string)
  : M ParseState (option string * list string) :=
  match fuel with
  | 0 => out_of_fuel
  | S fuel' =>
      tk <- current ;;
      if (str_is token ";" || is_None token) && negb (is_eof tk) then
        token <- do_require_next_token ;;
        tree_comments <- do_pull_captured_comments ;;
        skip_to_statement fuel' token tree_comments
      else ret (token, tree_comments)
  end.

(** The last loop of [_parse_tree_statement]: trailing semicolons. *)
Fixpoint skip_semicolons (fuel : nat) (token : option string)
  : M ParseState unit :=
  match fuel with
  | 0 => out_of_fuel
  | S fuel' =>
      tk <- current ;;
      if str_is token ";" && negb (is_eof tk) then
        do_clear_captured_comments ;;
        token <- do_next_token ;;
        skip_semicolons fuel' token
      else ret tt
  end.

(** [_parse_tree_statement] up to the call of the node-description
    recursion: [None] at the end of the stream, else the tree made by the
    factory with its comments processed. *)
Definition begin_tree_statement (fuel : nat) (tree_factory : Tree Num)
  : M ParseState (option (Tree Num)) :=
  tk <- current ;;
  tree_comments <- do_pull_captured_comments ;;
  start <- skip_to_statement fuel (current_token tk) tree_comments ;;
  let (token, tree_comments) := start in
  tk <- current ;;
  if is_eof tk then ret None
  else if negb (str_is token "(") then
    raise NewickReaderInvalidTokenError
  else
    tree <- lift (_process_tree_comments tree_factory tree_comments) ;;
    set_tree_statement_complete false ;;
    ret (Some tree).

(** [_parse_tree_statement] after the recursion has returned: the
    completion check and the trailing semicolons. *)
Definition end_tree_statement (fuel : nat) (tree : Tree Num)
  : M ParseState (option (Tree Num)) :=
  tk <- current ;;
  s <- get ;;
  if negb (is_true (tree_statement_complete s)) then
    raise NewickReaderIncompleteTreeStatementError
  else
    skip_semicolons fuel (current_token tk) ;;
    ret (Some tree).

(** [_parse_tree_statement] under a budget; the option is the [None] the
    method returns at the end of the stream. *)
Definition _parse_tree_statement_fuel (fuel : nat)
  (tree_factory : Tree Num) (taxon_symbol_map_func : TaxonSymbolMapFunc)
  : M ParseState (option (Tree Num)) :=
  started <- begin_tree_statement fuel tree_factory ;;
  match started with
  | None => ret None
  | Some tree =>
      seed <- _parse_tree_node_description fuel taxon_symbol_map_func
                (seed_node tree) None ;;
      end_tree_statement fuel (set_seed_node tree seed)
  end.

(** Every loop iteration and every recursive call either ends or reads a
    token, so a budget a little over twice the number of unread items
    suffices. *)
Definition enough_fuel (s : ParseState) : nat :=
  2 * List.length (src (nexus_tokenizer s)) + 4.

Definition _parse_tree_statement (tree_factory : Tree Num)
  (taxon_symbol_map_func : TaxonSymbolMapFunc)
  : M ParseState (option (Tree Num)) :=
  fun s =>
    _parse_tree_statement_fuel (enough_fuel s) tree_factory
                               taxon_symbol_map_func s.

(** *** The generator [tree_iter] *)

(** Where the generator is suspended: before its first statement, or at
    [yield tree] (holding the value just yielded). *)
Inductive Generator : Type :=
| AtStart (s : ParseState)
| AtYield (tree : option (Tree Num)) (s : ParseState).

(** What a request for the next element gives. *)
Inductive Step : Type :=
| Yielded (tree : option (Tree Num)) (g : Generator)
| Raised (e : exn)
| Diverged.

Definition tree_iter (stream : list Item) (namespace : TaxonNamespace)
  : Generator :=
  AtStart (mkState (NexusTokenizer_init stream) namespace None).

(** One turn of [while True:] up to the [yield]. *)
Definition run_to_yield (tree_factory : Tree Num)
  (taxon_symbol_map_func : TaxonSymbolMapFunc) (s : ParseState) : Step :=
  match _parse_tree_statement tree_factory taxon_symbol_map_func s with
  | Return (tree, s') => Yielded tree (AtYield tree s')
  | Throw e => Raised e
  | NoFuel => Diverged
  end.

(** [next(iterator)]: resume the generator. After [yield tree] comes
    [if tree is None: raise StopIteration]; the source predates PEP 479, so
    a [StopIteration] raised in the generator's body ends the iteration. *)
Definition generator_next (tree_factory : Tree Num)
  (taxon_symbol_map_func : TaxonSymbolMapFunc) (g : Generator) : Step :=
  match g with
  | AtStart s => run_to_yield tree_factory taxon_symbol_map_func s
  | AtYield None _ => Raised StopIteration
  | AtYield (Some _) s => run_to_yield tree_factory taxon_symbol_map_func s
  end.

(** [list(iterator)]: the elements yielded until [StopIteration], with at
    most [n] requests made. *)
Fixpoint collect (n : nat) (tree_factory : Tree Num)
  (taxon_symbol_map_func : TaxonSymbolMapFunc) (g : Generator)
  : outcome (list (option (Tree Num))) :=
  match n with
  | 0 => NoFuel
  | S n' =>
      match generator_next tree_factory taxon_symbol_map_func g with
      | Yielded tree g' =>
          match collect n' tree_factory taxon_symbol_map_func g' with
          | Return l => Return (tree :: l)
          | Throw e => Throw e
          | NoFuel => NoFuel
          end
      | Raised StopIteration => Return []
      | Raised e => Throw e
      | Diverged => NoFuel
      end
  end.

End Reader.

(** *** How long an iteration can be *)

(** What is left to read, counted so that every advance of the tokenizer
    lowers it: two for each unread item and one for a current token. *)
Definition remaining (s : ParseState) : nat :=
  2 * List.length (src (nexus_tokenizer s))
  + (if is_None (current_token (nexus_tokenizer s)) then 0 else 1).

(** How many requests surely exhaust a generator. *)
Definition requests_bound {Num} (g : @Generator Num) : nat :=
  match g with
  | AtStart s => remaining s + 2
  | AtYield (Some _) s => remaining s + 2
  | AtYield None _ => 1
  end.

(* ================================================================== *)
(** ** Collaborators of the examples *)

(** Numbers of the examples: an integer, or a float standing for the
    decimal literal it was read from. *)
Inductive PyNumber : Type :=
| PyInt (z : Z)
| PyFloat (literal : string).

Definition is_digit (c : ascii) : bool :=
  (48 <=? nat_of_ascii c)%nat && (nat_of_ascii c <=? 57)%nat.



(** [str.strip]: without the blanks at both ends. *)
Fixpoint lstrip (s : string) : string :=
  match s with
  | EmptyString => EmptyString
  | String c rest => if is_whitespace c then lstrip rest else s
  end.

Fixpoint rstrip (s : string) : string :=
  match s with
  | EmptyString => EmptyString
  | String c rest =>
      let r := rstrip rest in
      if is_whitespace c && String.eqb r EmptyString then EmptyString
      else String c r
  end.

Definition strip (s : string) : string := rstrip (lstrip s).

Definition is_empty (s : string) : bool := String.eqb s EmptyString.

(** The digits a string starts with, and what follows them. *)
Fixpoint split_digits (s : string) : string * string :=
  match s with
  | EmptyString => (EmptyString, EmptyString)
  | String c rest =>
      if is_digit c then
        let (digits, r) := split_digits rest in (String c digits, r)
      else (EmptyString, s)
  end.

(** Without the sign a literal may start with. *)
Definition drop_sign (s : string) : string :=
  match s with
  | EmptyString => s
  | String c rest =>
      if Ascii.eqb c "+"%char || Ascii.eqb c "-"%char then rest else s
  end.


(** The exponent of a float literal: nothing, or [e] or [E], an optional
    sign and digits. *)
Definition exponent_part (s : string) : bool :=
  match s with
  | EmptyString => true
  | String c rest =>
      (Ascii.eqb c "e"%char || Ascii.eqb c "E"%char)
      && (let (digits, r) := split_digits (drop_sign rest) in
          negb (is_empty digits) && is_empty r)
  end.

(** Digits with an optional decimal point among or beside them, and an
    optional exponent. *)
Definition decimal_literal (s : string) : bool :=
  let (int_part, r) := split_digits s in
  match r with
  | String "."%char r' =>
      let (fraction, r'') := split_digits r' in
      negb (is_empty int_part && is_empty fraction) && exponent_part r''
  | _ => negb (is_empty int_part) && exponent_part r
  end.

(** An optional sign, then a decimal literal or one of the names of the
    special values, in any case. *)
Definition float_literal (s : string) : bool :=
  let body := drop_sign s in
  existsb (String.eqb (upper body)) ["INF"; "INFINITY"; "NAN"]
  || decimal_literal body.

(** Modelled from the spec: the floating-point cast target of the edge
    lengths, Python's [float] on a string: blanks around, an optional sign,
    and a decimal literal with an optional exponent or the name of a special
    value; any other text is a [ValueError], [None] a [TypeError]. The
    float stands for the literal it was read from. *)
Definition python_float (token : option string) : result PyNumber :=
  match token with
  | None => Raise TypeError
  | Some s =>
      let literal := strip s in
      if float_literal literal then Ok (PyFloat literal)
      else Raise ValueError
  end.

(** Without the sigil of a metadata comment, [&] or [&&]. *)
Definition strip_sigil (s : string) : string :=
  match s with
  | String "&"%char (String "&"%char rest) => rest
  | String "&"%char rest => rest
  | _ => s
  end.

Fixpoint split_at_equals (key : string) (s : string)
  : option (string * string) :=
  match s with
  | EmptyString => None
  | String c rest =>
      if Ascii.eqb c "="%char then Some (key, rest)
      else split_at_equals (snoc_char key c) rest
  end.

(** The pieces of a string between the occurrences of [sep]. *)
Fixpoint split_on (sep : ascii) (piece : string) (s : string) : list string :=
  match s with
  | EmptyString => [piece]
  | String c rest =>
      if Ascii.eqb c sep then piece :: split_on sep EmptyString rest
      else split_on sep (snoc_char piece c) rest
  end.

(** One [key=value] pair, the blanks around the key and around the value
    stripped; the key is not empty. *)
Definition key_value (piece : string) : option Annotation :=
  match split_at_equals EmptyString piece with
  | Some (key, value) =>
      if is_empty (strip key) then None else Some (strip key, strip value)
  | None => None
  end.

Fixpoint all_pairs (pieces : list string) : option (list Annotation) :=
  match pieces with
  | [] => Some []
  | piece :: rest =>
      match key_value piece, all_pairs rest with
      | Some a, Some l => Some (a :: l)
      | _, _ => None
      end
  end.

(** Modelled from the spec: metadata extraction. After its sigil the
    comment is a sequence of [key=value] pairs separated by commas; a
    comment that is not of this form yields no pair. *)
Definition key_value_annotations (comment : string) : list Annotation :=
  match all_pairs (split_on ","%char EmptyString (strip_sigil comment)) with
  | Some pairs => pairs
  | None => []
  end.

(** No object answers to the name the weight directive's try block starts
    with; would one, it has no weight to offer here. *)
Definition no_tree_weight (obj : string) : result PyNumber :=
  Raise AttributeError.

(** The reader built without keyword arguments. *)
Definition default_reader : NewickReader PyNumber :=
  mkReader (Some "default-unrooted") python_float false false false false
           None false false true false false.

Definition with_rooting {Num} (self : NewickReader Num)
  (rooting : option string) : NewickReader Num :=
  mkReader rooting (edge_len_type self) (suppress_edge_lengths self)
    (extract_comment_metadata self) (store_tree_weights self)
    (encode_splits self) (finish_node_func self)
    (case_sensitive_taxon_labels self) (preserve_underscores self)
    (suppress_internal_node_taxa self) (suppress_external_node_taxa self)
    (allow_duplicate_taxon_labels self).

Definition with_store_tree_weights {Num} (self : NewickReader Num)
  (b : bool) : NewickReader Num :=
  mkReader (_rooting self) (edge_len_type self) (suppress_edge_lengths self)
    (extract_comment_metadata self) b
    (encode_splits self) (finish_node_func self)
    (case_sensitive_taxon_labels self) (preserve_underscores self)
    (suppress_internal_node_taxa self) (suppress_external_node_taxa self)
    (allow_duplicate_taxon_labels self).

Definition with_suppress_edge_lengths {Num} (self : NewickReader Num)
  (b : bool) : NewickReader Num :=
  mkReader (_rooting self) (edge_len_type self) b
    (extract_comment_metadata self) (store_tree_weights self)
    (encode_splits self) (finish_node_func self)
    (case_sensitive_taxon_labels self) (preserve_underscores self)
    (suppress_internal_node_taxa self) (suppress_external_node_taxa self)
    (allow_duplicate_taxon_labels self).

(** The reader with another cast target for the edge lengths. *)
Definition with_edge_len_type {Num} (self : NewickReader Num)
  (cast : option string -> result Num) : NewickReader Num :=
  mkReader (_rooting self) cast (suppress_edge_lengths self)
    (extract_comment_metadata self) (store_tree_weights self)
    (encode_splits self) (finish_node_func self)
    (case_sensitive_taxon_labels self) (preserve_underscores self)
    (suppress_internal_node_taxa self) (suppress_external_node_taxa self)
    (allow_duplicate_taxon_labels self).

(** The reader with its two taxon-label options replaced. *)
Definition with_taxon_label_options {Num} (self : NewickReader Num)
  (case_sensitive allow_duplicate : bool) : NewickReader Num :=
  mkReader (_rooting self) (edge_len_type self) (suppress_edge_lengths self)
    (extract_comment_metadata self) (store_tree_weights self)
    (encode_splits self) (finish_node_func self)
    case_sensitive (preserve_underscores self)
    (suppress_internal_node_taxa self) (suppress_external_node_taxa self)
    allow_duplicate.

(** The keyword arguments with the two taxon-label options replaced. *)
Definition with_taxon_label_kwargs {Num} (kwargs : Kwargs Num)
  (case_sensitive allow_duplicate : option PyVal) : Kwargs Num :=
  mkKwargs (kw_as_unrooted kwargs) (kw_as_rooted kwargs)
    (kw_default_as_rooted kwargs) (kw_default_as_unrooted kwargs)
    (kw_rooting kwargs) (kw_edge_len_type kwargs)
    (kw_suppress_edge_lengths kwargs) (kw_extract_comment_metadata kwargs)
    (kw_store_tree_weights kwargs) (kw_encode_splits kwargs)
    (kw_finish_node_func kwargs) case_sensitive
    (kw_preserve_underscores kwargs) (kw_suppress_internal_node_taxa kwargs)
    (kw_suppress_external_node_taxa kwargs) allow_duplicate
    (kw_other kwargs).

Definition with_rooting_kwarg {Num} (kwargs : Kwargs Num)
  (rooting : option PyVal) : Kwargs Num :=
  mkKwargs (kw_as_unrooted kwargs) (kw_as_rooted kwargs)
    (kw_default_as_rooted kwargs) (kw_default_as_unrooted kwargs)
    rooting (kw_edge_len_type kwargs)
    (kw_suppress_edge_lengths kwargs) (kw_extract_comment_metadata kwargs)
    (kw_store_tree_weights kwargs) (kw_encode_splits kwargs)
    (kw_finish_node_func kwargs) (kw_case_sensitive_taxon_labels kwargs)
    (kw_preserve_underscores kwargs) (kw_suppress_internal_node_taxa kwargs)
    (kw_suppress_external_node_taxa kwargs)
    (kw_allow_duplicate_taxon_labels kwargs) (kw_other kwargs).

(** Reading every tree of a string with the collaborators above, into an
    empty namespace: what [list(reader.tree_iter(...))] evaluates to. *)
Definition read_trees (self : NewickReader PyNumber) (text : string)
  : outcome (list (option (Tree PyNumber))) :=
  collect (PyFloat "1.0") key_value_annotations no_tree_weight self
          (requests_bound (@tree_iter PyNumber (tokenize text) [])) new_tree
          require_taxon_for_symbol (tree_iter (tokenize text) []).

(** The first request made to the generator. *)
Definition first_tree (self : NewickReader PyNumber) (text : string) : Step :=
  generator_next (PyFloat "1.0") key_value_annotations no_tree_weight self
                 new_tree require_taxon_for_symbol
                 (tree_iter (tokenize text) []).

Definition leaf (label : string) (index : nat) : Node PyNumber :=
  mkNode None (Some (mkTaxon (Some label) index)) None [] [] [].

Definition root_of (children : list (Node PyNumber)) : Node PyNumber :=
  mkNode None None None [] [] children.

(* ================================================================== *)
(** ** Notions used in the statements *)

(** The four strings the rooting setter recognizes. *)
Definition rooting_strings : list string :=
  ["force-unrooted"; "force-rooted"; "default-unrooted"; "default-rooted"].

(** The reader's [_rooting] attribute holds a value its setter accepts. *)
Definition known_rooting (r : option string) : bool :=
  match r with
  | None => true
  | Some s => existsb (String.eqb s) rooting_strings
  end.

(** The policy forces rootedness whatever the comments say. *)
Definition forcing_rooting (r : option string) : bool :=
  str_is r "force-unrooted" || str_is r "force-rooted".

(** The last rooting directive of a comment batch, if any. *)
Fixpoint last_rooting_comment (batch : list string) : option string :=
  match batch with
  | [] => None
  | c :: rest =>
      match last_rooting_comment rest with
      | Some c' => Some c'
      | None => if is_rooting_comment c then Some c else None
      end
  end.

(** The first rooting directive of a comment batch, if any. *)
Definition first_rooting_comment (batch : list string) : option string :=
  find is_rooting_comment batch.

Definition or_empty (c : option string) : string :=
  match c with
  | Some s => s
  | None => EmptyString
  end.

(** The comments of a batch that end up on the tree's comment list. *)
Definition kept_on_tree {Num} (meta : string -> list Annotation)
  (self : NewickReader Num) (comment : string) : bool :=
  if is_rooting_comment comment then false
  else if is_weight_comment comment then negb (store_tree_weights self)
  else if extract_comment_metadata self && String.prefix "&" comment
       then match meta comment with [] => true | _ :: _ => false end
       else true.

(** The body of the weight directive's [try] raises only what its handlers
    catch, on the weight directives of the batch. *)
Definition swallowed_on {Num} (try_body : string -> result Num)
  (batch : list string) : Prop :=
  forall c, In c batch -> is_weight_comment c = true ->
    try_body c = Raise IndexError \/ try_body c = Raise ValueError.

(** The state of a reader that has just been given a stream. *)
Definition fresh_state (stream : list Item) (namespace : TaxonNamespace)
  : ParseState :=
  mkState (NexusTokenizer_init stream) namespace None.

(** The rootedness of the first element a generator yields, when that is a
    tree. *)
Definition yielded_rootedness {Num} (step : @Step Num) : option bool :=
  match step with
  | Yielded (Some tree) _ => is_rooted tree
  | _ => None
  end.

(** The current token is none of the structural tokens the label phase
    tests for: it is read as a label. *)
Definition at_label_token (tk : NexusTokenizer) : bool :=
  negb (token_is tk ":" || token_is tk ")" || token_is tk ";"
        || token_is tk "," || token_is tk "(").

(** A state whose tokenizer sits on [token] with [rest] unread and no
    captured comment. *)
Definition state_at (token : string) (rest : list Item)
  (namespace : TaxonNamespace) : ParseState :=
  mkState (mkTokenizer rest (Some token) false []) namespace (Some false).

(** Two readers that differ at most in the options
    [case_sensitive_taxon_labels] and [allow_duplicate_taxon_labels]. *)
Definition same_but_label_options {Num} (r1 r2 : NewickReader Num) : Prop :=
  _rooting r1 = _rooting r2 /\
  edge_len_type r1 = edge_len_type r2 /\
  suppress_edge_lengths r1 = suppress_edge_lengths r2 /\
  extract_comment_metadata r1 = extract_comment_metadata r2 /\
  store_tree_weights r1 = store_tree_weights r2 /\
  encode_splits r1 = encode_splits r2 /\
  finish_node_func r1 = finish_node_func r2 /\
  preserve_underscores r1 = preserve_underscores r2 /\
  suppress_internal_node_taxa r1 = suppress_internal_node_taxa r2 /\
  suppress_external_node_taxa r1 = suppress_external_node_taxa r2.

(** The state in which a request at the end of the stream leaves the
    reader: the captured comments are drained, nothing else changes. *)
Definition drained (s : ParseState) : ParseState :=
  mkState (mkTokenizer (src (nexus_tokenizer s))
                       (current_token (nexus_tokenizer s))
                       (is_token_quoted (nexus_tokenizer s)) [])
          (taxon_namespace s) (tree_statement_complete s).

(** No node with children carries a taxon, anywhere in the subtree. *)
Fixpoint no_taxon_on_parents {Num} (n : Node Num) : bool :=
  match n with
  | mkNode _ tx _ _ _ children =>
      (is_None tx || match children with [] => true | _ :: _ => false end)
      && forallb no_taxon_on_parents children
  end.

(** A node under construction: no taxon yet, and subtrees that satisfy
    [no_taxon_on_parents]. *)
Definition untaxed {Num} (n : Node Num) : Prop :=
  taxon n = None /\ forallb no_taxon_on_parents (_child_nodes n) = true.

(** A token that the label phase reads as a label. *)
Definition label_token (t : string) : bool :=
  negb (existsb (String.eqb t) [":"; ")"; ";"; ","; "("]).

(** The text a label token is stored under. *)
Definition label_text {Num} (self : NewickReader Num) (t : string) : string :=
  if preserve_underscores self then t else replace_underscores t.

(** What the recursive call of the child loop is asked to guarantee: on a
    fresh node, flagged internal whenever the description opens with a
    parenthesis, the node it returns satisfies [no_taxon_on_parents]. *)
Definition descend_spec {Num}
  (descend : Node Num -> option bool -> M ParseState (Node Num)) : Prop :=
  forall node b s n' s',
    untaxed node -> _child_nodes node = [] ->
    (token_is (nexus_tokenizer s) "(" = true -> b = true) ->
    descend node (Some b) s = Return (n', s') ->
    no_taxon_on_parents n' = true.

(** *** Flat child lists *)

(** A slot of a child list: a label or nothing. *)
Definition slot_items (slot : option string) : list Item :=
  match slot with
  | Some l => [Tok l false]
  | None => []
  end.

(** The tokens of the slots [first], [more...], separated by commas. *)
Fixpoint slots_items (first : option string) (more : list (option string))
  : list Item :=
  slot_items first ++
  match more with
  | [] => []
  | s :: rest => Tok "," false :: slots_items s rest
  end.

(** The statement "(" slots ")" ";". *)
Definition child_list_statement (first : option string)
  (more : list (option string)) : list Item :=
  Tok "(" false :: slots_items first more ++ [Tok ")" false; Tok ";" false].

Definition is_Some {A : Type} (x : option A) : bool := negb (is_None x).

(** The children the reader makes of the slots, [None] for a blank child:
    every slot but the last gives a child, blank when the slot is empty;
    the last slot gives a child when it holds a label, and a blank one when
    it is empty and no labelled child came before ([created] is false). *)
Fixpoint slots_children (created : bool) (first : option string)
  (more : list (option string)) : list (option string) :=
  match more with
  | [] =>
      match first with
      | Some l => [Some l]
      | None => if created then [] else [None]
      end
  | s :: rest => first :: slots_children (created || is_Some first) s rest
  end.

(** An empty pair of parentheses has no child. *)
Definition expected_children (first : option string)
  (more : list (option string)) : list (option string) :=
  match first, more with
  | None, [] => []
  | _, _ => slots_children false first more
  end.

(** A node without label and without taxon. *)
Definition is_blank {Num} (n : Node Num) : bool :=
  is_None (label n) && is_None (taxon n).

(** The state of a reader whose current token is the first of [items]. *)
Definition state_on (items : list Item) (namespace : TaxonNamespace)
  (flag : option bool) : ParseState :=
  match items with
  | Tok t q :: rest => mkState (mkTokenizer rest (Some t) q []) namespace flag
  | _ => mkState (mkTokenizer [] None false []) namespace flag
  end.

(** The rest of the ',' branch of the child loop, once the separator has
    been passed: further blank nodes, the blank node before a closing
    parenthesis, and the loop again. *)
Definition after_separator {Num} (meta : string -> list Annotation)
  (self : NewickReader Num)
  (descend : Node Num -> option bool -> M ParseState (Node Num))
  (fuel_blank fuel : nat) (current_node : Node Num) (node_created : bool)
  : M ParseState (Node Num) :=
  (current_node <- blank_nodes_loop meta self fuel_blank current_node ;;
   tk <- current ;;
   if negb node_created && token_is tk ")" then
     current_node <- add_blank_child meta self current_node ;;
     children_loop meta self descend fuel current_node true
   else children_loop meta self descend fuel current_node node_created)%py.

(** The symbol mapper returns a taxon for every label. *)
Definition total_mapper (mapper : TaxonSymbolMapFunc) : Prop :=
  forall ns l, exists t ns', mapper ns (Some l) = Ok (t, ns').

(** *** Termination *)

(** A computation that, run from [s], does not use up its budget and leaves
    no more to read than there was. *)
Definition steady {A : Type} (c : M ParseState A) (s : ParseState) : Prop :=
  c s <> NoFuel /\
  forall a s', c s = Return (a, s') -> remaining s' <= remaining s.

(** A computation that, run from [s], does not use up its budget and, when
    it returns, has read something. *)
Definition advancing {A : Type} (c : M ParseState A) (s : ParseState) : Prop :=
  c s <> NoFuel /\
  forall a s', c s = Return (a, s') -> remaining s' < remaining s.

(** The current token ends a node description: a separator or a closing
    parenthesis. *)
Definition at_node_end (s : ParseState) : bool :=
  token_is (nexus_tokenizer s) "," || token_is (nexus_tokenizer s) ")".

(** What the child loop needs of the recursive call on the states with at
    most [bound] left to read. *)
Definition descend_total {Num} (bound : nat)
  (descend : Node Num -> option bool -> M ParseState (Node Num)) : Prop :=
  forall node flag s,
    remaining s <= bound ->
    steady (descend node flag) s /\
    (at_node_end s = false -> advancing (descend node flag) s).

(* ================================================================== *)
(** ** Notions used for the reader as a whole *)

(** From a state whose taxon namespace satisfies [Inv], the computation [c]
    returns a value in [Q] and a namespace in [Inv], or raises an exception
    of [E]. *)
Definition keeps {A : Type} (Inv : TaxonNamespace -> Prop) (E : exn -> Prop)
  (c : M ParseState A) (Q : A -> Prop) : Prop :=
  forall s, Inv (taxon_namespace s) ->
    match c s with
    | Return (a, s') => Q a /\ Inv (taxon_namespace s')
    | Throw e => E e
    | NoFuel => True
    end.

(** [c'] does whatever [c] does within its budget. *)
Definition refines {A : Type} (c c' : M ParseState A) : Prop :=
  forall s, c s <> NoFuel -> c' s = c s.

(** Every node of the subtree satisfies [p]. *)
Fixpoint every_node {Num} (p : Node Num -> bool) (n : Node Num) : bool :=
  match n with
  | mkNode l tx len cs ann children =>
      p (mkNode l tx len cs ann children) && forallb (every_node p) children
  end.

(** The node carries no edge length, no taxon, no plain label. *)
Definition no_edge_length {Num} (n : Node Num) : bool :=
  is_None (edge_length n).

Definition no_taxon {Num} (n : Node Num) : bool := is_None (taxon n).

Definition no_label {Num} (n : Node Num) : bool := is_None (label n).

(** What a statement's result is asked to satisfy: its seed node, when
    there is a tree. *)
Definition on_seed {Num} (N : Node Num -> Prop) (r : option (Tree Num))
  : Prop :=
  match r with
  | Some tree => N (seed_node tree)
  | None => True
  end.

(** The errors the statement parser raises by itself. *)
Definition parser_errors : list exn :=
  [NewickReaderInvalidTokenError; NewickReaderMalformedStatementError;
   NewickReaderIncompleteTreeStatementError; UnexpectedEndOfStreamError;
   AttributeError; NameError "stream_tokenizer"].

(** The comment is turned into annotations: metadata extraction is on, the
    comment starts with [&], and parsing it gives at least one annotation. *)
Definition metadata_comment {Num} (meta : string -> list Annotation)
  (self : NewickReader Num) (comment : string) : bool :=
  extract_comment_metadata self && String.prefix "&" comment
  && match meta comment with [] => false | _ :: _ => true end.

(** The reader with its two taxon-suppression options replaced. *)
Definition with_suppress_taxa {Num} (self : NewickReader Num)
  (internal external : bool) : NewickReader Num :=
  mkReader (_rooting self) (edge_len_type self) (suppress_edge_lengths self)
    (extract_comment_metadata self) (store_tree_weights self)
    (encode_splits self) (finish_node_func self)
    (case_sensitive_taxon_labels self) (preserve_underscores self)
    internal external (allow_duplicate_taxon_labels self).

(** What can escape the statement parser: one of its own errors, an error
    of the symbol mapper, or an error other than [ValueError] of the
    edge-length cast. *)
Definition statement_error {Num} (self : NewickReader Num)
  (mapper : TaxonSymbolMapFunc) (e : exn) : Prop :=
  In e parser_errors \/
  (exists ns l, mapper ns l = Raise e) \/
  (exists t, edge_len_type self t = Raise e /\ e <> ValueError).

(** The keyword arguments with the legacy keyword [as_unrooted],
    [as_rooted], [default_as_rooted] or [default_as_unrooted] set. *)
Definition with_legacy_kwargs {Num} (kwargs : Kwargs Num)
  (as_unrooted as_rooted default_as_rooted default_as_unrooted
     : option PyVal) : Kwargs Num :=
  mkKwargs as_unrooted as_rooted default_as_rooted default_as_unrooted
    (kw_rooting kwargs) (kw_edge_len_type kwargs)
    (kw_suppress_edge_lengths kwargs) (kw_extract_comment_metadata kwargs)
    (kw_store_tree_weights kwargs) (kw_encode_splits kwargs)
    (kw_finish_node_func kwargs) (kw_case_sensitive_taxon_labels kwargs)
    (kw_preserve_underscores kwargs) (kw_suppress_internal_node_taxa kwargs)
    (kw_suppress_external_node_taxa kwargs)
    (kw_allow_duplicate_taxon_labels kwargs) (kw_other kwargs).

(** How many of the four legacy keywords are given. *)
Definition legacy_count {Num} (kwargs : Kwargs Num) : nat :=
  List.length
    (filter is_Some [kw_as_unrooted kwargs; kw_as_rooted kwargs;
                     kw_default_as_rooted kwargs;
                     kw_default_as_unrooted kwargs]).

(** The text a label token is stored under, for a token that may have been
    quoted. *)
Definition token_label_text {Num} (self : NewickReader Num) (t : string)
  (quoted : bool) : string :=
  if preserve_underscores self || quoted then t else replace_underscores t.

Fixpoint has_underscore (s : string) : bool :=
  match s with
  | EmptyString => false
  | String c rest => Ascii.eqb c "_"%char || has_underscore rest
  end.

(* ================================================================== *)
(** ** The token iterator of the NCL bridge ([dataio/ncl.py]) *)

(** [ListOfTokenIterator]: an iterator over a list of tokens, with its
    attributes [eof], [queued] and [tree_rooted]; [tokens_iter] holds what
    the list iterator has not handed out yet. *)
Record ListOfTokenIterator : Type := mkListOfTokenIterator {
  tokens_iter : list string;
  eof : bool;
  queued : option string;
  tree_rooted : option bool
}.

(** [ListOfTokenIterator.__init__] *)
Definition ListOfTokenIterator_init (tokens : list string)
  : ListOfTokenIterator :=
  mkListOfTokenIterator tokens false None None.

Definition tree_rooted_comment (self : ListOfTokenIterator) : option bool :=
  tree_rooted self.

(** [read_next_token]: the next token, or the empty string once the list
    is exhausted; the [StopIteration] of the list iterator sets [eof]. *)
Definition read_next_token (self : ListOfTokenIterator)
  : string * ListOfTokenIterator :=
  if negb (eof self) then
    match tokens_iter self with
    | t :: rest =>
        (t, mkListOfTokenIterator rest (eof self) (queued self)
                                  (tree_rooted self))
    | [] =>
        (EmptyString,
         mkListOfTokenIterator [] true (queued self) (tree_rooted self))
    end
  else (EmptyString, self).

(** [read_next_token_ucase]: the next token in upper case; the method
    returns [None] when the token is empty. *)
Definition read_next_token_ucase (self : ListOfTokenIterator)
  : option string * ListOfTokenIterator :=
  let (t, self) := read_next_token self in
  (if String.eqb t EmptyString then None else Some (upper t), self).

(** The tokens that [n] successive calls of [read_next_token] return, and
    the iterator they leave. *)
Fixpoint read_tokens (n : nat) (self : ListOfTokenIterator)
  : list string * ListOfTokenIterator :=
  match n with
  | 0 => ([], self)
  | S n' =>
      let (t, self) := read_next_token self in
      let (ts, self) := read_tokens n' self in
      (t :: ts, self)
  end.

(* ================================================================== *)
(** ** Writing a tree down *)

(** The tokens of a node description: the children between parentheses,
    separated by commas, then the label. A node without children is written
    as its label alone. *)
Fixpoint newick_items {Num} (n : Node Num) : list Item :=
  match n with
  | mkNode lbl _ _ _ _ children =>
      match children with
      | [] => []
      | c :: cs =>
          Tok "(" false :: newick_items c
          ++ flat_map (fun c' => Tok "," false :: newick_items c') cs
          ++ [Tok ")" false]
      end ++ slot_items lbl
  end.

(** The statement of a tree: the description of its seed node and a
    semicolon. *)
Definition newick_statement {Num} (n : Node Num) : list Item :=
  newick_items n ++ [Tok ";" false].

Fixpoint node_size {Num} (n : Node Num) : nat :=
  match n with
  | mkNode _ _ _ _ _ children => S (list_sum (map node_size children))
  end.

Definition is_nil {A : Type} (l : list A) : bool :=
  match l with
  | [] => true
  | _ :: _ => false
  end.

(** A tree of plain labels that [newick_items] writes down in full: no
    taxon, edge length, comment or annotation anywhere; every label is a
    label token that the reader stores unchanged; and every node without
    children has a label. *)
Fixpoint plain_labelled {Num} (self : NewickReader Num) (n : Node Num)
  : bool :=
  match n with
  | mkNode lbl tx len cs ann children =>
      is_None tx && is_None len && is_nil cs && is_nil ann
      && match lbl with
         | Some l => label_token l && String.eqb (label_text self l) l
         | None => negb (is_nil children)
         end
      && forallb (plain_labelled self) children
  end.

(** *** Child lists with empty slots *)

(** A node that [newick_items] writes down as nothing: no label and no
    child. In the list of its parent it is an empty slot. *)
Definition empty_slot {Num} (n : Node Num) : bool :=
  is_None (label n) && is_nil (_child_nodes n).

(** The children the reader makes of a written child list, from the second
    slot on; a slot is given as the pair of whether it is empty and of the
    node it is read as. Every slot but the last gives a child; the last one
    gives none when it is empty and a labelled or parenthesized child was
    created before it in the list ([created]). *)
Fixpoint read_slots {Num} (created : bool) (first : bool * Node Num)
  (more : list (bool * Node Num)) : list (Node Num) :=
  match more with
  | [] => if fst first && created then [] else [snd first]
  | s :: rest =>
      snd first :: read_slots (created || negb (fst first)) s rest
  end.

(** The same for a whole list; a single empty slot, that is an empty pair
    of parentheses, gives no child. *)
Definition read_children {Num} (slots : list (bool * Node Num))
  : list (Node Num) :=
  match slots with
  | [] => []
  | first :: more =>
      if fst first && is_nil more then [] else read_slots false first more
  end.

(** The tree that the reader makes of the statement [newick_items] writes
    for [n]: in every child list the children are those of
    [read_children]. *)
Fixpoint as_read {Num} (n : Node Num) : Node Num :=
  match n with
  | mkNode lbl tx len cs ann children =>
      mkNode lbl tx len cs ann
        (read_children (map (fun c => (empty_slot c, as_read c)) children))
  end.

Definition slot {Num} (c : Node Num) : bool * Node Num :=
  (empty_slot c, as_read c).

(** A tree of plain labels and empty slots: no taxon, edge length, comment
    or annotation anywhere, and every label a label token that the reader
    stores unchanged. *)
Fixpoint plain_slots {Num} (self : NewickReader Num) (n : Node Num) : bool :=
  match n with
  | mkNode lbl tx len cs ann children =>
      is_None tx && is_None len && is_nil cs && is_nil ann
      && match lbl with
         | Some l => label_token l && String.eqb (label_text self l) l
         | None => true
         end
      && forallb (plain_slots self) children
  end.

(** What the child loop needs of the recursive call on a written child
    that is no empty slot: flagged by whether the child has children, it
    reads the description up to the separator or parenthesis that follows
    and returns the child as [as_read] has it. *)
Definition reads_child {Num} (self : NewickReader Num)
  (descend : Node Num -> option bool -> M ParseState (Node Num))
  (c : Node Num) : Prop :=
  plain_slots self c = true /\
  (empty_slot c = false ->
   forall x xq rest ns fl,
     x = "," \/ x = ")" ->
     descend node_factory (Some (has_children c))
             (state_on (newick_items c ++ Tok x xq :: rest) ns fl)
     = Return (as_read c,
               mkState (mkTokenizer rest (Some x) xq []) ns (Some false))).

(** Where the label phase leaves the reader at the token [x] that ends a
    node: after a semicolon it has moved on and set the completion flag. *)
Definition after_node (x : string) (xq : bool) (rest : list Item)
  (ns : TaxonNamespace) : ParseState :=
  if String.eqb x ";" then
    mkState (next_token (mkTokenizer rest (Some x) xq [])) ns (Some true)
  else mkState (mkTokenizer rest (Some x) xq []) ns (Some false).

(** A token that ends a node description. *)
Definition node_end (x : string) : bool :=
  existsb (String.eqb x) [","; ")"; ";"].

(** The comment of a tree that is turned into annotations: neither a
    rooting nor a weight directive, and a metadata comment. *)
Definition tree_metadata_comment {Num} (meta : string -> list Annotation)
  (self : NewickReader Num) (comment : string) : bool :=
  negb (is_rooting_comment comment) && negb (is_weight_comment comment)
  && metadata_comment meta self comment.

Definition with_extract_comment_metadata {Num} (self : NewickReader Num)
  (b : bool) : NewickReader Num :=
  mkReader (_rooting self) (edge_len_type self) (suppress_edge_lengths self)
    b (store_tree_weights self)
    (encode_splits self) (finish_node_func self)
    (case_sensitive_taxon_labels self) (preserve_underscores self)
    (suppress_internal_node_taxa self) (suppress_external_node_taxa self)
    (allow_duplicate_taxon_labels self).

Lemma rooting_comment_cases c :
  is_rooting_comment c = true ->
  c = "&u" \/ c = "&U" \/ c = "&r" \/ c = "&R".
Proof.
  unfold is_rooting_comment. simpl.
  repeat rewrite orb_true_iff. rewrite !String.eqb_eq. intuition discriminate.
Qed.

Lemma rooting_comment_not_weight c :
  is_rooting_comment c = true -> is_weight_comment c = false.
Proof.
  intros H. destruct (rooting_comment_cases c H) as [->|[->|[->| ->]]]; reflexivity.
Qed.

Lemma last_rooting_comment_none batch :
  last_rooting_comment batch = None <-> existsb is_rooting_comment batch = false.
Proof.
  induction batch as [|c rest IH]; simpl.
  - tauto.
  - destruct (last_rooting_comment rest) as [c'|].
    + split; [discriminate|]. intros H. apply orb_false_iff in H. destruct H as [_ H].
      apply IH in H. discriminate.
    + destruct IH as [IH _]. rewrite (IH eq_refl), orb_false_r.
      destruct (is_rooting_comment c); split; congruence.
Qed.

Section TreeComments.
Context {Num : Type}.
Variable float_one : Num.
Variable meta : string -> list Annotation.
Variable self : NewickReader Num.

Lemma rooting_state_forced_unrooted c :
  str_is (_rooting self) "force-unrooted" = true ->
  _parse_tree_rooting_state self c = Ok (Some false).
Proof. unfold _parse_tree_rooting_state. intros ->. reflexivity. Qed.

Lemma rooting_state_forced_rooted c :
  str_is (_rooting self) "force-rooted" = true ->
  _parse_tree_rooting_state self c = Ok (Some true).
Proof.
  unfold _parse_tree_rooting_state, str_is. destruct (_rooting self) as [s|]; [|discriminate].
  intros H. apply String.eqb_eq in H. subst s. reflexivity.
Qed.

Lemma rooting_state_known c :
  known_rooting (_rooting self) = true ->
  exists v, _parse_tree_rooting_state self c = Ok v.
Proof.
  unfold known_rooting, _parse_tree_rooting_state, str_is, rooting_strings.
  destruct (_rooting self) as [s|]; simpl.
  - destruct (String.eqb s "force-unrooted"); [eauto|].
    destruct (String.eqb s "force-rooted"); [eauto|].
    destruct (String.eqb c "&R" || String.eqb c "&r"); [eauto|].
    destruct (String.eqb c "&U" || String.eqb c "&u"); [eauto|].
    destruct (String.eqb s "default-rooted"); [eauto|].
    destruct (String.eqb s "default-unrooted"); [eauto|].
    simpl. discriminate.
  - intros _.
    destruct (_ || _); [eauto|].
    destruct (_ || _); eauto.
Qed.

Lemma for_each_tree_comments try_body batch :
  known_rooting (_rooting self) = true ->
  (store_tree_weights self = true -> swallowed_on try_body batch) ->
  forall st, exists st',
    for_each (process_tree_comment meta self try_body) batch st = Ok st' /\
    seed_node (tcs_tree st') = seed_node (tcs_tree st) /\
    weight (tcs_tree st') = weight (tcs_tree st) /\
    tree_comments (tcs_tree st')
      = tree_comments (tcs_tree st) ++ filter (kept_on_tree meta self) batch /\
    Ok (is_rooted (tcs_tree st'))
      = match last_rooting_comment batch with
        | Some c => _parse_tree_rooting_state self c
        | None => Ok (is_rooted (tcs_tree st))
        end /\
    rooting_token_found st'
      = rooting_token_found st || existsb is_rooting_comment batch /\
    weighting_token_found st'
      = weighting_token_found st || existsb is_weight_comment batch.
Proof.
  intros Hk. induction batch as [|c rest IH]; intros Hsw st.
  - exists st. simpl. rewrite app_nil_r, !orb_false_r. repeat split; reflexivity.
  - assert (Hrest : store_tree_weights self = true -> swallowed_on try_body rest).
    { intros Hs c' Hin. apply (Hsw Hs). right. exact Hin. }
    specialize (IH Hrest).
    assert (Hstep : exists st1,
               process_tree_comment meta self try_body st c = Ok st1 /\
               seed_node (tcs_tree st1) = seed_node (tcs_tree st) /\
               weight (tcs_tree st1) = weight (tcs_tree st) /\
               tree_comments (tcs_tree st1)
                 = tree_comments (tcs_tree st)
                   ++ (if kept_on_tree meta self c then [c] else []) /\
               Ok (is_rooted (tcs_tree st1))
                 = (if is_rooting_comment c then _parse_tree_rooting_state self c
                    else Ok (is_rooted (tcs_tree st))) /\
               rooting_token_found st1
                 = rooting_token_found st || is_rooting_comment c /\
               weighting_token_found st1
                 = weighting_token_found st || is_weight_comment c).
    { unfold process_tree_comment, kept_on_tree.
      destruct (is_rooting_comment c) eqn:Hr.
      - destruct (rooting_state_known c Hk) as [v Hv]. rewrite Hv.
        rewrite (rooting_comment_not_weight c Hr).
        eexists. split; [reflexivity|]. simpl.
        rewrite app_nil_r, orb_true_r, orb_false_r. repeat split; reflexivity.
      - destruct (is_weight_comment c) eqn:Hw.
        + destruct (store_tree_weights self) eqn:Hs.
          * destruct (Hsw eq_refl c (or_introl eq_refl) Hw) as [-> | ->];
              simpl; eexists; (split; [reflexivity|]); simpl;
              rewrite app_nil_r, orb_true_r, orb_false_r; repeat split; reflexivity.
          * eexists. split; [reflexivity|]. simpl.
            rewrite orb_true_r, orb_false_r. repeat split; reflexivity.
        + destruct (extract_comment_metadata self && String.prefix "&" c).
          * unfold _parse_comment_metadata. destruct (meta c);
              eexists; (split; [reflexivity|]); simpl;
              rewrite ?app_nil_r, !orb_false_r; repeat split; reflexivity.
          * eexists. split; [reflexivity|]. simpl.
            rewrite !orb_false_r. repeat split; reflexivity. }
    destruct Hstep as (st1 & E1 & Hseed1 & Hw1 & Hc1 & Hroot1 & Hrf1 & Hwf1).
    destruct (IH st1) as (st' & E' & Hseed' & Hw' & Hc' & Hroot' & Hrf' & Hwf').
    exists st'. simpl. rewrite E1. split; [exact E'|].
    split; [congruence|]. split; [congruence|].
    split.
    { rewrite Hc', Hc1, <- app_assoc. f_equal.
      destruct (kept_on_tree meta self c); reflexivity. }
    split.
    { rewrite Hroot'. destruct (last_rooting_comment rest); [reflexivity|].
      rewrite Hroot1. destruct (is_rooting_comment c); reflexivity. }
    split.
    { rewrite Hrf', Hrf1, orb_assoc. reflexivity. }
    { rewrite Hwf', Hwf1, orb_assoc. reflexivity. }
Qed.

Lemma process_tree_comments_with_spec try_body tree batch :
  known_rooting (_rooting self) = true ->
  (store_tree_weights self = true -> swallowed_on try_body batch) ->
  exists tree',
    _process_tree_comments_with float_one meta self try_body tree batch
      = Ok tree' /\
    seed_node tree' = seed_node tree /\
    tree_comments tree'
      = tree_comments tree ++ filter (kept_on_tree meta self) batch /\
    Ok (is_rooted tree')
      = _parse_tree_rooting_state self (or_empty (last_rooting_comment batch)) /\
    weight tree'
      = (if store_tree_weights self && negb (existsb is_weight_comment batch)
         then Some float_one else weight tree).
Proof.
  intros Hk Hsw. unfold _process_tree_comments_with.
  destruct (for_each_tree_comments try_body batch Hk Hsw (mkTCS tree false false))
    as (st' & E & Hseed & Hw & Hc & Hroot & Hrf & Hwf).
  rewrite E. unfold finish_tree_comments. simpl in *.
  rewrite Hrf, Hwf.
  destruct (existsb is_rooting_comment batch) eqn:Hex.
  - destruct (last_rooting_comment batch) as [c|] eqn:Hl.
    2:{ apply last_rooting_comment_none in Hl. congruence. }
    destruct (store_tree_weights self && negb (existsb is_weight_comment batch));
      eexists; (split; [reflexivity|]); simpl; repeat split; auto.
  - apply last_rooting_comment_none in Hex. rewrite Hex in *. simpl.
    destruct (rooting_state_known EmptyString Hk) as [v Hv]. rewrite Hv.
    destruct (store_tree_weights self && negb (existsb is_weight_comment batch));
      eexists; (split; [reflexivity|]); simpl; repeat split; auto.
Qed.
End TreeComments.

(** ** The state monad *)

Lemma bind_Return {S A B} (c : M S A) (k : A -> M S B) s r :
  bind c k s = Return r ->
  exists a s1, c s = Return (a, s1) /\ k a s1 = Return r.
Proof.
  unfold bind. destruct (c s) as [[a s1]|e|]; try discriminate. eauto.
Qed.

Lemma bind_step {S A B} (c : M S A) (k : A -> M S B) s a s1 :
  c s = Return (a, s1) -> bind c k s = k a s1.
Proof. unfold bind. intros ->. reflexivity. Qed.

Lemma bind_Throw {S A B} (c : M S A) (k : A -> M S B) s e :
  c s = Throw e -> bind c k s = Throw e.
Proof. unfold bind. intros ->. reflexivity. Qed.

Lemma scan_comments cs t q rest acc :
  scan (map Comment cs ++ Tok t q :: rest) acc
  = mkTokenizer rest (Some t) q (acc ++ cs).
Proof.
  revert acc. induction cs as [|c cs IH]; intros acc; simpl.
  - rewrite app_nil_r. reflexivity.
  - rewrite IH, <- app_assoc. reflexivity.
Qed.

Lemma bind_bind {S A B C} (c : M S A) (k1 : A -> M S B) (k2 : B -> M S C) s :
  bind (bind c k1) k2 s = bind c (fun a => bind (k1 a) k2) s.
Proof. unfold bind. destruct (c s) as [[a s1]|e|]; reflexivity. Qed.

Lemma bind_ret {S A B} (a : A) (k : A -> M S B) s : bind (ret a) k s = k a s.
Proof. reflexivity. Qed.

Lemma bind_raise {S A B} e (k : A -> M S B) s : bind (raise e) k s = Throw e.
Proof. reflexivity. Qed.

Lemma bind_lift_Ok {S A B} (a : A) (k : A -> M S B) s :
  bind (lift (Ok a)) k s = k a s.
Proof. reflexivity. Qed.

Lemma bind_lift_Raise {S A B} e (k : A -> M S B) s :
  bind (lift (Raise e)) k s = Throw e.
Proof. reflexivity. Qed.

Lemma bind_get {S B} (k : S -> M S B) s : bind get k s = k s s.
Proof. reflexivity. Qed.

Lemma bind_current {B} (k : NexusTokenizer -> M ParseState B) s :
  bind current k s = k (nexus_tokenizer s) s.
Proof. reflexivity. Qed.

Lemma bind_pull {B} (k : list string -> M ParseState B) s :
  bind do_pull_captured_comments k s
  = k (captured_comments (nexus_tokenizer s))
      (mkState (mkTokenizer (src (nexus_tokenizer s))
                            (current_token (nexus_tokenizer s))
                            (is_token_quoted (nexus_tokenizer s)) [])
               (taxon_namespace s) (tree_statement_complete s)).
Proof. reflexivity. Qed.

Lemma bind_clear {B} (k : unit -> M ParseState B) s :
  bind do_clear_captured_comments k s
  = k tt (mkState (mkTokenizer (src (nexus_tokenizer s))
                               (current_token (nexus_tokenizer s))
                               (is_token_quoted (nexus_tokenizer s)) [])
                  (taxon_namespace s) (tree_statement_complete s)).
Proof. reflexivity. Qed.

Lemma bind_next {B} (k : option string -> M ParseState B) s :
  bind do_next_token k s
  = k (current_token (next_token (nexus_tokenizer s)))
      (mkState (next_token (nexus_tokenizer s)) (taxon_namespace s)
               (tree_statement_complete s)).
Proof. reflexivity. Qed.

Lemma bind_require {B} (k : option string -> M ParseState B) s :
  bind do_require_next_token k s
  = match require_next_token (nexus_tokenizer s) with
    | Ok tk => k (current_token tk)
                 (mkState tk (taxon_namespace s) (tree_statement_complete s))
    | Raise e => Throw e
    end.
Proof.
  unfold bind, do_require_next_token.
  destruct (require_next_token (nexus_tokenizer s)); reflexivity.
Qed.

Lemma bind_set_complete {B} b (k : unit -> M ParseState B) s :
  bind (set_tree_statement_complete b) k s
  = k tt (mkState (nexus_tokenizer s) (taxon_namespace s) (Some b)).
Proof. reflexivity. Qed.

Lemma bind_map_func {B} f symbol (k : Taxon -> M ParseState B) s :
  bind (call_taxon_symbol_map_func f symbol) k s
  = match f (taxon_namespace s) symbol with
    | Ok (t, ns) => k t (mkState (nexus_tokenizer s) ns (tree_statement_complete s))
    | Raise e => Throw e
    end.
Proof.
  unfold bind, call_taxon_symbol_map_func.
  destruct (f (taxon_namespace s) symbol) as [[t ns]|e]; reflexivity.
Qed.

Create Rewrite HintDb py.
Lemma require_next_token_Tok t q rest cur qq cap :
  require_next_token (mkTokenizer (Tok t q :: rest) cur qq cap)
  = Ok (mkTokenizer rest (Some t) q cap).
Proof. reflexivity. Qed.

Lemma require_next_token_nil cur qq cap :
  require_next_token (mkTokenizer [] cur qq cap)
  = Raise UnexpectedEndOfStreamError.
Proof. reflexivity. Qed.

Lemma next_token_Tok t q rest cur qq cap :
  next_token (mkTokenizer (Tok t q :: rest) cur qq cap)
  = mkTokenizer rest (Some t) q cap.
Proof. reflexivity. Qed.

Lemma next_token_nil cur qq cap :
  next_token (mkTokenizer [] cur qq cap) = mkTokenizer [] None false cap.
Proof. reflexivity. Qed.



Lemma token_is_Some src t q c x :
  token_is (mkTokenizer src (Some t) q c) x = String.eqb t x.
Proof. reflexivity. Qed.

Lemma token_is_None src q c x : token_is (mkTokenizer src None q c) x = false.
Proof. reflexivity. Qed.

Lemma token_is_same src tk q c x :
  token_is (mkTokenizer src (current_token tk) q c) x = token_is tk x.
Proof. reflexivity. Qed.

#[global] Hint Rewrite @bind_bind @bind_ret @bind_raise @bind_lift_Ok
  @bind_lift_Raise @bind_get @bind_current @bind_pull @bind_clear @bind_next
  @bind_require @bind_set_complete @bind_map_func
  token_is_Some token_is_None token_is_same
  require_next_token_Tok require_next_token_nil next_token_Tok next_token_nil
  : py.

(** Symbolic execution of the monadic code on an explicit state. *)
Ltac exec :=
  repeat (autorewrite with py;
          cbn [nexus_tokenizer taxon_namespace tree_statement_complete
               src current_token is_token_quoted captured_comments
               str_is is_None
               is_true is_eof negb andb orb app fst snd
               String.eqb Ascii.eqb Bool.eqb]).

Lemma require_next_token_comments cs t q rest cur qq cap :
  require_next_token (mkTokenizer (map Comment cs ++ Tok t q :: rest) cur qq cap)
  = Ok (mkTokenizer rest (Some t) q (cap ++ cs)).
Proof.
  unfold require_next_token, next_token. simpl. rewrite scan_comments. reflexivity.
Qed.

(** *** One unfolding of each loop *)

Section Unfold.
Context {Num : Type}.
Variable meta : string -> list Annotation.
Variable self : NewickReader Num.

Lemma blank_nodes_loop_S fuel current_node :
  blank_nodes_loop meta self (S fuel) current_node
  = (tk <- current ;;
     if token_is tk "," then
       current_node <- add_blank_child meta self current_node ;;
       do_require_next_token ;;
       blank_nodes_loop meta self fuel current_node
     else ret current_node).
Proof. reflexivity. Qed.

Lemma label_loop_S fuel mapper is_internal_node current_node comments
  label_parsed :
  label_loop meta self (S fuel) mapper is_internal_node current_node comments
             label_parsed
  = (pulled <- do_pull_captured_comments ;;
     tk <- current ;;
     if token_is tk ":" then
       do_require_next_token ;;
       current_node <-
         (if negb (suppress_edge_lengths self)
          then read_edge_length self current_node
          else ret current_node) ;;
       do_require_next_token ;;
       label_loop meta self fuel mapper is_internal_node current_node
                  (comments ++ pulled) label_parsed
     else if token_is tk ")" then
       ret (_finish_node self
              (_process_node_comments meta self current_node
                                      (comments ++ pulled)))
     else if token_is tk ";" then
       set_tree_statement_complete true ;;
       do_next_token ;;
       ret (_finish_node self
              (_process_node_comments meta self current_node
                                      (comments ++ pulled)))
     else if token_is tk "," then
       ret (_finish_node self
              (_process_node_comments meta self current_node
                                      (comments ++ pulled)))
     else if token_is tk "(" then
       raise NewickReaderMalformedStatementError
     else if label_parsed then
       raise NewickReaderMalformedStatementError
     else
       label <- lift (label_of_token self tk) ;;
       current_node <- store_label self mapper is_internal_node
                                   current_node label ;;
       do_require_next_token ;;
       label_loop meta self fuel mapper is_internal_node current_node
                  (comments ++ pulled) true).
Proof. reflexivity. Qed.

Lemma children_loop_S descend fuel current_node node_created :
  children_loop meta self descend (S fuel) current_node node_created
  = (tk <- current ;;
     if token_is tk "," then
       current_node <-
         (if negb node_created then add_blank_child meta self current_node
          else ret current_node) ;;
       do_require_next_token ;;
       current_node <- blank_nodes_loop meta self fuel current_node ;;
       tk <- current ;;
       if negb node_created && token_is tk ")" then
         current_node <- add_blank_child meta self current_node ;;
         children_loop meta self descend fuel current_node true
       else children_loop meta self descend fuel current_node node_created
     else if token_is tk ")" then
       do_require_next_token ;;
       ret current_node
     else
       node_comments <- do_pull_captured_comments ;;
       new_node <- descend (_process_node_comments meta self node_factory
                                                   node_comments)
                           (Some (token_is tk "(")) ;;
       children_loop meta self descend fuel
                     (add_child current_node new_node) true).
Proof. reflexivity. Qed.

Lemma parse_tree_node_description_S fuel mapper current_node
  is_internal_node :
  _parse_tree_node_description meta self (S fuel) mapper current_node
                               is_internal_node
  = (comments <- do_pull_captured_comments ;;
     tk <- current ;;
     current_node <-
       (if token_is tk "(" then
          do_require_next_token ;;
          children_loop meta self
            (_parse_tree_node_description meta self fuel mapper)
            fuel current_node false
        else ret current_node) ;;
     set_tree_statement_complete false ;;
     label_loop meta self fuel mapper
       match is_internal_node with
       | None => if has_children current_node then Some true else None
       | Some b => Some b
       end
       current_node comments false).
Proof. reflexivity. Qed.
End Unfold.

Section Statement.
Context {Num : Type}.
Variable float_one : Num.
Variable meta : string -> list Annotation.
Variable ev : string -> result Num.
Variable self : NewickReader Num.

(** A statement that yields a tree got it from [begin_tree_statement],
    with the seed node replaced by the node the recursion returned and
    the completion flag set. *)
Lemma parse_tree_statement_Some fuel tf mapper s tree s' :
  _parse_tree_statement_fuel float_one meta ev self fuel tf mapper s
    = Return (Some tree, s') ->
  exists tree0 s0 seed s1,
    begin_tree_statement float_one meta ev self fuel tf s
      = Return (Some tree0, s0) /\
    _parse_tree_node_description meta self fuel mapper (seed_node tree0) None s0
      = Return (seed, s1) /\
    tree = set_seed_node tree0 seed /\
    tree_statement_complete s1 = Some true.
Proof.
  unfold _parse_tree_statement_fuel. intros H.
  apply bind_Return in H. destruct H as (started & s0 & Hb & H).
  destruct started as [tree0|].
  2:{ unfold ret in H. discriminate. }
  apply bind_Return in H. destruct H as (seed & s1 & Hn & H).
  exists tree0, s0, seed, s1. split; [exact Hb|]. split; [exact Hn|].
  unfold end_tree_statement, bind, current, get in H.
  destruct (tree_statement_complete s1) as [[|]|] eqn:Hc; simpl in H;
    try discriminate.
  split; [|reflexivity].
  destruct (skip_semicolons _ _ _) as [[[] s2]|e|]; try discriminate.
  unfold ret in H. congruence.
Qed.

(** [begin_tree_statement] on a fresh stream that opens with a batch of
    comments and a parenthesis. *)
Lemma begin_tree_statement_fresh fuel tf cs q rest ns :
  begin_tree_statement float_one meta ev self (S (S fuel)) tf
    (fresh_state (map Comment cs ++ Tok "(" q :: rest) ns)
  = match rest with
    | [] => Return (None, mkState (mkTokenizer [] (Some "(") q []) ns None)
    | _ :: _ =>
        match _process_tree_comments float_one meta ev self tf cs with
        | Ok tree =>
            Return (Some tree,
                    mkState (mkTokenizer rest (Some "(") q []) ns (Some false))
        | Raise e => Throw e
        end
    end.
Proof.
  unfold begin_tree_statement, fresh_state, NexusTokenizer_init.
  cbn [skip_to_statement]. exec.
  replace (is_eof {| src := map Comment cs ++ Tok "(" q :: rest;
                     current_token := None; is_token_quoted := false;
                     captured_comments := [] |}) with false
    by (destruct cs; reflexivity).
  exec. rewrite require_next_token_comments. exec.
  destruct rest as [|i rest']; exec; [reflexivity|].
  destruct (_process_tree_comments float_one meta ev self tf cs); exec; reflexivity.
Qed.

Lemma begin_tree_statement_fresh_short fuel tf cs q rest ns :
  fuel < 2 ->
  begin_tree_statement float_one meta ev self fuel tf
    (fresh_state (map Comment cs ++ Tok "(" q :: rest) ns) = NoFuel.
Proof.
  intros Hf. unfold begin_tree_statement, fresh_state, NexusTokenizer_init.
  destruct fuel as [|[|fuel]]; [| |lia]; cbn [skip_to_statement]; exec.
  - reflexivity.
  - replace (is_eof {| src := map Comment cs ++ Tok "(" q :: rest;
                       current_token := None; is_token_quoted := false;
                       captured_comments := [] |}) with false
      by (destruct cs; reflexivity).
    exec. rewrite require_next_token_comments. exec. reflexivity.
Qed.

End Statement.

(* ================================================================== *)
(** ** Suppressed edge lengths *)


(** So are a statement and a whole iteration. *)
Lemma suppressed_cast_is_unused {Num} (float_one : Num) meta ev
  (self : NewickReader Num) (cast : option string -> result Num) :
  suppress_edge_lengths self = true ->
  (forall tree_factory mapper,
      _parse_tree_statement float_one meta ev (with_edge_len_type self cast)
        tree_factory mapper
      = _parse_tree_statement float_one meta ev self tree_factory mapper) /\
  (forall n tree_factory mapper g,
      collect float_one meta ev (with_edge_len_type self cast) n tree_factory
        mapper g
      = collect float_one meta ev self n tree_factory mapper g).
Proof.
  destruct self as [a1 a2 a3 a4 a5 a6 a7 a8 a9 a10 a11 a12].
  cbn [suppress_edge_lengths]. intros ->.
  split; intros; reflexivity.
Qed.

(** One turn of the label phase at a ':' with edge lengths suppressed: the
    ':' and the token after it are passed, the node is left as it is. *)
Lemma label_loop_suppressed_length {Num} meta (self : NewickReader Num)
  fuel mapper flag node cs lp s :
  token_is (nexus_tokenizer s) ":" = true ->
  suppress_edge_lengths self = true ->
  label_loop meta self (S fuel) mapper flag node cs lp s
  = (pulled <- do_pull_captured_comments ;;
     do_require_next_token ;;
     do_require_next_token ;;
     label_loop meta self fuel mapper flag node (cs ++ pulled) lp) s.
Proof.
  intros Hcolon Hs. rewrite label_loop_S. exec. rewrite Hcolon, Hs.
  cbn [negb]. exec. reflexivity.
Qed.

(* ================================================================== *)
(** ** The collaborators of the examples *)

Lemma require_taxon_for_symbol_total : total_mapper require_taxon_for_symbol.
Proof.
  intros ns l. unfold require_taxon_for_symbol.
  destruct (find _ ns) as [t|]; eauto.
Qed.

Lemma require_taxon_for_symbol_raises ns l e :
  require_taxon_for_symbol ns l = Raise e -> e = TypeError.
Proof.
  unfold require_taxon_for_symbol. destruct l as [l|]; [|congruence].
  destruct (find _ ns); discriminate.
Qed.

Lemma python_float_raises t e :
  python_float t = Raise e -> e = TypeError \/ e = ValueError.
Proof.
  unfold python_float. destruct t as [t|]; [|intros H; left; congruence].
  destruct (float_literal (strip t)); [discriminate|].
  intros H. right. congruence.
Qed.

(* ================================================================== *)
(** ** Termination of the reader *)

Lemma advancing_steady {A} (c : M ParseState A) s : advancing c s -> steady c s.
Proof.
  intros [Hn Hr]. split; [exact Hn|]. intros a s' E. specialize (Hr a s' E). lia.
Qed.

Lemma steady_bind {A B} (c : M ParseState A) (k : A -> M ParseState B) s :
  steady c s ->
  (forall a s', c s = Return (a, s') -> remaining s' <= remaining s ->
                steady (k a) s') ->
  steady (bind c k) s.
Proof.
  intros [Hn Hr] Hk. unfold steady, bind.
  destruct (c s) as [[a s1]|e|] eqn:E; [|split; [discriminate|discriminate]|congruence].
  specialize (Hr a s1 eq_refl). destruct (Hk a s1 eq_refl Hr) as [Hn' Hr'].
  split; [exact Hn'|]. intros b s' E'. specialize (Hr' b s' E'). lia.
Qed.

Lemma advancing_bind_l {A B} (c : M ParseState A) (k : A -> M ParseState B) s :
  advancing c s ->
  (forall a s', c s = Return (a, s') -> remaining s' < remaining s ->
                steady (k a) s') ->
  advancing (bind c k) s.
Proof.
  intros [Hn Hr] Hk. unfold advancing, bind.
  destruct (c s) as [[a s1]|e|] eqn:E; [|split; [discriminate|discriminate]|congruence].
  specialize (Hr a s1 eq_refl). destruct (Hk a s1 eq_refl Hr) as [Hn' Hr'].
  split; [exact Hn'|]. intros b s' E'. specialize (Hr' b s' E'). lia.
Qed.

Lemma advancing_bind_r {A B} (c : M ParseState A) (k : A -> M ParseState B) s :
  steady c s ->
  (forall a s', c s = Return (a, s') -> remaining s' <= remaining s ->
                advancing (k a) s') ->
  advancing (bind c k) s.
Proof.
  intros [Hn Hr] Hk. unfold advancing, bind.
  destruct (c s) as [[a s1]|e|] eqn:E; [|split; [discriminate|discriminate]|congruence].
  specialize (Hr a s1 eq_refl). destruct (Hk a s1 eq_refl Hr) as [Hn' Hr'].
  split; [exact Hn'|]. intros b s' E'. specialize (Hr' b s' E'). lia.
Qed.

Lemma steady_ret {A} (a : A) s : steady (ret a) s.
Proof.
  split; [discriminate|]. unfold ret. intros b s' E. injection E as _ <-. lia.
Qed.

Lemma steady_raise {A} e s : steady (@raise ParseState A e) s.
Proof. split; discriminate. Qed.

Lemma advancing_raise {A} e s : advancing (@raise ParseState A e) s.
Proof. split; discriminate. Qed.

Lemma steady_lift {A} (r : result A) s : steady (lift r) s.
Proof.
  unfold steady, lift. destruct r; split; try discriminate.
  intros b s' E. injection E as _ <-. lia.
Qed.

Lemma steady_current s : steady current s.
Proof.
  split; [discriminate|]. unfold current. intros b s' E. injection E as _ <-. lia.
Qed.

Lemma steady_get s : steady get s.
Proof.
  split; [discriminate|]. unfold get. intros b s' E. injection E as _ <-. lia.
Qed.

Lemma steady_pull s : steady do_pull_captured_comments s.
Proof.
  split; [discriminate|]. unfold do_pull_captured_comments. cbn.
  intros b s' E. injection E as _ <-. unfold remaining. cbn. lia.
Qed.

Lemma steady_clear s : steady do_clear_captured_comments s.
Proof.
  split; [discriminate|]. unfold do_clear_captured_comments. cbn.
  intros b s' E. injection E as _ <-. unfold remaining. cbn. lia.
Qed.

Lemma steady_set_complete b s : steady (set_tree_statement_complete b) s.
Proof.
  split; [discriminate|]. unfold set_tree_statement_complete.
  intros u s' E. injection E as _ <-. unfold remaining. cbn. lia.
Qed.

Lemma steady_map_func f symbol s :
  steady (call_taxon_symbol_map_func f symbol) s.
Proof.
  unfold steady, call_taxon_symbol_map_func.
  destruct (f (taxon_namespace s) symbol) as [[t ns]|e]; split;
    try discriminate.
  intros b s' E. injection E as _ <-. unfold remaining. cbn. lia.
Qed.

(** Scanning on reads at least one item when it finds a token, and all of
    them when it finds none. *)
Lemma scan_length items cap :
  match current_token (scan items cap) with
  | Some _ => List.length (src (scan items cap)) < List.length items
  | None => src (scan items cap) = []
  end.
Proof.
  revert cap. induction items as [|[t q|c] rest IH]; intros cap; simpl.
  - reflexivity.
  - lia.
  - specialize (IH (cap ++ [c])). destruct (current_token (scan rest _)); [lia|exact IH].
Qed.

Lemma advancing_require_next s : advancing do_require_next_token s.
Proof.
  unfold advancing, do_require_next_token, require_next_token, next_token.
  pose proof (scan_length (src (nexus_tokenizer s))
                (captured_comments (nexus_tokenizer s))) as H.
  destruct (current_token (scan _ _)) as [t|] eqn:E; split; try discriminate.
  intros b s' E'. injection E' as _ <-. unfold remaining. cbn. rewrite E. cbn.
  lia.
Qed.

Lemma steady_next s : steady do_next_token s.
Proof.
  unfold steady, do_next_token, next_token. split; [discriminate|].
  pose proof (scan_length (src (nexus_tokenizer s))
                (captured_comments (nexus_tokenizer s))) as H.
  intros b s' E'. injection E' as _ <-. unfold remaining. cbn.
  destruct (current_token (scan _ _)) as [t|] eqn:E; cbn.
  - lia.
  - rewrite H. cbn. lia.
Qed.

Lemma advancing_next s :
  0 < remaining s -> advancing do_next_token s.
Proof.
  unfold advancing, do_next_token, next_token. intros Hpos.
  split; [discriminate|].
  pose proof (scan_length (src (nexus_tokenizer s))
                (captured_comments (nexus_tokenizer s))) as H.
  intros b s' E'. injection E' as _ <-. unfold remaining in *. cbn.
  destruct (current_token (scan _ _)) as [t|] eqn:E; cbn.
  - lia.
  - rewrite H. cbn. lia.
Qed.

Lemma token_is_remaining s x :
  token_is (nexus_tokenizer s) x = true -> 0 < remaining s.
Proof.
  unfold token_is, remaining.
  destruct (current_token (nexus_tokenizer s)); [cbn; lia|discriminate].
Qed.

Lemma current_inv s tk s' :
  current s = Return (tk, s') -> tk = nexus_tokenizer s /\ s' = s.
Proof. unfold current. intros E. injection E as <- <-. auto. Qed.

Lemma pull_inv s cs s' :
  do_pull_captured_comments s = Return (cs, s') ->
  nexus_tokenizer s'
  = mkTokenizer (src (nexus_tokenizer s)) (current_token (nexus_tokenizer s))
                (is_token_quoted (nexus_tokenizer s)) [] /\
  remaining s' = remaining s.
Proof.
  unfold do_pull_captured_comments. cbn. intros E. injection E as _ <-.
  split; reflexivity.
Qed.

Section Termination.
Context {Num : Type}.
Variable meta : string -> list Annotation.
Variable self : NewickReader Num.

Lemma steady_add_blank_child node s : steady (add_blank_child meta self node) s.
Proof.
  unfold add_blank_child. apply steady_bind; [apply steady_pull|].
  intros. apply steady_ret.
Qed.

Lemma steady_read_edge_length node s : steady (read_edge_length self node) s.
Proof.
  unfold read_edge_length. apply steady_bind; [apply steady_current|].
  intros tk s' _ _. destruct (edge_len_type self _) as [v|e];
    [apply steady_ret|]. destruct e; apply steady_raise.
Qed.

Lemma steady_store_label mapper flag node l s :
  steady (store_label self mapper flag node l) s.
Proof.
  unfold store_label. destruct (_ || _); [apply steady_ret|].
  apply steady_bind; [apply steady_map_func|]. intros. apply steady_ret.
Qed.

Lemma blank_nodes_loop_steady fuel :
  forall node s,
    remaining s < fuel -> steady (blank_nodes_loop meta self fuel node) s.
Proof.
  induction fuel as [|fuel IH]; intros node s Hf; [lia|].
  rewrite blank_nodes_loop_S.
  apply steady_bind; [apply steady_current|]. intros tk s1 E _.
  apply current_inv in E. destruct E as [-> ->].
  destruct (token_is (nexus_tokenizer s) ","); [|apply steady_ret].
  apply steady_bind; [apply steady_add_blank_child|]. intros n1 s2 _ H2.
  apply advancing_steady, advancing_bind_l; [apply advancing_require_next|].
  intros t s3 _ H3. apply IH. lia.
Qed.

Lemma label_loop_steady fuel :
  forall mapper flag node cs lp s,
    remaining s < fuel ->
    steady (label_loop meta self fuel mapper flag node cs lp) s.
Proof.
  induction fuel as [|fuel IH]; intros mapper flag node cs lp s Hf; [lia|].
  rewrite label_loop_S.
  apply steady_bind; [apply steady_pull|]. intros pulled s1 _ H1.
  apply steady_bind; [apply steady_current|]. intros tk s1' E _.
  apply current_inv in E. destruct E as [-> ->].
  destruct (token_is (nexus_tokenizer s1) ":").
  { apply advancing_steady, advancing_bind_l; [apply advancing_require_next|].
    intros t s2 _ H2.
    apply steady_bind.
    { destruct (negb _); [apply steady_read_edge_length|apply steady_ret]. }
    intros n3 s3 _ H3.
    apply advancing_steady, advancing_bind_l; [apply advancing_require_next|].
    intros t4 s4 _ H4. apply IH. lia. }
  destruct (token_is (nexus_tokenizer s1) ")"); [apply steady_ret|].
  destruct (token_is (nexus_tokenizer s1) ";").
  { apply steady_bind; [apply steady_set_complete|]. intros u s2 _ H2.
    apply steady_bind; [apply steady_next|]. intros. apply steady_ret. }
  destruct (token_is (nexus_tokenizer s1) ","); [apply steady_ret|].
  destruct (token_is (nexus_tokenizer s1) "("); [apply steady_raise|].
  destruct lp; [apply steady_raise|].
  apply steady_bind; [apply steady_lift|]. intros l s2 _ H2.
  apply steady_bind; [apply steady_store_label|]. intros n3 s3 _ H3.
  apply advancing_steady, advancing_bind_l; [apply advancing_require_next|].
  intros t4 s4 _ H4. apply IH. lia.
Qed.

Lemma label_loop_advancing fuel mapper flag node cs lp s :
  remaining s < fuel -> at_node_end s = false ->
  advancing (label_loop meta self fuel mapper flag node cs lp) s.
Proof.
  destruct fuel as [|fuel]; intros Hf Hend; [lia|].
  rewrite label_loop_S.
  apply advancing_bind_r; [apply steady_pull|]. intros pulled s1 E1 H1.
  apply pull_inv in E1. destruct E1 as [Etk Erem].
  apply advancing_bind_r; [apply steady_current|]. intros tk s1' E _.
  apply current_inv in E. destruct E as [Htk Hs]. subst tk s1'.
  unfold at_node_end in Hend. apply orb_false_iff in Hend.
  destruct Hend as [Hcomma Hclose].
  assert (Ht : forall x, token_is (nexus_tokenizer s1) x
                         = token_is (nexus_tokenizer s) x).
  { intros x. rewrite Etk. reflexivity. }
  rewrite !Ht, Hcomma, Hclose.
  destruct (token_is (nexus_tokenizer s) ":").
  { apply advancing_bind_l; [apply advancing_require_next|].
    intros t s2 _ H2.
    apply steady_bind.
    { destruct (negb _); [apply steady_read_edge_length|apply steady_ret]. }
    intros n3 s3 _ H3.
    apply advancing_steady, advancing_bind_l; [apply advancing_require_next|].
    intros t4 s4 _ H4. apply label_loop_steady. lia. }
  destruct (token_is (nexus_tokenizer s) ";") eqn:Hsemi.
  { apply advancing_bind_r; [apply steady_set_complete|]. intros u s2 E2 H2.
    apply advancing_bind_l.
    - apply advancing_next. unfold set_tree_statement_complete in E2.
      injection E2 as _ <-. change (0 < remaining s1). rewrite Erem.
      exact (token_is_remaining _ _ Hsemi).
    - intros. apply steady_ret. }
  destruct (token_is (nexus_tokenizer s) "("); [apply advancing_raise|].
  destruct lp; [apply advancing_raise|].
  apply advancing_bind_r; [apply steady_lift|]. intros l s2 _ H2.
  apply advancing_bind_r; [apply steady_store_label|]. intros n3 s3 _ H3.
  apply advancing_bind_l; [apply advancing_require_next|].
  intros t4 s4 _ H4. apply label_loop_steady. lia.
Qed.

Lemma children_loop_steady bound descend :
  descend_total bound descend ->
  forall fuel node created s,
    remaining s <= bound -> remaining s < fuel ->
    steady (children_loop meta self descend fuel node created) s.
Proof.
  intros Hd. induction fuel as [|fuel IH]; intros node created s Hb Hf; [lia|].
  rewrite children_loop_S.
  apply steady_bind; [apply steady_current|]. intros tk s0 E _.
  apply current_inv in E. destruct E as [-> ->].
  destruct (token_is (nexus_tokenizer s) ",") eqn:Hcomma.
  { apply steady_bind.
    { destruct (negb created); [apply steady_add_blank_child|apply steady_ret]. }
    intros n1 s1 _ H1.
    apply advancing_steady, advancing_bind_l; [apply advancing_require_next|].
    intros t s2 _ H2.
    apply steady_bind; [apply blank_nodes_loop_steady; lia|].
    intros n3 s3 _ H3.
    apply steady_bind; [apply steady_current|]. intros tk4 s4 E4 _.
    apply current_inv in E4. destruct E4 as [Htk Hs]. subst tk4 s4.
    destruct (negb created && token_is (nexus_tokenizer s3) ")").
    - apply steady_bind; [apply steady_add_blank_child|]. intros n5 s5 _ H5.
      apply IH; lia.
    - apply IH; lia. }
  destruct (token_is (nexus_tokenizer s) ")") eqn:Hclose.
  { apply steady_bind; [apply advancing_steady, advancing_require_next|].
    intros. apply steady_ret. }
  apply advancing_steady, advancing_bind_r; [apply steady_pull|].
  intros cs s1 E1 H1. apply pull_inv in E1. destruct E1 as [Etk Erem].
  apply advancing_bind_l.
  - apply Hd; [lia|]. unfold at_node_end. rewrite Etk.
    change (token_is (nexus_tokenizer s) "," || token_is (nexus_tokenizer s) ")"
            = false).
    rewrite Hcomma, Hclose. reflexivity.
  - intros n2 s2 _ H2. apply IH; lia.
Qed.

Lemma parse_tree_node_description_total fuel :
  forall mapper node flag s,
    remaining s + 2 <= fuel ->
    steady (_parse_tree_node_description meta self fuel mapper node flag) s /\
    (at_node_end s = false ->
     advancing (_parse_tree_node_description meta self fuel mapper node flag) s).
Proof.
  induction fuel as [|fuel IH]; intros mapper node flag s Hf; [lia|].
  assert (Hd : forall bound, bound + 2 <= fuel ->
                 descend_total bound
                   (_parse_tree_node_description meta self fuel mapper)).
  { intros bound Hb node0 flag0 s0 H0. apply IH. lia. }
  assert (Hchildren : forall n s1,
             remaining s1 <= remaining s ->
             advancing
               (do_require_next_token;;
                children_loop meta self
                  (_parse_tree_node_description meta self fuel mapper)
                  fuel n false) s1).
  { intros n s1 H1. apply advancing_bind_l; [apply advancing_require_next|].
    intros t s2 _ H2.
    apply (children_loop_steady (remaining s2)); [apply Hd; lia|lia|lia]. }
  rewrite parse_tree_node_description_S. split.
  - apply steady_bind; [apply steady_pull|]. intros cs s1 _ H1.
    apply steady_bind; [apply steady_current|]. intros tk s1' E _.
    apply current_inv in E. destruct E as [Htk Hs]. subst tk s1'.
    apply steady_bind.
    { destruct (token_is (nexus_tokenizer s1) "(");
        [apply advancing_steady, Hchildren; lia|apply steady_ret]. }
    intros n3 s3 _ H3.
    apply steady_bind; [apply steady_set_complete|]. intros u s4 _ H4.
    apply label_loop_steady. lia.
  - intros Hend.
    apply advancing_bind_r; [apply steady_pull|]. intros cs s1 E1 H1.
    apply pull_inv in E1. destruct E1 as [Etk Erem].
    apply advancing_bind_r; [apply steady_current|]. intros tk s1' E _.
    apply current_inv in E. destruct E as [Htk Hs]. subst tk s1'.
    destruct (token_is (nexus_tokenizer s1) "(").
    + apply advancing_bind_l; [apply Hchildren; lia|].
      intros n3 s3 _ H3.
      apply steady_bind; [apply steady_set_complete|]. intros u s4 _ H4.
      apply label_loop_steady. lia.
    + apply advancing_bind_r; [apply steady_ret|]. intros n3 s3 E3 H3.
      unfold ret in E3. injection E3 as _ <-.
      apply advancing_bind_r; [apply steady_set_complete|]. intros u s4 E4 H4.
      unfold set_tree_statement_complete in E4. injection E4 as _ <-.
      apply label_loop_advancing.
      * change (remaining s1 < fuel). lia.
      * unfold at_node_end in *. cbn [nexus_tokenizer]. rewrite Etk.
        exact Hend.
Qed.
End Termination.

Section StatementTermination.
Context {Num : Type}.
Variable float_one : Num.
Variable meta : string -> list Annotation.
Variable ev : string -> result Num.
Variable self : NewickReader Num.

Lemma skip_to_statement_steady fuel :
  forall token cs s,
    remaining s < fuel -> steady (skip_to_statement fuel token cs) s.
Proof.
  induction fuel as [|fuel IH]; intros token cs s Hf; [lia|].
  cbn [skip_to_statement].
  apply steady_bind; [apply steady_current|]. intros tk s0 E _.
  apply current_inv in E. destruct E as [Htk Hs]. subst tk s0.
  destruct (_ && _); [|apply steady_ret].
  apply advancing_steady, advancing_bind_l; [apply advancing_require_next|].
  intros t s1 _ H1.
  apply steady_bind; [apply steady_pull|]. intros cs1 s2 _ H2.
  apply IH. lia.
Qed.

(** The local variable [current_token] of the first loop stays the
    tokenizer's current token. *)
Lemma skip_to_statement_token fuel :
  forall token cs s token' cs' s',
    token = current_token (nexus_tokenizer s) ->
    skip_to_statement fuel token cs s = Return ((token', cs'), s') ->
    token' = current_token (nexus_tokenizer s').
Proof.
  induction fuel as [|fuel IH]; intros token cs s token' cs' s' Ht;
    [discriminate|].
  cbn [skip_to_statement]. exec.
  destruct (_ && _).
  - exec. destruct (require_next_token _) as [tk1|e]; [|discriminate]. exec.
    apply IH. reflexivity.
  - unfold ret. intros E. injection E as <- _ <-. exact Ht.
Qed.

Lemma skip_semicolons_steady fuel :
  forall token s, remaining s < fuel -> steady (skip_semicolons fuel token) s.
Proof.
  induction fuel as [|fuel IH]; intros token s Hf; [lia|].
  cbn [skip_semicolons].
  apply steady_bind; [apply steady_current|]. intros tk s0 E _.
  apply current_inv in E. destruct E as [Htk Hs]. subst tk s0.
  destruct (str_is token ";" && negb (is_eof (nexus_tokenizer s))) eqn:Hc;
    [|apply steady_ret].
  apply andb_true_iff in Hc. destruct Hc as [_ Heof].
  apply steady_bind; [apply steady_clear|]. intros u s1 E1 H1.
  apply advancing_steady, advancing_bind_l.
  - apply advancing_next. unfold do_clear_captured_comments in E1.
    injection E1 as _ <-. unfold remaining. cbn.
    unfold is_eof in Heof. destruct (src (nexus_tokenizer s)); [discriminate|].
    cbn. lia.
  - intros t s2 _ H2. apply IH. lia.
Qed.

Lemma begin_tree_statement_steady fuel tree_factory s :
  remaining s < fuel ->
  steady (begin_tree_statement float_one meta ev self fuel tree_factory) s.
Proof.
  intros Hf. unfold begin_tree_statement.
  apply steady_bind; [apply steady_current|]. intros tk s0 E _.
  apply current_inv in E. destruct E as [Htk Hs]. subst tk s0.
  apply steady_bind; [apply steady_pull|]. intros cs s1 _ H1.
  apply steady_bind; [apply skip_to_statement_steady; lia|].
  intros [token cs'] s2 _ H2.
  apply steady_bind; [apply steady_current|]. intros tk s3 E _.
  apply current_inv in E. destruct E as [Htk Hs]. subst tk s3.
  destruct (is_eof _); [apply steady_ret|].
  destruct (negb _); [apply steady_raise|].
  apply steady_bind; [apply steady_lift|]. intros tree s4 _ H4.
  apply steady_bind; [apply steady_set_complete|]. intros. apply steady_ret.
Qed.

(** When [begin_tree_statement] hands out a tree, the current token is the
    opening parenthesis. *)
Lemma begin_tree_statement_at_open fuel tree_factory s tree s' :
  begin_tree_statement float_one meta ev self fuel tree_factory s
    = Return (Some tree, s') ->
  token_is (nexus_tokenizer s') "(" = true.
Proof.
  unfold begin_tree_statement. intros H.
  apply bind_Return in H. destruct H as (tk & s0 & E0 & H).
  apply current_inv in E0. destruct E0 as [Htk Hs]. subst tk s0.
  apply bind_Return in H. destruct H as (cs & s1 & E1 & H).
  apply pull_inv in E1. destruct E1 as [Etk _].
  apply bind_Return in H. destruct H as ([token cs'] & s2 & E2 & H).
  apply skip_to_statement_token in E2; [|rewrite Etk; reflexivity].
  apply bind_Return in H. destruct H as (tk & s3 & E3 & H).
  apply current_inv in E3. destruct E3 as [Htk Hs]. subst tk s3.
  destruct (is_eof _); [discriminate|].
  destruct (str_is token "(") eqn:Hopen; [|discriminate]. cbn [negb] in H.
  apply bind_Return in H. destruct H as (tree1 & s4 & E4 & H).
  apply bind_Return in H. destruct H as (u & s5 & E5 & H).
  unfold ret in H. injection H as _ <-.
  unfold set_tree_statement_complete in E5. injection E5 as _ <-.
  unfold lift in E4. destruct (_process_tree_comments _ _ _ _ _ _);
    [|discriminate]. injection E4 as _ <-.
  cbn [nexus_tokenizer]. unfold token_is. rewrite <- E2. exact Hopen.
Qed.

Lemma end_tree_statement_steady fuel (tree : Tree Num) s :
  remaining s < fuel -> steady (end_tree_statement fuel tree) s.
Proof.
  intros Hf. unfold end_tree_statement.
  apply steady_bind; [apply steady_current|]. intros tk s0 E _.
  apply current_inv in E. destruct E as [Htk Hs]. subst tk s0.
  apply steady_bind; [apply steady_get|]. intros s1 s2 E _.
  unfold get in E. injection E as <- <-.
  destruct (negb _); [apply steady_raise|].
  apply steady_bind; [apply skip_semicolons_steady; lia|].
  intros. apply steady_ret.
Qed.

(** The statement parser never uses up a budget of two more than what is
    left to read; and a statement that yields a tree has read something. *)
Lemma parse_tree_statement_fuel_total fuel tree_factory mapper s :
  remaining s + 2 <= fuel ->
  _parse_tree_statement_fuel float_one meta ev self fuel tree_factory mapper s
    <> NoFuel /\
  forall tree s',
    _parse_tree_statement_fuel float_one meta ev self fuel tree_factory
      mapper s = Return (tree, s') ->
    remaining s' <= remaining s /\
    (tree <> None -> remaining s' < remaining s).
Proof.
  intros Hf. unfold _parse_tree_statement_fuel.
  destruct (begin_tree_statement_steady fuel tree_factory s ltac:(lia))
    as [Hn Hr].
  destruct (begin_tree_statement _ _ _ _ _ _ s) as [[started s0]|e|] eqn:Eb;
    [|rewrite !(bind_Throw _ _ _ _ Eb);
      split; [discriminate|intros ? ? E; discriminate E]|congruence].
  rewrite !(bind_step _ _ _ _ _ Eb).
  specialize (Hr _ _ eq_refl).
  destruct started as [tree0|].
  2:{ split; [discriminate|]. unfold ret. intros tree s' E.
      injection E as <- <-. split; [lia|congruence]. }
  pose proof (begin_tree_statement_at_open _ _ _ _ _ Eb) as Hopen.
  assert (Hend : at_node_end s0 = false).
  { unfold at_node_end, token_is in *.
    destruct (current_token (nexus_tokenizer s0)) as [t|]; [|discriminate].
    apply String.eqb_eq in Hopen. subst t. reflexivity. }
  destruct (parse_tree_node_description_total meta self fuel mapper
              (seed_node tree0) None s0 ltac:(lia)) as [_ Hadv].
  destruct (Hadv Hend) as [Hn1 Hr1].
  destruct (_parse_tree_node_description _ _ _ _ _ _ s0) as [[seed s1]|e|]
    eqn:En;
    [|rewrite !(bind_Throw _ _ _ _ En);
      split; [discriminate|intros ? ? E; discriminate E]|congruence].
  rewrite !(bind_step _ _ _ _ _ En).
  specialize (Hr1 _ _ eq_refl).
  destruct (end_tree_statement_steady fuel (set_seed_node tree0 seed) s1
              ltac:(lia)) as [Hn2 Hr2].
  split; [exact Hn2|]. intros tree s' E. specialize (Hr2 _ _ E).
  split; lia.
Qed.

Lemma enough_fuel_bound s : remaining s + 2 <= enough_fuel s.
Proof.
  unfold enough_fuel, remaining.
  destruct (is_None (current_token (nexus_tokenizer s))); lia.
Qed.

(** [_parse_tree_statement] is total. *)
Lemma parse_tree_statement_total tree_factory mapper s :
  _parse_tree_statement float_one meta ev self tree_factory mapper s <> NoFuel /\
  forall tree s',
    _parse_tree_statement float_one meta ev self tree_factory mapper s
      = Return (tree, s') ->
    remaining s' <= remaining s /\
    (tree <> None -> remaining s' < remaining s).
Proof.
  unfold _parse_tree_statement.
  apply parse_tree_statement_fuel_total, enough_fuel_bound.
Qed.

(** The iteration is finite: [requests_bound] requests exhaust the
    generator. *)
Lemma collect_total tree_factory mapper :
  forall n g,
    requests_bound g <= n ->
    collect float_one meta ev self n tree_factory mapper g <> NoFuel.
Proof.
  assert (Hrun : forall n s,
             (forall g, requests_bound g <= n ->
                 collect float_one meta ev self n tree_factory mapper g
                   <> NoFuel) ->
             remaining s + 2 <= S n ->
             match run_to_yield float_one meta ev self tree_factory mapper s with
             | Yielded tree g' =>
                 match collect float_one meta ev self n tree_factory mapper g'
                 with
                 | Return l => Return (tree :: l)
                 | Throw e => Throw e
                 | NoFuel => NoFuel
                 end
             | Raised StopIteration => Return []
             | Raised e => Throw e
             | Diverged => NoFuel
             end <> NoFuel).
  { intros n s IH Hs. unfold run_to_yield.
    destruct (parse_tree_statement_total tree_factory mapper s) as [Hn Hr].
    destruct (_parse_tree_statement _ _ _ _ _ _ s) as [[tree s']|e|] eqn:E;
      [|destruct e; discriminate|congruence].
    destruct (Hr _ _ eq_refl) as [Hle Hlt].
    assert (Hg : requests_bound (AtYield tree s') <= n).
    { destruct tree as [t|]; cbn [requests_bound].
      - assert (remaining s' < remaining s) by (apply Hlt; discriminate). lia.
      - lia. }
    specialize (IH _ Hg).
    destruct (collect _ _ _ _ n _ _ _); [discriminate|discriminate|congruence]. }
  induction n as [|n IH]; intros g Hg.
  - destruct g as [s|[t|] s]; cbn [requests_bound] in Hg; lia.
  - cbn [collect]. destruct g as [s|[t|] s]; cbn [requests_bound generator_next] in *.
    + apply Hrun; [exact IH|lia].
    + apply Hrun; [exact IH|lia].
    + discriminate.
Qed.
End StatementTermination.

(** Reading a string to the end always finishes: with a list, or with the
    error that stopped the parser. *)
Lemma read_trees_total self text : read_trees self text <> NoFuel.
Proof.
  unfold read_trees. apply collect_total. apply Nat.le_refl.
Qed.

(* ================================================================== *)
(** ** Tree comments: weight directives *)

(** A malformed weight directive with weight tracking enabled: the comments
    are not processed and the statement is not parsed, a [NameError] is
    raised. *)
Lemma weight_directive_raises_NameError :
  _process_tree_comments (PyFloat "1.0") key_value_annotations no_tree_weight
    (with_store_tree_weights default_reader true) new_tree ["&W 1/x"]
  = Raise (NameError "stream_tokenizer")
  /\ read_trees (with_store_tree_weights default_reader true) "[&W 1/x](A,B);"
     = Throw (NameError "stream_tokenizer").
Proof. split; vm_compute; reflexivity. Qed.

(** A batch that holds a weight directive stops at the first one: the
    comments before it are filed or read as rooting directives, and its try
    block raises the [NameError]. *)
Lemma for_each_weight_directive_raises {Num} (meta : string -> list Annotation)
  (ev : string -> result Num) (self : NewickReader Num) :
  known_rooting (_rooting self) = true ->
  store_tree_weights self = true ->
  forall batch st,
    existsb is_weight_comment batch = true ->
    for_each (process_tree_comment meta self (weight_try_body ev)) batch st
      = Raise (NameError "stream_tokenizer").
Proof.
  intros Hk Hs. induction batch as [|c batch IH]; intros st Hw;
    [discriminate|].
  cbn [existsb] in Hw. cbn [for_each]. unfold process_tree_comment at 1.
  destruct (is_rooting_comment c) eqn:Hr.
  - rewrite (rooting_comment_not_weight c Hr) in Hw. cbn [orb] in Hw.
    destruct (rooting_state_known self c Hk) as [v Hv]. rewrite Hv.
    apply IH. exact Hw.
  - destruct (is_weight_comment c) eqn:Hc.
    + rewrite Hs. reflexivity.
    + cbn [orb] in Hw.
      destruct (extract_comment_metadata self && String.prefix "&" c);
        [destruct (_parse_comment_metadata meta c)|]; apply IH; exact Hw.
Qed.

(** C1, as the code has it in general: with weight tracking enabled, a
    batch of tree comments that holds a weight directive is never processed
    to the end, whatever the payload of the directive and whatever its
    evaluation would give: the try block starts by evaluating the name
    [stream_tokenizer], which no scope binds, and the [NameError] passes the
    two handlers (they catch [IndexError] and [ValueError] only). The
    statement such a batch precedes raises the same error instead of
    yielding a tree. *)
Theorem tracked_weight_directive_raises :
  forall (Num : Type) (float_one : Num) (meta : string -> list Annotation)
         (ev : string -> result Num) (self : NewickReader Num)
         (tree : Tree Num) (batch : list string),
    known_rooting (_rooting self) = true ->
    store_tree_weights self = true ->
    existsb is_weight_comment batch = true ->
    _process_tree_comments float_one meta ev self tree batch
      = Raise (NameError "stream_tokenizer") /\
    (forall mapper q item rest ns,
        _parse_tree_statement float_one meta ev self tree mapper
          (fresh_state (map Comment batch ++ Tok "(" q :: item :: rest) ns)
        = Throw (NameError "stream_tokenizer")).
Proof.
  intros Num float_one meta ev self tree batch Hk Hs Hw.
  assert (E : _process_tree_comments float_one meta ev self tree batch
              = Raise (NameError "stream_tokenizer")).
  { unfold _process_tree_comments, _process_tree_comments_with.
    rewrite (for_each_weight_directive_raises meta ev self Hk Hs batch _ Hw).
    reflexivity. }
  split; [exact E|].
  intros mapper q item rest ns.
  unfold _parse_tree_statement.
  remember (fresh_state (map Comment batch ++ Tok "(" q :: item :: rest) ns)
    as s eqn:Es.
  assert (Hf : exists fuel, enough_fuel s = S (S fuel)).
  { exists (2 * List.length (src (nexus_tokenizer s)) + 2).
    unfold enough_fuel. lia. }
  destruct Hf as [fuel ->]. subst s.
  unfold _parse_tree_statement_fuel.
  apply bind_Throw. rewrite begin_tree_statement_fresh, E. reflexivity.
Qed.

(** The theorem on a plain comment followed by a weight directive, with the
    default reader tracking weights. *)
Lemma tracked_weight_directive_raises_witness :
  _process_tree_comments (PyFloat "1.0") key_value_annotations no_tree_weight
    (with_store_tree_weights default_reader true) new_tree ["note"; "&W 0.5"]
    = Raise (NameError "stream_tokenizer") /\
  (forall mapper q item rest ns,
      _parse_tree_statement (PyFloat "1.0") key_value_annotations
        no_tree_weight (with_store_tree_weights default_reader true) new_tree
        mapper
        (fresh_state (map Comment ["note"; "&W 0.5"] ++ Tok "(" q :: item :: rest)
                     ns)
      = Throw (NameError "stream_tokenizer")).
Proof.
  apply (tracked_weight_directive_raises PyNumber (PyFloat "1.0")
           key_value_annotations no_tree_weight
           (with_store_tree_weights default_reader true) new_tree
           ["note"; "&W 0.5"]); reflexivity.
Defined.

(* ================================================================== *)
(** ** Tree comments: rooting directives *)

(** C3, as the code has it: of two rooting directives the second one
    decides; the tree of "[&R][&U](A,B);" is unrooted although its first
    directive says rooted, also when the policy is 'default-rooted'. *)
Lemma first_rooting_directive_overridden :
  first_rooting_comment ["&R"; "&U"] = Some "&R" /\
  _parse_tree_rooting_state default_reader "&R" = Ok (Some true) /\
  yielded_rootedness (first_tree default_reader "[&R][&U](A,B);") = Some false /\
  yielded_rootedness
    (first_tree (with_rooting default_reader (Some "default-rooted"))
                "[&R][&U](A,B);") = Some false.
Proof. repeat split; vm_compute; reflexivity. Qed.

(** C3, amended: the last rooting directive of the batch (not the first) is
    the one whose rootedness the tree keeps, as [_parse_tree_rooting_state]
    reads it (so a forcing policy overrides it); with no rooting directive the
    same function is asked with no comment, that is the policy alone
    decides. This holds of [_process_tree_comments], which succeeds, and of
    the tree a statement yields. *)
Theorem last_rooting_directive_decides :
  forall (Num : Type) (float_one : Num) (meta : string -> list Annotation)
         (ev : string -> result Num) (self : NewickReader Num)
         (tree_factory : Tree Num) (batch : list string),
    known_rooting (_rooting self) = true ->
    store_tree_weights self = false \/ existsb is_weight_comment batch = false ->
    (exists tree',
        _process_tree_comments float_one meta ev self tree_factory batch
          = Ok tree' /\
        Ok (is_rooted tree')
          = _parse_tree_rooting_state self
              (or_empty (last_rooting_comment batch))) /\
    (forall fuel mapper q rest ns tree s',
        _parse_tree_statement_fuel float_one meta ev self fuel tree_factory
          mapper (fresh_state (map Comment batch ++ Tok "(" q :: rest) ns)
          = Return (Some tree, s') ->
        Ok (is_rooted tree)
          = _parse_tree_rooting_state self
              (or_empty (last_rooting_comment batch))).
Proof.
  intros Num float_one meta ev self tf batch Hk Hw.
  assert (Hsw : store_tree_weights self = true ->
                swallowed_on (weight_try_body ev) batch).
  { intros Hs c Hin Hc. destruct Hw as [Hw|Hw]; [congruence|].
    assert (existsb is_weight_comment batch = true)
      by (apply existsb_exists; eauto).
    congruence. }
  destruct (process_tree_comments_with_spec float_one meta self
              (weight_try_body ev) tf batch Hk Hsw)
    as (tree' & E & _ & _ & Hroot & _).
  split.
  - exists tree'. split; [exact E | exact Hroot].
  - intros fuel mapper q rest ns tree s' H.
    apply parse_tree_statement_Some in H.
    destruct H as (tree0 & s0 & seed & s1 & Hb & _ & -> & _).
    destruct fuel as [|[|fuel]].
    + rewrite begin_tree_statement_fresh_short in Hb by lia. discriminate.
    + rewrite begin_tree_statement_fresh_short in Hb by lia. discriminate.
    + rewrite begin_tree_statement_fresh in Hb.
      destruct rest; [discriminate|].
      unfold _process_tree_comments in Hb. rewrite E in Hb.
      injection Hb as <- _. exact Hroot.
Qed.

(** The theorem on the batch "&R", "note", "&U" with the default reader. *)
Lemma last_rooting_directive_decides_witness :
  (exists tree',
      _process_tree_comments (PyFloat "1.0") key_value_annotations
        no_tree_weight default_reader new_tree ["&R"; "note"; "&U"] = Ok tree' /\
      Ok (is_rooted tree')
        = _parse_tree_rooting_state default_reader
            (or_empty (last_rooting_comment ["&R"; "note"; "&U"]))) /\
  (forall fuel mapper q rest ns tree s',
      _parse_tree_statement_fuel (PyFloat "1.0") key_value_annotations
        no_tree_weight default_reader fuel new_tree mapper
        (fresh_state (map Comment ["&R"; "note"; "&U"] ++ Tok "(" q :: rest) ns)
        = Return (Some tree, s') ->
      Ok (is_rooted tree)
        = _parse_tree_rooting_state default_reader
            (or_empty (last_rooting_comment ["&R"; "note"; "&U"]))).
Proof.
  apply (last_rooting_directive_decides PyNumber (PyFloat "1.0")
           key_value_annotations no_tree_weight default_reader new_tree
           ["&R"; "note"; "&U"]).
  - reflexivity.
  - left. reflexivity.
Defined.

Lemma rooting_state_of_directive {Num} (self : NewickReader Num) c :
  is_rooting_comment c = true ->
  _parse_tree_rooting_state self c
  = Ok (if str_is (_rooting self) "force-unrooted" then Some false
        else if str_is (_rooting self) "force-rooted" then Some true
        else Some (String.eqb c "&R" || String.eqb c "&r")).
Proof.
  intros Hc. unfold _parse_tree_rooting_state.
  destruct (str_is (_rooting self) "force-unrooted"); [reflexivity|].
  destruct (str_is (_rooting self) "force-rooted"); [reflexivity|].
  destruct (rooting_comment_cases c Hc) as [->|[->|[->| ->]]]; reflexivity.
Qed.

(** C7, as the code has it: under the policy 'force-unrooted' the tree of
    "[&R](A,B);" is unrooted. *)
Lemma rooted_directive_under_force_unrooted :
  yielded_rootedness
    (first_tree (with_rooting default_reader (Some "force-unrooted"))
                "[&R](A,B);") = Some false.
Proof. vm_compute. reflexivity. Qed.

(** C7, amended: the tree of a statement preceded by one rooting directive
    is rooted for '&R' (or '&r') and unrooted for '&U' (or '&u') under every
    policy but the two forcing ones; under 'force-unrooted' it is unrooted
    and under 'force-rooted' rooted, whatever the directive. *)
Theorem rooting_directive_under_policy :
  forall (Num : Type) (float_one : Num) (meta : string -> list Annotation)
         (ev : string -> result Num) (self : NewickReader Num)
         (tree_factory : Tree Num) (mapper : TaxonSymbolMapFunc)
         (fuel : nat) (c : string) (q : bool) (rest : list Item)
         (ns : TaxonNamespace) (tree : Tree Num) (s' : ParseState),
    is_rooting_comment c = true ->
    _parse_tree_statement_fuel float_one meta ev self fuel tree_factory mapper
      (fresh_state (Comment c :: Tok "(" q :: rest) ns)
      = Return (Some tree, s') ->
    is_rooted tree
    = (if str_is (_rooting self) "force-unrooted" then Some false
       else if str_is (_rooting self) "force-rooted" then Some true
       else Some (String.eqb c "&R" || String.eqb c "&r")).
Proof.
  intros Num float_one meta ev self tf mapper fuel c q rest ns tree s' Hc H.
  apply parse_tree_statement_Some in H.
  destruct H as (tree0 & s0 & seed & s1 & Hb & _ & -> & _).
  change (Comment c :: Tok "(" q :: rest)
    with (map Comment [c] ++ Tok "(" q :: rest) in Hb.
  destruct fuel as [|[|fuel]];
    try (rewrite begin_tree_statement_fresh_short in Hb by lia; discriminate).
  rewrite begin_tree_statement_fresh in Hb.
  destruct rest; [discriminate|].
  unfold _process_tree_comments, _process_tree_comments_with in Hb.
  cbn [for_each] in Hb. unfold process_tree_comment in Hb.
  rewrite Hc, (rooting_state_of_directive self c Hc) in Hb.
  unfold finish_tree_comments in Hb. cbn in Hb.
  destruct (store_tree_weights self); cbn in Hb; injection Hb as <- _; reflexivity.
Qed.

(** The theorem on "[&R](A,B);" under the policy 'default-rooted'. *)
Lemma rooting_directive_under_policy_witness :
  exists tree s',
    is_rooting_comment "&R" = true /\
    _parse_tree_statement_fuel (PyFloat "1.0") key_value_annotations
      no_tree_weight (with_rooting default_reader (Some "default-rooted")) 9
      new_tree require_taxon_for_symbol
      (fresh_state (Comment "&R" :: Tok "(" false :: tokenize "A,B);") [])
      = Return (Some tree, s') /\
    is_rooted tree = Some true.
Proof.
  eexists. eexists. split; [reflexivity|]. split.
  - vm_compute. reflexivity.
  - match goal with
    | |- is_rooted ?t = _ =>
        exact (rooting_directive_under_policy PyNumber (PyFloat "1.0")
                 key_value_annotations no_tree_weight
                 (with_rooting default_reader (Some "default-rooted")) new_tree
                 require_taxon_for_symbol 9 "&R" false (tokenize "A,B);") [] t _
                 eq_refl ltac:(vm_compute; reflexivity))
    end.
Defined.

(* ================================================================== *)
(** ** The rooting policy *)

(** C9, as the code has it: the string 'unknown' is not a rooting policy;
    the setter rejects it and so does the constructor. *)
Lemma rooting_unknown_rejected :
  _set_rooting (PyStr "unknown") = Raise ValueError /\
  NewickReader_init python_float
    (with_rooting_kwarg no_kwargs (Some (PyStr "unknown"))) = Raise ValueError.
Proof. split; vm_compute; reflexivity. Qed.

(** C9, amended: the rooting policy is one of the four strings
    'force-unrooted', 'force-rooted', 'default-unrooted', 'default-rooted'
    or the value [None]; any other value, the string 'unknown' among them,
    is rejected with a [ValueError]. Without the keyword the policy is
    'default-unrooted'. [None] is the passthrough: with it and no rooting
    directive the rootedness is [None], unknown. *)
Theorem rooting_policy_values :
  (forall s, In s rooting_strings -> _set_rooting (PyStr s) = Ok (Some s)) /\
  _set_rooting PyNone = Ok None /\
  (forall val,
      val <> PyNone -> (forall s, In s rooting_strings -> val <> PyStr s) ->
      _set_rooting val = Raise ValueError) /\
  (forall (Num : Type) (float : option string -> result Num) val self,
      NewickReader_init float (with_rooting_kwarg no_kwargs (Some val))
        = Ok self ->
      _set_rooting val = Ok (_rooting self)) /\
  (forall (Num : Type) (float : option string -> result Num),
      exists self, NewickReader_init float no_kwargs = Ok self /\
                   _rooting self = Some "default-unrooted") /\
  (forall (Num : Type) (self : NewickReader Num),
      _rooting self = None -> _parse_tree_rooting_state self EmptyString = Ok None).
Proof.
  split.
  { intros s Hs. unfold rooting_strings in Hs. simpl in Hs.
    destruct Hs as [<-|[<-|[<-|[<-|[]]]]]; reflexivity. }
  split; [reflexivity|].
  split.
  { intros val Hn Hs. destruct val as [|b|s]; [congruence|reflexivity|].
    unfold _set_rooting.
    destruct (existsb (String.eqb s) _) eqn:E; [|reflexivity].
    apply existsb_exists in E. destruct E as (x & Hin & Hx).
    apply String.eqb_eq in Hx. subst x. exfalso. exact (Hs s Hin eq_refl). }
  split.
  { intros Num float val self H. unfold NewickReader_init in H.
    cbn [legacy_rooting no_kwargs with_rooting_kwarg kw_as_unrooted
         kw_as_rooted kw_default_as_rooted kw_default_as_unrooted kw_rooting
         Nat.add Nat.eqb] in H.
    destruct (_set_rooting val) as [r|e]; [|discriminate].
    cbn in H. injection H as <-. reflexivity. }
  split.
  { intros Num float. eexists. split; reflexivity. }
  intros Num self H. unfold _parse_tree_rooting_state. rewrite H. reflexivity.
Qed.

(** The theorem on an accepted string, a rejected value and the [None]
    policy. *)
Lemma rooting_policy_values_witness :
  _set_rooting (PyStr "force-rooted") = Ok (Some "force-rooted") /\
  _set_rooting (PyBool true) = Raise ValueError /\
  _parse_tree_rooting_state (with_rooting default_reader None) EmptyString = Ok None.
Proof.
  destruct rooting_policy_values as (Hin & _ & Hout & _ & _ & Hnone).
  split; [|split].
  - apply Hin. simpl. auto.
  - apply Hout; [discriminate|]. intros s _. discriminate.
  - apply Hnone. reflexivity.
Defined.

Section NodeDescription.
Context {Num : Type}.
Variable meta : string -> list Annotation.
Variable self : NewickReader Num.

Lemma label_loop_returns fuel :
  forall mapper flag node cs lp s n s1,
    label_loop meta self fuel mapper flag node cs lp s = Return (n, s1) ->
    tree_statement_complete s1 = Some true \/
    token_is (nexus_tokenizer s1) ")" || token_is (nexus_tokenizer s1) "," = true.
Proof.
  induction fuel as [|fuel IH]; intros mapper flag node cs lp s n s1;
    [discriminate|].
  cbn [label_loop]. exec.
  destruct (token_is (nexus_tokenizer s) ":").
  { exec. destruct (require_next_token _) as [tk1|e]; [|discriminate].
    destruct (suppress_edge_lengths self); cbn [negb]; exec.
    - destruct (require_next_token _) as [tk2|e]; [|discriminate]. apply IH.
    - unfold read_edge_length. exec.
      destruct (edge_len_type self _) as [v|e]; exec.
      + destruct (require_next_token _) as [tk2|e]; [|discriminate]. apply IH.
      + destruct e; exec; discriminate. }
  destruct (token_is (nexus_tokenizer s) ")") eqn:Hclose.
  { unfold ret. intros H. injection H as _ <-. right. exec. rewrite Hclose.
    reflexivity. }
  destruct (token_is (nexus_tokenizer s) ";").
  { exec. unfold ret. intros H. injection H as _ <-. left. reflexivity. }
  destruct (token_is (nexus_tokenizer s) ",") eqn:Hcomma.
  { unfold ret. intros H. injection H as _ <-. right. exec. rewrite Hcomma.
    apply orb_true_r. }
  destruct (token_is (nexus_tokenizer s) "("); [discriminate|].
  destruct lp; [discriminate|].
  destruct (label_of_token self _) as [l|e]; exec; [|discriminate].
  unfold store_label.
  destruct (_ || _); exec.
  - destruct (require_next_token _) as [tk2|e]; [|discriminate]. apply IH.
  - destruct (mapper _ _) as [[t ns]|e]; [|discriminate]. exec.
    destruct (require_next_token _) as [tk2|e]; [|discriminate]. apply IH.
Qed.

Lemma parse_tree_node_description_returns fuel mapper node flag s n s1 :
  _parse_tree_node_description meta self fuel mapper node flag s
    = Return (n, s1) ->
  tree_statement_complete s1 = Some true \/
  token_is (nexus_tokenizer s1) ")" || token_is (nexus_tokenizer s1) "," = true.
Proof.
  destruct fuel as [|fuel]; [discriminate|].
  cbn [_parse_tree_node_description]. intros H.
  apply bind_Return in H. destruct H as (cs & sa & _ & H).
  apply bind_Return in H. destruct H as (tk & sb & _ & H).
  apply bind_Return in H. destruct H as (node' & sc & _ & H).
  apply bind_Return in H. destruct H as (u & sd & _ & H).
  exact (label_loop_returns _ _ _ _ _ _ _ _ _ H).
Qed.
End NodeDescription.

(* ================================================================== *)
(** ** Malformed statements *)




(* ================================================================== *)
(** ** The two taxon-label options *)

(** Readers that agree on every attribute but the two taxon-label options
    read the same trees: no method consults those two attributes. *)
Lemma collect_same_but_label_options {Num} (float_one : Num) meta ev
  (r1 r2 : NewickReader Num) :
  same_but_label_options r1 r2 ->
  forall n tree_factory mapper g,
    collect float_one meta ev r1 n tree_factory mapper g
    = collect float_one meta ev r2 n tree_factory mapper g.
Proof.
  intros (H1 & H2 & H3 & H4 & H5 & H6 & H7 & H8 & H9 & H10).
  destruct r1 as [a1 a2 a3 a4 a5 a6 a7 a8 a9 a10 a11 a12].
  destruct r2 as [b1 b2 b3 b4 b5 b6 b7 b8 b9 b10 b11 b12].
  cbn in H1, H2, H3, H4, H5, H6, H7, H8, H9, H10. subst.
  reflexivity.
Qed.

Lemma init_same_but_label_options {Num} (float : option string -> result Num)
  kwargs v1 v2 w1 w2 r1 r2 :
  NewickReader_init float (with_taxon_label_kwargs kwargs v1 v2) = Ok r1 ->
  NewickReader_init float (with_taxon_label_kwargs kwargs w1 w2) = Ok r2 ->
  same_but_label_options r1 r2 /\
  case_sensitive_taxon_labels r1 = pop_flag v1 false /\
  allow_duplicate_taxon_labels r1 = pop_flag v2 false /\
  case_sensitive_taxon_labels r2 = pop_flag w1 false /\
  allow_duplicate_taxon_labels r2 = pop_flag w2 false.
Proof.
  unfold NewickReader_init.
  replace (legacy_rooting (with_taxon_label_kwargs kwargs w1 w2))
    with (legacy_rooting kwargs) by reflexivity.
  replace (legacy_rooting (with_taxon_label_kwargs kwargs v1 v2))
    with (legacy_rooting kwargs) by reflexivity.
  destruct (legacy_rooting kwargs) as [rk|e]; [|discriminate].
  destruct (_set_rooting _) as [r|e]; [|discriminate].
  cbn [kw_other with_taxon_label_kwargs].
  destruct (kw_other kwargs); [|discriminate].
  intros E1 E2. injection E1 as <-. injection E2 as <-.
  unfold same_but_label_options. cbn. repeat split; reflexivity.
Qed.

(** Whether construction succeeds does not depend on the two options
    either. *)
Lemma init_error_label_options {Num} (float : option string -> result Num)
  kwargs v1 v2 w1 w2 e :
  NewickReader_init float (with_taxon_label_kwargs kwargs v1 v2) = Raise e ->
  NewickReader_init float (with_taxon_label_kwargs kwargs w1 w2) = Raise e.
Proof.
  unfold NewickReader_init.
  replace (legacy_rooting (with_taxon_label_kwargs kwargs w1 w2))
    with (legacy_rooting kwargs) by reflexivity.
  replace (legacy_rooting (with_taxon_label_kwargs kwargs v1 v2))
    with (legacy_rooting kwargs) by reflexivity.
  destruct (legacy_rooting kwargs) as [rk|e']; [|trivial].
  destruct (_set_rooting _) as [r|e']; [|trivial].
  cbn [kw_other with_taxon_label_kwargs].
  destruct (kw_other kwargs); [discriminate|trivial].
Qed.

(** C10: for every stream and every configuration, a reader constructed
    with any values of 'case_sensitive_taxon_labels' and
    'allow_duplicate_taxon_labels' produces the same sequence of trees (or
    the same error) as the reader constructed with any other values of the
    two and the same remaining keyword arguments; the constructor stores the
    two options and no method reads them. *)
Theorem taxon_label_options_have_no_effect :
  forall (Num : Type) (float_one : Num) (meta : string -> list Annotation)
         (ev : string -> result Num) (float : option string -> result Num)
         (kwargs : Kwargs Num) (v1 v2 w1 w2 : option PyVal)
         (r1 r2 : NewickReader Num),
    NewickReader_init float (with_taxon_label_kwargs kwargs v1 v2) = Ok r1 ->
    NewickReader_init float (with_taxon_label_kwargs kwargs w1 w2) = Ok r2 ->
    (case_sensitive_taxon_labels r1 = pop_flag v1 false /\
     allow_duplicate_taxon_labels r1 = pop_flag v2 false /\
     case_sensitive_taxon_labels r2 = pop_flag w1 false /\
     allow_duplicate_taxon_labels r2 = pop_flag w2 false) /\
    forall n tree_factory mapper stream namespace,
      collect float_one meta ev r1 n tree_factory mapper
              (tree_iter stream namespace)
      = collect float_one meta ev r2 n tree_factory mapper
                (tree_iter stream namespace).
Proof.
  intros Num float_one meta ev float kwargs v1 v2 w1 w2 r1 r2 E1 E2.
  destruct (init_same_but_label_options float kwargs v1 v2 w1 w2 r1 r2 E1 E2)
    as (Hsame & Hstored).
  split; [exact Hstored|].
  intros n tf mapper stream ns.
  apply collect_same_but_label_options. exact Hsame.
Qed.

(** The theorem on "(a,A,A);", read with both options set and with the
    defaults. *)
Lemma taxon_label_options_have_no_effect_witness :
  read_trees (with_taxon_label_options default_reader true true) "(a,A,A);"
  = read_trees default_reader "(a,A,A);".
Proof.
  exact (proj2 (taxon_label_options_have_no_effect PyNumber (PyFloat "1.0")
                  key_value_annotations no_tree_weight python_float no_kwargs
                  (Some (PyBool true)) (Some (PyBool true)) None None
                  (with_taxon_label_options default_reader true true)
                  default_reader eq_refl eq_refl)
               _ new_tree require_taxon_for_symbol (tokenize "(a,A,A);") []).
Defined.

(* ================================================================== *)
(** ** The generator *)

(** At the end of the stream [_parse_tree_statement] returns [None]. *)
Lemma parse_tree_statement_at_eof {Num} (float_one : Num) meta ev
  (self : NewickReader Num) tree_factory mapper s :
  is_eof (nexus_tokenizer s) = true ->
  _parse_tree_statement float_one meta ev self tree_factory mapper s
  = Return (None, drained s).
Proof.
  intros Heof. unfold _parse_tree_statement, _parse_tree_statement_fuel,
    begin_tree_statement, enough_fuel.
  replace (2 * List.length (src (nexus_tokenizer s)) + 4)
    with (S (2 * List.length (src (nexus_tokenizer s)) + 3)) by lia.
  cbn [skip_to_statement]. exec.
  assert (Heof' : is_eof {| src := src (nexus_tokenizer s);
                            current_token := current_token (nexus_tokenizer s);
                            is_token_quoted := is_token_quoted (nexus_tokenizer s);
                            captured_comments := [] |} = true) by exact Heof.
  rewrite !Heof'. cbn [negb]. rewrite andb_false_r. exec. rewrite Heof'. exec.
  reflexivity.
Qed.

(** C6, as the code has it: at the end of the stream the generator first
    yields the [None] that [_parse_tree_statement] returned, as one more
    element, and only the request after that ends the iteration. The
    iteration is finite all the same: from any state of the generator,
    [requests_bound] requests reach its end or an error. Reading "(A,B);" to
    the end gives two elements, the tree and [None]; reading the empty
    stream gives one, [None]. *)
Theorem end_of_stream_yields_None :
  forall (Num : Type) (float_one : Num) (meta : string -> list Annotation)
         (ev : string -> result Num) (self : NewickReader Num)
         (tree_factory : Tree Num) (mapper : TaxonSymbolMapFunc)
         (s : ParseState),
    is_eof (nexus_tokenizer s) = true ->
    generator_next float_one meta ev self tree_factory mapper (AtStart s)
      = Yielded None (AtYield None (drained s)) /\
    (forall tree,
        generator_next float_one meta ev self tree_factory mapper
          (AtYield (Some tree) s)
        = Yielded None (AtYield None (drained s))) /\
    generator_next float_one meta ev self tree_factory mapper
      (AtYield None (drained s)) = Raised StopIteration /\
    (forall g,
        collect float_one meta ev self (requests_bound g) tree_factory mapper g
        <> NoFuel) /\
    read_trees default_reader "(A,B);"
      = Return [Some (mkTree (root_of [leaf "A" 0; leaf "B" 1])
                             (Some false) None [] []); None] /\
    read_trees default_reader EmptyString = Return [None].
Proof.
  intros Num float_one meta ev self tf mapper s Heof.
  pose proof (parse_tree_statement_at_eof float_one meta ev self tf mapper s Heof)
    as E.
  split; [|split; [|split; [|split; [|split]]]].
  - unfold generator_next, run_to_yield. rewrite E. reflexivity.
  - intros tree. unfold generator_next, run_to_yield. rewrite E. reflexivity.
  - reflexivity.
  - intros g. apply collect_total. apply Nat.le_refl.
  - vm_compute. reflexivity.
  - vm_compute. reflexivity.
Qed.

(** The theorem on the empty stream. *)
Lemma end_of_stream_yields_None_witness :
  generator_next (PyFloat "1.0") key_value_annotations no_tree_weight
    default_reader new_tree require_taxon_for_symbol
    (AtStart (fresh_state [] []))
  = Yielded None (AtYield None (drained (fresh_state [] []))).
Proof.
  exact (proj1 (end_of_stream_yields_None PyNumber (PyFloat "1.0")
                  key_value_annotations no_tree_weight default_reader new_tree
                  require_taxon_for_symbol (fresh_state [] []) eq_refl)).
Defined.

(* ================================================================== *)
(** ** Labels and taxa *)

Lemma no_taxon_on_parents_eq {Num} (n : Node Num) :
  no_taxon_on_parents n
  = (is_None (taxon n) || negb (has_children n))
    && forallb no_taxon_on_parents (_child_nodes n).
Proof. destruct n as [l tx e c a ch]. destruct ch; reflexivity. Qed.

Lemma untaxed_no_taxon_on_parents {Num} (n : Node Num) :
  untaxed n -> no_taxon_on_parents n = true.
Proof.
  intros [Ht Hc]. rewrite no_taxon_on_parents_eq, Ht, Hc. reflexivity.
Qed.

Lemma untaxed_add_child {Num} (n c : Node Num) :
  untaxed n -> no_taxon_on_parents c = true -> untaxed (add_child n c).
Proof.
  intros [Ht Hc] Hi. split; [exact Ht|].
  unfold add_child. cbn [_child_nodes]. rewrite forallb_app, Hc. simpl.
  rewrite Hi. reflexivity.
Qed.

Lemma for_each_seed_node {Num} (meta : string -> list Annotation)
  (self : NewickReader Num) try_body batch :
  forall st st',
    for_each (process_tree_comment meta self try_body) batch st = Ok st' ->
    seed_node (tcs_tree st') = seed_node (tcs_tree st).
Proof.
  induction batch as [|c rest IH]; intros st st' H; simpl in H.
  - injection H as <-. reflexivity.
  - destruct (process_tree_comment meta self try_body st c) as [st1|e] eqn:E;
      [|discriminate].
    rewrite (IH _ _ H). clear IH H. unfold process_tree_comment in E.
    destruct (is_rooting_comment c).
    { destruct (_parse_tree_rooting_state self c); [|discriminate].
      injection E as <-. reflexivity. }
    destruct (is_weight_comment c).
    { destruct (store_tree_weights self).
      - unfold try_set_weight in E.
        destruct (try_body c) as [w|[]]; try discriminate;
          injection E as <-; reflexivity.
      - injection E as <-. reflexivity. }
    destruct (extract_comment_metadata self && String.prefix "&" c).
    { destruct (_parse_comment_metadata meta c); injection E as <-; reflexivity. }
    injection E as <-. reflexivity.
Qed.

Lemma process_tree_comments_seed_node {Num} (float_one : Num) meta ev
  (self : NewickReader Num) tree batch tree' :
  _process_tree_comments float_one meta ev self tree batch = Ok tree' ->
  seed_node tree' = seed_node tree.
Proof.
  unfold _process_tree_comments, _process_tree_comments_with. intros H.
  destruct (for_each _ batch _) as [st|e] eqn:E; [|discriminate].
  apply for_each_seed_node in E. cbn in E. rewrite <- E.
  unfold finish_tree_comments in H.
  destruct (rooting_token_found st).
  - destruct (_ && _); injection H as <-; reflexivity.
  - destruct (_parse_tree_rooting_state self EmptyString); [|discriminate].
    destruct (_ && _); injection H as <-; reflexivity.
Qed.

Lemma begin_tree_statement_seed_node {Num} (float_one : Num) meta ev
  (self : NewickReader Num) fuel tree_factory s tree0 s0 :
  begin_tree_statement float_one meta ev self fuel tree_factory s
    = Return (Some tree0, s0) ->
  seed_node tree0 = seed_node tree_factory.
Proof.
  unfold begin_tree_statement. intros H.
  apply bind_Return in H. destruct H as (tk & sa & _ & H).
  apply bind_Return in H. destruct H as (cs & sb & _ & H).
  apply bind_Return in H. destruct H as ([token cs'] & sc & _ & H).
  apply bind_Return in H. destruct H as (tk' & sd & _ & H).
  destruct (is_eof tk'); [discriminate|].
  destruct (negb (str_is token "(")); [discriminate|].
  apply bind_Return in H. destruct H as (tree & se & Hl & H).
  apply bind_Return in H. destruct H as (u & sf & _ & H).
  unfold ret in H. injection H as <- _.
  unfold lift in Hl.
  destruct (_process_tree_comments _ _ _ _ _ _) as [t|e] eqn:E; [|discriminate].
  injection Hl as <- _. exact (process_tree_comments_seed_node _ _ _ _ _ _ _ E).
Qed.

Section TaxaOnLeaves.
Context {Num : Type}.
Variable meta : string -> list Annotation.
Variable self : NewickReader Num.
Hypothesis Hinternal : suppress_internal_node_taxa self = true.
Hypothesis Hfinish : finish_node_func self = None.

Lemma finish_node_id (n : Node Num) : _finish_node self n = n.
Proof. unfold _finish_node. rewrite Hfinish. reflexivity. Qed.

Lemma process_node_comments_fields (n : Node Num) cs :
  taxon (_process_node_comments meta self n cs) = taxon n /\
  _child_nodes (_process_node_comments meta self n cs) = _child_nodes n /\
  label (_process_node_comments meta self n cs) = label n.
Proof.
  unfold _process_node_comments. revert n.
  induction cs as [|c cs IH]; intros n; simpl; [auto|].
  destruct (IH (process_node_comment meta self n c)) as (H1 & H2 & H3).
  rewrite H1, H2, H3. unfold process_node_comment.
  destruct (_ && _); [destruct (_parse_comment_metadata meta c)|];
    repeat split; reflexivity.
Qed.

Lemma process_node_comments_untaxed (n : Node Num) cs :
  untaxed n -> untaxed (_process_node_comments meta self n cs).
Proof.
  intros [Ht Hc]. destruct (process_node_comments_fields n cs) as (H1 & H2 & _).
  split; congruence.
Qed.

Lemma process_node_comments_no_taxon_on_parents (n : Node Num) cs :
  no_taxon_on_parents n = true ->
  no_taxon_on_parents (_process_node_comments meta self n cs) = true.
Proof.
  destruct (process_node_comments_fields n cs) as (H1 & H2 & _).
  rewrite !no_taxon_on_parents_eq. unfold has_children. rewrite H1, H2. trivial.
Qed.

Lemma untaxed_node_factory : untaxed (@node_factory Num).
Proof. split; reflexivity. Qed.

Lemma add_blank_child_untaxed node s n' s' :
  untaxed node ->
  add_blank_child meta self node s = Return (n', s') -> untaxed n'.
Proof.
  intros Hn. unfold add_blank_child. exec. unfold ret. intros H.
  injection H as <- _. apply untaxed_add_child; [exact Hn|].
  rewrite finish_node_id. apply untaxed_no_taxon_on_parents.
  apply process_node_comments_untaxed, untaxed_node_factory.
Qed.

Lemma blank_nodes_loop_untaxed fuel :
  forall node s n' s',
    untaxed node ->
    blank_nodes_loop meta self fuel node s = Return (n', s') -> untaxed n'.
Proof.
  induction fuel as [|fuel IH]; intros node s n' s' Hn; [discriminate|].
  cbn [blank_nodes_loop]. exec.
  destruct (token_is (nexus_tokenizer s) ",").
  - intros H. apply bind_Return in H. destruct H as (n1 & s1 & Hb & H).
    apply add_blank_child_untaxed in Hb; [|exact Hn].
    apply bind_Return in H. destruct H as (t & s2 & _ & H).
    exact (IH _ _ _ _ Hb H).
  - unfold ret. intros H. injection H as <- _. exact Hn.
Qed.

Lemma children_loop_untaxed descend :
  descend_spec descend ->
  forall fuel node created s n' s',
    untaxed node ->
    children_loop meta self descend fuel node created s = Return (n', s') ->
    untaxed n'.
Proof.
  intros Hd. induction fuel as [|fuel IH]; intros node created s n' s' Hn;
    [discriminate|].
  cbn [children_loop]. exec.
  destruct (token_is (nexus_tokenizer s) ",").
  { intros H. apply bind_Return in H. destruct H as (n1 & s1 & H1 & H).
    assert (Hn1 : untaxed n1).
    { destruct created; cbn [negb] in H1.
      - unfold ret in H1. injection H1 as <- _. exact Hn.
      - exact (add_blank_child_untaxed _ _ _ _ Hn H1). }
    apply bind_Return in H. destruct H as (t & s2 & _ & H).
    apply bind_Return in H. destruct H as (n3 & s3 & H3 & H).
    apply blank_nodes_loop_untaxed in H3; [|exact Hn1].
    apply bind_Return in H. destruct H as (tk & s4 & _ & H).
    destruct (negb created && token_is tk ")").
    - apply bind_Return in H. destruct H as (n5 & s5 & H5 & H).
      apply add_blank_child_untaxed in H5; [|exact H3].
      exact (IH _ _ _ _ _ H5 H).
    - exact (IH _ _ _ _ _ H3 H). }
  destruct (token_is (nexus_tokenizer s) ")").
  { exec. destruct (require_next_token _); [|discriminate].
    unfold ret. intros H. injection H as <- _. exact Hn. }
  exec. intros H. apply bind_Return in H. destruct H as (n1 & s1 & H1 & H).
  apply Hd in H1.
  - apply (IH _ _ _ _ _ (untaxed_add_child _ _ Hn H1) H).
  - apply process_node_comments_untaxed, untaxed_node_factory.
  - destruct (process_node_comments_fields (@node_factory Num)
                (captured_comments (nexus_tokenizer s))) as (_ & -> & _).
    reflexivity.
  - exec. trivial.
Qed.

Lemma label_loop_no_taxon_on_parents fuel :
  forall mapper flag node cs lp s n' s',
    no_taxon_on_parents node = true ->
    (has_children node = true -> is_true flag = true) ->
    label_loop meta self fuel mapper flag node cs lp s = Return (n', s') ->
    no_taxon_on_parents n' = true.
Proof.
  induction fuel as [|fuel IH]; intros mapper flag node cs lp s n' s' Hn Hf;
    [discriminate|].
  cbn [label_loop]. exec.
  assert (Hdone : forall cs', no_taxon_on_parents
            (_finish_node self (_process_node_comments meta self node cs')) = true).
  { intros cs'. rewrite finish_node_id.
    apply process_node_comments_no_taxon_on_parents, Hn. }
  destruct (token_is (nexus_tokenizer s) ":").
  { exec. destruct (require_next_token _) as [tk1|e]; [|discriminate].
    assert (He : forall v, no_taxon_on_parents (set_edge_length node v) = true).
    { intros v. rewrite no_taxon_on_parents_eq in *. exact Hn. }
    destruct (suppress_edge_lengths self); cbn [negb]; exec.
    - destruct (require_next_token _) as [tk2|e]; [|discriminate].
      apply IH; assumption.
    - unfold read_edge_length. exec.
      destruct (edge_len_type self _) as [v|e]; exec.
      + destruct (require_next_token _) as [tk2|e]; [|discriminate].
        apply IH; [apply He|exact Hf].
      + destruct e; exec; discriminate. }
  destruct (token_is (nexus_tokenizer s) ")").
  { unfold ret. intros H. injection H as <- _. apply Hdone. }
  destruct (token_is (nexus_tokenizer s) ";").
  { exec. unfold ret. intros H. injection H as <- _. apply Hdone. }
  destruct (token_is (nexus_tokenizer s) ",").
  { unfold ret. intros H. injection H as <- _. apply Hdone. }
  destruct (token_is (nexus_tokenizer s) "("); [discriminate|].
  destruct lp; [discriminate|].
  destruct (label_of_token self _) as [l|e]; exec; [|discriminate].
  unfold store_label. rewrite Hinternal, andb_true_r.
  destruct (is_true flag) eqn:Hflag; cbn [orb negb andb].
  - exec. destruct (require_next_token _) as [tk2|e]; [|discriminate].
    apply IH; [|intros _; exact Hflag].
    rewrite no_taxon_on_parents_eq in *. exact Hn.
  - assert (Hleaf : has_children node = false).
    { destruct (has_children node); [|reflexivity].
      specialize (Hf eq_refl). discriminate. }
    assert (Hkeep : forall n0 : Node Num,
               _child_nodes n0 = _child_nodes node ->
               has_children n0 = true -> is_true flag = true).
    { intros n0 E Hc. unfold has_children in Hc, Hleaf. rewrite E in Hc.
      congruence. }
    destruct (suppress_external_node_taxa self); exec.
    + destruct (require_next_token _) as [tk2|e]; [|discriminate].
      apply IH; [|apply Hkeep; reflexivity].
      rewrite no_taxon_on_parents_eq in *. exact Hn.
    + destruct (mapper _ _) as [[t ns]|e]; [|discriminate]. exec.
      destruct (require_next_token _) as [tk2|e]; [|discriminate].
      apply IH; [|apply Hkeep; reflexivity].
      rewrite no_taxon_on_parents_eq in *.
      unfold has_children in *. cbn [set_taxon taxon _child_nodes].
      destruct (_child_nodes node); [|discriminate].
      apply andb_true_iff in Hn. destruct Hn as [_ Hn]. rewrite Hn.
      reflexivity.
Qed.

Lemma parse_tree_node_description_no_taxon_on_parents fuel :
  forall mapper node flag s n' s',
    untaxed node ->
    (forall b, flag = Some b ->
               has_children node = false /\
               (token_is (nexus_tokenizer s) "(" = true -> b = true)) ->
    _parse_tree_node_description meta self fuel mapper node flag s
      = Return (n', s') ->
    no_taxon_on_parents n' = true.
Proof.
  induction fuel as [|fuel IH]; intros mapper node flag s n' s' Hn Hflag;
    [discriminate|].
  cbn [_parse_tree_node_description]. exec.
  intros H. apply bind_Return in H. destruct H as (n1 & s1 & H1 & H).
  revert H. exec. intros H.
  assert (Hd : descend_spec (_parse_tree_node_description meta self fuel mapper)).
  { intros node0 b s0 n0 s0' Hu Hc Hb Hr.
    apply (IH _ _ _ _ _ _ Hu) in Hr; [exact Hr|].
    intros b' Eb. injection Eb as <-. split; [|assumption].
    unfold has_children. rewrite Hc. reflexivity. }
  assert (Hn1 : untaxed n1 /\ (has_children n1 = true ->
            is_true match flag with
                    | None => if has_children n1 then Some true else None
                    | Some b => Some b
                    end = true)).
  { destruct (token_is (nexus_tokenizer s) "(") eqn:Hopen.
    - revert H1. exec. destruct (require_next_token _) as [tk1|e]; [|discriminate].
      intros H1. split.
      + exact (children_loop_untaxed _ Hd _ _ _ _ _ _ Hn H1).
      + intros Hc. destruct flag as [b|].
        * destruct (Hflag b eq_refl) as [_ Hb]. rewrite (Hb eq_refl). reflexivity.
        * rewrite Hc. reflexivity.
    - unfold ret in H1. injection H1 as <- _. split; [exact Hn|].
      intros Hc. destruct flag as [b|].
      + destruct (Hflag b eq_refl) as [Hb _]. congruence.
      + rewrite Hc. reflexivity. }
  destruct Hn1 as [Hu Hc].
  exact (label_loop_no_taxon_on_parents _ _ _ _ _ _ _ _ _
           (untaxed_no_taxon_on_parents _ Hu) Hc H).
Qed.
(** *** The node being described *)

(** Attaching children leaves the taxon of the node alone. *)
Lemma add_blank_child_taxon node s n' s' :
  add_blank_child meta self node s = Return (n', s') -> taxon n' = taxon node.
Proof.
  unfold add_blank_child. exec. unfold ret. intros H. injection H as <- _.
  reflexivity.
Qed.

Lemma blank_nodes_loop_taxon fuel :
  forall node s n' s',
    blank_nodes_loop meta self fuel node s = Return (n', s') ->
    taxon n' = taxon node.
Proof.
  induction fuel as [|fuel IH]; intros node s n' s'; [discriminate|].
  cbn [blank_nodes_loop]. exec.
  destruct (token_is (nexus_tokenizer s) ",").
  - intros H. apply bind_Return in H. destruct H as (n1 & s1 & Hb & H).
    apply add_blank_child_taxon in Hb.
    apply bind_Return in H. destruct H as (t & s2 & _ & H).
    rewrite (IH _ _ _ _ H). exact Hb.
  - unfold ret. intros H. injection H as <- _. reflexivity.
Qed.

Lemma children_loop_taxon descend :
  forall fuel node created s n' s',
    children_loop meta self descend fuel node created s = Return (n', s') ->
    taxon n' = taxon node.
Proof.
  induction fuel as [|fuel IH]; intros node created s n' s'; [discriminate|].
  cbn [children_loop]. exec.
  destruct (token_is (nexus_tokenizer s) ",").
  { intros H. apply bind_Return in H. destruct H as (n1 & s1 & H1 & H).
    assert (Hn1 : taxon n1 = taxon node).
    { destruct created; cbn [negb] in H1.
      - unfold ret in H1. injection H1 as <- _. reflexivity.
      - exact (add_blank_child_taxon _ _ _ _ H1). }
    apply bind_Return in H. destruct H as (t & s2 & _ & H).
    apply bind_Return in H. destruct H as (n3 & s3 & H3 & H).
    apply blank_nodes_loop_taxon in H3.
    apply bind_Return in H. destruct H as (tk & s4 & _ & H).
    destruct (negb created && token_is tk ")").
    - apply bind_Return in H. destruct H as (n5 & s5 & H5 & H).
      apply add_blank_child_taxon in H5.
      rewrite (IH _ _ _ _ _ H). congruence.
    - rewrite (IH _ _ _ _ _ H). congruence. }
  destruct (token_is (nexus_tokenizer s) ")").
  { exec. destruct (require_next_token _); [|discriminate].
    unfold ret. intros H. injection H as <- _. reflexivity. }
  exec. intros H. apply bind_Return in H. destruct H as (n1 & s1 & H1 & H).
  rewrite (IH _ _ _ _ _ H). reflexivity.
Qed.

(** The label phase leaves the children of the node alone, and its taxon
    too when the node is flagged internal. *)
Lemma label_loop_fields fuel :
  forall mapper flag node cs lp s n' s',
    label_loop meta self fuel mapper flag node cs lp s = Return (n', s') ->
    _child_nodes n' = _child_nodes node /\
    (is_true flag = true -> taxon n' = taxon node).
Proof.
  induction fuel as [|fuel IH]; intros mapper flag node cs lp s n' s';
    [discriminate|].
  cbn [label_loop]. exec.
  assert (Hdone : forall cs',
            _child_nodes (_finish_node self
                            (_process_node_comments meta self node cs'))
            = _child_nodes node /\
            (is_true flag = true ->
             taxon (_finish_node self
                      (_process_node_comments meta self node cs'))
             = taxon node)).
  { intros cs'. rewrite finish_node_id.
    destruct (process_node_comments_fields node cs') as (H1 & H2 & _).
    split; [exact H2|intros _; exact H1]. }
  destruct (token_is (nexus_tokenizer s) ":").
  { exec. destruct (require_next_token _) as [tk1|e]; [|discriminate].
    destruct (suppress_edge_lengths self); cbn [negb]; exec.
    - destruct (require_next_token _) as [tk2|e]; [|discriminate]. apply IH.
    - unfold read_edge_length. exec.
      destruct (edge_len_type self _) as [v|e]; exec.
      + destruct (require_next_token _) as [tk2|e]; [|discriminate].
        intros H. apply IH in H. exact H.
      + destruct e; exec; discriminate. }
  destruct (token_is (nexus_tokenizer s) ")").
  { unfold ret. intros H. injection H as <- _. apply Hdone. }
  destruct (token_is (nexus_tokenizer s) ";").
  { exec. unfold ret. intros H. injection H as <- _. apply Hdone. }
  destruct (token_is (nexus_tokenizer s) ",").
  { unfold ret. intros H. injection H as <- _. apply Hdone. }
  destruct (token_is (nexus_tokenizer s) "("); [discriminate|].
  destruct lp; [discriminate|].
  destruct (label_of_token self _) as [l|e]; exec; [|discriminate].
  unfold store_label. rewrite Hinternal, andb_true_r.
  destruct (is_true flag) eqn:Hflag; cbn [orb negb andb].
  - exec. destruct (require_next_token _) as [tk2|e]; [|discriminate].
    intros H. apply IH in H. rewrite Hflag in H. exact H.
  - destruct (suppress_external_node_taxa self); exec.
    + destruct (require_next_token _) as [tk2|e]; [|discriminate].
      intros H. apply IH in H. rewrite Hflag in H.
      split; [exact (proj1 H)|discriminate].
    + destruct (mapper _ _) as [[t ns]|e]; [|discriminate]. exec.
      destruct (require_next_token _) as [tk2|e]; [|discriminate].
      intros H. apply IH in H. rewrite Hflag in H.
      split; [exact (proj1 H)|discriminate].
Qed.

(** A description flagged internal leaves the taxon of its node alone; so
    does an unflagged one (the root's) that ends up with children. *)
Lemma parse_tree_node_description_internal fuel mapper node flag s n' s' :
  _parse_tree_node_description meta self fuel mapper node flag s
    = Return (n', s') ->
  flag = Some true \/ (flag = None /\ has_children n' = true) ->
  taxon n' = taxon node.
Proof.
  destruct fuel as [|fuel]; [discriminate|].
  cbn [_parse_tree_node_description]. exec.
  intros H Hflag. apply bind_Return in H. destruct H as (n1 & s1 & H1 & H).
  revert H. exec. intros H.
  assert (Hn1 : taxon n1 = taxon node).
  { destruct (token_is (nexus_tokenizer s) "(").
    - revert H1. exec. destruct (require_next_token _) as [tk1|e];
        [|discriminate].
      apply children_loop_taxon.
    - unfold ret in H1. injection H1 as <- _. reflexivity. }
  apply label_loop_fields in H. destruct H as [Hc Ht].
  rewrite <- Hn1. apply Ht.
  destruct Hflag as [-> | [-> Hch]]; [reflexivity|].
  unfold has_children in *. rewrite Hc in Hch. rewrite Hch. reflexivity.
Qed.
End TaxaOnLeaves.

Lemma label_token_neq l :
  label_token l = true ->
  String.eqb l ":" = false /\ String.eqb l ")" = false /\
  String.eqb l ";" = false /\ String.eqb l "," = false /\
  String.eqb l "(" = false.
Proof.
  unfold label_token. cbn [existsb]. rewrite negb_true_iff, !orb_false_iff.
  tauto.
Qed.

Lemma process_node_comments_nil {Num} meta (self : NewickReader Num) n :
  _process_node_comments meta self n [] = n.
Proof. reflexivity. Qed.

(** A node description that is a label followed by a separator or a closing
    parenthesis: a leaf. *)
Lemma leaf_description {Num} meta (self : NewickReader Num) fuel mapper node
  l x xq rest ns flag0 :
  label_token l = true -> x = "," \/ x = ")" ->
  _parse_tree_node_description meta self (S (S (S fuel))) mapper node
    (Some false)
    (mkState (mkTokenizer (Tok x xq :: rest) (Some l) false []) ns flag0)
  = if suppress_external_node_taxa self then
      Return (_finish_node self (set_label node (Some (label_text self l))),
              mkState (mkTokenizer rest (Some x) xq []) ns (Some false))
    else
      match mapper ns (Some (label_text self l)) with
      | Ok (t, ns') =>
          Return (_finish_node self (set_taxon node t),
                  mkState (mkTokenizer rest (Some x) xq []) ns' (Some false))
      | Raise e => Throw e
      end.
Proof.
  intros Hl Hx. destruct (label_token_neq l Hl) as (H1 & H2 & H3 & H4 & H5).
  rewrite parse_tree_node_description_S. exec. rewrite H5. exec.
  rewrite label_loop_S. exec. rewrite H1, H2, H3, H4, H5. exec.
  unfold label_of_token, label_text. cbn [is_token_quoted negb current_token].
  rewrite andb_true_r. unfold store_label. cbn [is_true andb orb negb].
  assert (Hend : forall (n : Node Num) ns1,
    label_loop meta self (S fuel) mapper (Some false) n [] true
      (mkState (mkTokenizer rest (Some x) xq []) ns1 (Some false))
    = Return (_finish_node self n,
              mkState (mkTokenizer rest (Some x) xq []) ns1 (Some false))).
  { intros n ns1. rewrite label_loop_S. exec.
    destruct Hx as [-> | ->]; reflexivity. }
  destruct (preserve_underscores self); cbn [negb]; exec;
    (destruct (suppress_external_node_taxa self); exec;
     [apply Hend|
      destruct (mapper ns _) as [[t ns']|e]; [exec; apply Hend|reflexivity]]).
Qed.

(** The label phase at a label token, with internal taxa suppressed and
    external taxa not: the label is stored as a plain string when the node
    is flagged internal and handed to the symbol mapper otherwise. *)
Lemma label_loop_by_flag {Num} meta (self : NewickReader Num) fuel mapper flag
  node cs s :
  suppress_internal_node_taxa self = true ->
  suppress_external_node_taxa self = false ->
  at_label_token (nexus_tokenizer s) = true ->
  label_loop meta self (S fuel) mapper flag node cs false s
  = (pulled <- do_pull_captured_comments ;;
     tk <- current ;;
     label <- lift (label_of_token self tk) ;;
     current_node <-
       (if is_true flag then ret (set_label node label)
        else t <- call_taxon_symbol_map_func mapper label ;;
             ret (set_taxon node t)) ;;
     do_require_next_token ;;
     label_loop meta self fuel mapper flag current_node (cs ++ pulled) true) s.
Proof.
  intros Hint Hext Hl. unfold at_label_token in Hl.
  apply negb_true_iff in Hl.
  repeat (apply orb_false_iff in Hl; destruct Hl as [Hl ?]).
  rewrite label_loop_S. exec.
  repeat match goal with H : token_is _ _ = false |- _ => rewrite H; clear H end.
  unfold store_label. rewrite Hint, Hext, andb_true_r, andb_false_r, orb_false_r.
  reflexivity.
Qed.

(** The child loop flags the node it is about to describe by the token the
    description opens with. *)
Lemma children_loop_flags {Num} meta (self : NewickReader Num) descend fuel
  node created s :
  token_is (nexus_tokenizer s) "," = false ->
  token_is (nexus_tokenizer s) ")" = false ->
  children_loop meta self descend (S fuel) node created s
  = (node_comments <- do_pull_captured_comments ;;
     new_node <- descend (_process_node_comments meta self node_factory
                                                 node_comments)
                         (Some (token_is (nexus_tokenizer s) "(")) ;;
     children_loop meta self descend fuel (add_child node new_node) true) s.
Proof.
  intros H1 H2. rewrite children_loop_S. exec. rewrite H1, H2. exec.
  reflexivity.
Qed.

(** An empty pair of parentheses followed by a label: the node has no
    child, and its label is kept as a plain string when the node is flagged
    internal. *)
Lemma childless_description {Num} meta (self : NewickReader Num) fuel mapper
  node q q' l x xq rest ns flag0 :
  suppress_internal_node_taxa self = true ->
  finish_node_func self = None ->
  label_token l = true -> x = "," \/ x = ")" ->
  _parse_tree_node_description meta self (S (S (S fuel))) mapper node
    (Some true)
    (mkState (mkTokenizer (Tok ")" q' :: Tok l false :: Tok x xq :: rest)
                          (Some "(") q []) ns flag0)
  = Return (set_label node (Some (label_text self l)),
            mkState (mkTokenizer rest (Some x) xq []) ns (Some false)).
Proof.
  intros Hint Hfin Hl Hx.
  destruct (label_token_neq l Hl) as (H1 & H2 & H3 & H4 & H5).
  rewrite parse_tree_node_description_S. exec.
  rewrite children_loop_S. exec.
  rewrite label_loop_S. exec. rewrite H1, H2, H3, H4, H5. exec.
  unfold label_of_token, label_text. cbn [is_token_quoted negb current_token].
  rewrite andb_true_r. unfold store_label. rewrite Hint.
  cbn [is_true andb orb negb].
  assert (Hend : forall (n : Node Num),
    label_loop meta self (S fuel) mapper (Some true) n [] true
      (mkState (mkTokenizer rest (Some x) xq []) ns (Some false))
    = Return (n, mkState (mkTokenizer rest (Some x) xq []) ns (Some false))).
  { intros n. rewrite label_loop_S. exec. unfold _finish_node. rewrite Hfin.
    destruct Hx as [-> | ->]; reflexivity. }
  destruct (preserve_underscores self); cbn [negb]; exec; apply Hend.
Qed.

(** The same description at the root, which is flagged by its children: the
    label is handed to the symbol mapper. *)
Lemma childless_root_description {Num} meta (self : NewickReader Num) fuel
  mapper node q q' l rest ns flag0 t ns' :
  suppress_external_node_taxa self = false ->
  finish_node_func self = None ->
  label_token l = true -> _child_nodes node = [] ->
  mapper ns (Some (label_text self l)) = Ok (t, ns') ->
  _parse_tree_node_description meta self (S (S (S fuel))) mapper node None
    (mkState (mkTokenizer (Tok ")" q' :: Tok l false :: Tok ";" false :: rest)
                          (Some "(") q []) ns flag0)
  = Return (set_taxon node t,
            mkState (next_token (mkTokenizer rest (Some ";") false []))
                    ns' (Some true)).
Proof.
  intros Hext Hfin Hl Hch Hm.
  destruct (label_token_neq l Hl) as (H1 & H2 & H3 & H4 & H5).
  rewrite parse_tree_node_description_S. exec.
  rewrite children_loop_S. exec.
  unfold has_children. rewrite Hch.
  rewrite label_loop_S. exec. rewrite H1, H2, H3, H4, H5. exec.
  unfold label_of_token, label_text in *.
  cbn [is_token_quoted negb current_token].
  rewrite andb_true_r. unfold store_label. rewrite Hext.
  cbn [is_true andb orb negb].
  assert (Hend : forall (n : Node Num),
    label_loop meta self (S fuel) mapper None n [] true
      (mkState (mkTokenizer rest (Some ";") false []) ns' (Some false))
    = Return (n, mkState (next_token (mkTokenizer rest (Some ";") false []))
                         ns' (Some true))).
  { intros n. rewrite label_loop_S. exec. unfold _finish_node. rewrite Hfin.
    reflexivity. }
  destruct (preserve_underscores self); cbn [negb] in *; exec; rewrite Hm;
    exec; apply Hend.
Qed.

(** The child loop at an empty pair of parentheses followed by a label: the
    child it attaches has no child of its own and carries the label as a
    plain string; the symbol mapper is not asked. *)
Lemma childless_child {Num} meta (self : NewickReader Num) fd fuel mapper
  node created q q' l x xq rest ns flag0 :
  suppress_internal_node_taxa self = true ->
  finish_node_func self = None ->
  label_token l = true -> x = "," \/ x = ")" ->
  children_loop meta self
    (_parse_tree_node_description meta self (S (S (S fd))) mapper)
    (S fuel) node created
    (mkState (mkTokenizer (Tok ")" q' :: Tok l false :: Tok x xq :: rest)
                          (Some "(") q []) ns flag0)
  = children_loop meta self
      (_parse_tree_node_description meta self (S (S (S fd))) mapper)
      fuel
      (add_child node (set_label node_factory (Some (label_text self l))))
      true
      (mkState (mkTokenizer rest (Some x) xq []) ns (Some false)).
Proof.
  intros Hint Hfin Hl Hx.
  rewrite children_loop_flags by reflexivity. exec.
  cbn [_process_node_comments fold_left].
  rewrite (bind_step _ _ _ _ _
             (childless_description meta self fd mapper node_factory q q' l x
                xq rest ns flag0 Hint Hfin Hl Hx)).
  reflexivity.
Qed.

(** C8, as the code has it: a node is treated as internal when its
    description opens with a parenthesis, also when the parentheses enclose
    nothing. In "(()X,B);" the first child of the root has no children, and
    its label X is kept as a plain string, not resolved to a taxon. *)
Lemma childless_node_keeps_plain_label :
  read_trees default_reader "(()X,B);"
  = Return [Some (mkTree (root_of [mkNode (Some "X") None None [] [] [];
                                   leaf "B" 0])
                         (Some false) None [] []); None].
Proof. vm_compute. reflexivity. Qed.

(** C8, amended: under the default configuration (internal taxa suppressed,
    external taxa not, no node hook) a label is stored as a plain string on
    every node the reader treats as internal, namely a node whose
    description opens with '(' (even with nothing between the parentheses)
    and a root that has children, and is resolved through the taxon
    namespace into a taxon reference on every other node. In the order of
    the statement below: no node with children of a parsed tree carries a
    taxon; a label is stored plain at the flag of an internal node; a label
    that stands alone before a ',' or ')' is bound to the taxon the mapper
    returns; the label phase stores a label plain exactly when the node is
    flagged internal and asks the mapper otherwise; the child loop flags a
    node by the token its description opens with; a description flagged
    internal, and the root's when it ends up with children, leave the taxon
    of the node untouched; a non-root "()" followed by a label gives a
    childless node with that plain label, in a child list too; the root
    "()" followed by a label is bound to a taxon. "(A,B);" yields a root
    without taxon whose two leaf children are bound to taxa A and B. *)
Theorem labels_by_node_kind :
  forall (Num : Type) (float_one : Num) (meta : string -> list Annotation)
         (ev : string -> result Num) (self : NewickReader Num),
    suppress_internal_node_taxa self = true ->
    suppress_external_node_taxa self = false ->
    finish_node_func self = None ->
    (forall fuel tree_factory mapper s tree s',
        untaxed (seed_node tree_factory) ->
        _parse_tree_statement_fuel float_one meta ev self fuel tree_factory
          mapper s = Return (Some tree, s') ->
        no_taxon_on_parents (seed_node tree) = true) /\
    (forall mapper node label s,
        store_label self mapper (Some true) node label s
        = Return (set_label node label, s)) /\
    (forall fuel mapper node l x xq rest ns flag t ns',
        label_token l = true -> x = "," \/ x = ")" ->
        mapper ns (Some (label_text self l)) = Ok (t, ns') ->
        _parse_tree_node_description meta self (S (S (S fuel))) mapper node
          (Some false)
          (mkState (mkTokenizer (Tok x xq :: rest) (Some l) false []) ns flag)
        = Return (set_taxon node t,
                  mkState (mkTokenizer rest (Some x) xq []) ns' (Some false))) /\
    (forall fuel mapper flag node cs s,
        at_label_token (nexus_tokenizer s) = true ->
        label_loop meta self (S fuel) mapper flag node cs false s
        = (pulled <- do_pull_captured_comments ;;
           tk <- current ;;
           label <- lift (label_of_token self tk) ;;
           current_node <-
             (if is_true flag then ret (set_label node label)
              else t <- call_taxon_symbol_map_func mapper label ;;
                   ret (set_taxon node t)) ;;
           do_require_next_token ;;
           label_loop meta self fuel mapper flag current_node (cs ++ pulled)
                      true) s) /\
    (forall descend fuel node created s,
        token_is (nexus_tokenizer s) "," = false ->
        token_is (nexus_tokenizer s) ")" = false ->
        children_loop meta self descend (S fuel) node created s
        = (node_comments <- do_pull_captured_comments ;;
           new_node <- descend (_process_node_comments meta self node_factory
                                                       node_comments)
                               (Some (token_is (nexus_tokenizer s) "(")) ;;
           children_loop meta self descend fuel (add_child node new_node)
                         true) s) /\
    (forall fuel mapper node flag s n' s',
        _parse_tree_node_description meta self fuel mapper node flag s
          = Return (n', s') ->
        flag = Some true \/ (flag = None /\ has_children n' = true) ->
        taxon n' = taxon node) /\
    (forall fuel mapper node q q' l x xq rest ns flag,
        label_token l = true -> x = "," \/ x = ")" ->
        _parse_tree_node_description meta self (S (S (S fuel))) mapper node
          (Some true)
          (mkState (mkTokenizer (Tok ")" q' :: Tok l false :: Tok x xq :: rest)
                                (Some "(") q []) ns flag)
        = Return (set_label node (Some (label_text self l)),
                  mkState (mkTokenizer rest (Some x) xq []) ns (Some false))) /\
    (forall fd fuel mapper node created q q' l x xq rest ns flag,
        label_token l = true -> x = "," \/ x = ")" ->
        children_loop meta self
          (_parse_tree_node_description meta self (S (S (S fd))) mapper)
          (S fuel) node created
          (mkState (mkTokenizer (Tok ")" q' :: Tok l false :: Tok x xq :: rest)
                                (Some "(") q []) ns flag)
        = children_loop meta self
            (_parse_tree_node_description meta self (S (S (S fd))) mapper)
            fuel
            (add_child node
               (set_label node_factory (Some (label_text self l))))
            true
            (mkState (mkTokenizer rest (Some x) xq []) ns (Some false))) /\
    (forall fuel mapper node q q' l rest ns flag t ns',
        label_token l = true -> _child_nodes node = [] ->
        mapper ns (Some (label_text self l)) = Ok (t, ns') ->
        _parse_tree_node_description meta self (S (S (S fuel))) mapper node
          None
          (mkState (mkTokenizer
                      (Tok ")" q' :: Tok l false :: Tok ";" false :: rest)
                      (Some "(") q []) ns flag)
        = Return (set_taxon node t,
                  mkState (next_token (mkTokenizer rest (Some ";") false []))
                          ns' (Some true))) /\
    read_trees default_reader "(A,B);"
      = Return [Some (mkTree (root_of [leaf "A" 0; leaf "B" 1])
                             (Some false) None [] []); None] /\
    read_trees default_reader "((A,B)C,D)E;"
      = Return [Some (mkTree
                        (mkNode (Some "E") None None [] []
                           [mkNode (Some "C") None None [] []
                                   [leaf "A" 0; leaf "B" 1];
                            leaf "D" 2])
                        (Some false) None [] []); None] /\
    read_trees default_reader "(()X,B);"
      = Return [Some (mkTree (root_of [mkNode (Some "X") None None [] [] [];
                                       leaf "B" 0])
                             (Some false) None [] []); None] /\
    read_trees default_reader "()X;"
      = Return [Some (mkTree (leaf "X" 0) (Some false) None [] []); None].
Proof.
  intros Num float_one meta ev self Hint Hext Hfin.
  repeat match goal with |- _ /\ _ => split end.
  - intros fuel tf mapper s tree s' Hseed H.
    apply parse_tree_statement_Some in H.
    destruct H as (tree0 & s0 & seed & s1 & Hb & Hn & -> & _).
    apply begin_tree_statement_seed_node in Hb.
    cbn [set_seed_node seed_node].
    apply (parse_tree_node_description_no_taxon_on_parents meta self Hint Hfin
             _ _ _ _ _ _ _) in Hn; [exact Hn| |discriminate].
    rewrite Hb. exact Hseed.
  - intros mapper node label s. unfold store_label. rewrite Hint. reflexivity.
  - intros fuel mapper node l x xq rest ns flag t ns' Hl Hx Hm.
    rewrite (leaf_description meta self fuel mapper node l x xq rest ns flag Hl Hx).
    rewrite Hext, Hm. unfold _finish_node. rewrite Hfin. reflexivity.
  - intros fuel mapper flag node cs s Hl.
    apply label_loop_by_flag; assumption.
  - intros descend fuel node created s H1 H2.
    apply children_loop_flags; assumption.
  - intros fuel mapper node flag s n' s' H Hflag.
    exact (parse_tree_node_description_internal meta self Hint Hfin _ _ _ _ _
             _ _ H Hflag).
  - intros fuel mapper node q q' l x xq rest ns flag Hl Hx.
    apply childless_description; assumption.
  - intros fd fuel mapper node created q q' l x xq rest ns flag Hl Hx.
    apply childless_child; assumption.
  - intros fuel mapper node q q' l rest ns flag t ns' Hl Hch Hm.
    apply childless_root_description; assumption.
  - vm_compute. reflexivity.
  - vm_compute. reflexivity.
  - vm_compute. reflexivity.
  - vm_compute. reflexivity.
Qed.

(** The theorem on the default reader: an internal label C, the leaf A of
    "A,B", the childless node of "()X," and the childless root of "()X;". *)
Lemma labels_by_node_kind_witness :
  store_label default_reader require_taxon_for_symbol (Some true)
    node_factory (Some "C") (state_at ")" [] [])
  = Return (set_label node_factory (Some "C"), state_at ")" [] []) /\
  _parse_tree_node_description key_value_annotations default_reader 3
    require_taxon_for_symbol node_factory (Some false)
    (mkState (mkTokenizer [Tok "," false; Tok "B" false] (Some "A") false [])
             [] None)
  = Return (set_taxon node_factory (mkTaxon (Some "A") 0),
            mkState (mkTokenizer [Tok "B" false] (Some ",") false [])
                    [mkTaxon (Some "A") 0] (Some false)) /\
  _parse_tree_node_description key_value_annotations default_reader 3
    require_taxon_for_symbol node_factory (Some true)
    (mkState (mkTokenizer [Tok ")" false; Tok "X" false; Tok "," false;
                           Tok "B" false] (Some "(") false [])
             [] None)
  = Return (set_label node_factory (Some "X"),
            mkState (mkTokenizer [Tok "B" false] (Some ",") false [])
                    [] (Some false)) /\
  _parse_tree_node_description key_value_annotations default_reader 3
    require_taxon_for_symbol node_factory None
    (mkState (mkTokenizer [Tok ")" false; Tok "X" false; Tok ";" false]
                          (Some "(") false [])
             [] None)
  = Return (set_taxon node_factory (mkTaxon (Some "X") 0),
            mkState (next_token (mkTokenizer [] (Some ";") false []))
                    [mkTaxon (Some "X") 0] (Some true)).
Proof.
  destruct (labels_by_node_kind PyNumber (PyFloat "1.0") key_value_annotations
              no_tree_weight default_reader eq_refl eq_refl eq_refl)
    as (_ & Hplain & Hleaf & _ & _ & _ & Hchildless & _ & Hroot & _).
  split; [|split; [|split]].
  - apply Hplain.
  - apply Hleaf; [reflexivity | left; reflexivity | reflexivity].
  - apply (Hchildless 0 require_taxon_for_symbol node_factory false false "X"
             "," false [Tok "B" false] [] None);
      [reflexivity | left; reflexivity].
  - apply (Hroot 0 require_taxon_for_symbol node_factory false false "X" []
             [] None); reflexivity.
Defined.

(* ================================================================== *)
(** ** Blank children *)

Lemma slots_items_head s rest tail :
  exists t r0,
    slots_items s rest ++ Tok ")" false :: tail = Tok t false :: r0.
Proof.
  destruct s as [l|]; destruct rest as [|s' r]; simpl; eauto.
Qed.

Section FlatChildList.
Context {Num : Type}.
Variable meta : string -> list Annotation.
Variable self : NewickReader Num.
Variable mapper : TaxonSymbolMapFunc.
Hypothesis Hfinish : finish_node_func self = None.
Hypothesis Hmapper : total_mapper mapper.

(** A leaf between separators: the node returned is not blank. *)
Lemma leaf_child fuel l x xq rest ns flag :
  label_token l = true -> x = "," \/ x = ")" ->
  exists n ns',
    _parse_tree_node_description meta self (S (S (S fuel))) mapper
      node_factory (Some false)
      (mkState (mkTokenizer (Tok x xq :: rest) (Some l) false []) ns flag)
    = Return (n, mkState (mkTokenizer rest (Some x) xq []) ns' (Some false)) /\
    is_blank n = false.
Proof.
  intros Hl Hx. rewrite (leaf_description meta self fuel mapper node_factory
                           l x xq rest ns flag Hl Hx).
  unfold _finish_node. rewrite Hfinish.
  destruct (suppress_external_node_taxa self).
  - eexists. eexists. split; reflexivity.
  - destruct (Hmapper ns (label_text self l)) as (t & ns' & ->).
    eexists. eexists. split; reflexivity.
Qed.

Lemma add_blank_child_on node s :
  captured_comments (nexus_tokenizer s) = [] ->
  add_blank_child meta self node s
  = Return (add_child node node_factory, drained s).
Proof.
  intros Hc. unfold add_blank_child. exec. rewrite Hc.
  unfold _finish_node. rewrite Hfinish. reflexivity.
Qed.

Lemma map_is_blank_add_child (node c : Node Num) :
  map is_blank (_child_nodes (add_child node c))
  = map is_blank (_child_nodes node) ++ [is_blank c].
Proof. unfold add_child. cbn [_child_nodes]. apply map_app. Qed.

Lemma after_separator_flat fd a aq after :
  forall rest s fb fc node c ns flag,
    (forall l, In (Some l) (s :: rest) -> label_token l = true) ->
    List.length rest + 1 <= fb -> 2 * List.length rest + 2 <= fc ->
    exists node' ns' flag',
      after_separator meta self
        (_parse_tree_node_description meta self (S (S (S fd))) mapper)
        fb fc node c
        (state_on (slots_items s rest ++ Tok ")" false :: Tok a aq :: after)
                  ns flag)
      = Return (node', mkState (mkTokenizer after (Some a) aq []) ns' flag') /\
      map is_blank (_child_nodes node')
      = map is_blank (_child_nodes node) ++ map is_None (slots_children c s rest).
Proof.
  induction rest as [|s' r IH]; intros s fb fc node c ns flag Hl Hfb Hfc.
  - destruct fb as [|fb]; [simpl in Hfb; lia|].
    destruct fc as [|[|fc]]; [simpl in Hfc; lia|simpl in Hfc; lia|].
    unfold after_separator. rewrite blank_nodes_loop_S.
    destruct s as [l|]; cbn [slots_items slot_items app state_on].
    + destruct (label_token_neq l (Hl l (or_introl eq_refl)))
        as (H1 & H2 & H3 & H4 & H5).
      exec. rewrite H4. exec. rewrite H2, andb_false_r.
      rewrite children_loop_S. exec. rewrite H4, H2. exec.
      destruct (leaf_child fd l ")" false (Tok a aq :: after) ns flag
                  (Hl l (or_introl eq_refl)) (or_intror eq_refl))
        as (n & ns' & E & Hb).
      rewrite H5. cbn [_process_node_comments fold_left].
      rewrite (bind_step _ _ _ _ _ E).
      rewrite children_loop_S. exec.
      eexists. eexists. eexists. split; [reflexivity|].
      rewrite map_is_blank_add_child, Hb. reflexivity.
    + exec. destruct c; cbn [negb andb].
      * rewrite children_loop_S. exec.
        eexists. eexists. eexists. split; [reflexivity|].
        cbn [slots_children map]. rewrite app_nil_r. reflexivity.
      * erewrite bind_step by (apply add_blank_child_on; reflexivity).
        unfold drained. exec. rewrite children_loop_S. exec.
        eexists. eexists. eexists. split; [reflexivity|].
        rewrite map_is_blank_add_child. reflexivity.
  - assert (Hl' : forall l, In (Some l) (s' :: r) -> label_token l = true).
    { intros l Hin. apply Hl. right. exact Hin. }
    cbn [List.length] in Hfb, Hfc.
    destruct (slots_items_head s' r (Tok a aq :: after)) as (t & r0 & E).
    destruct s as [l|]; cbn [slots_items slot_items app state_on].
    + destruct fc as [|[|fc]]; [lia|lia|].
      destruct fb as [|fb]; [lia|].
      destruct (label_token_neq l (Hl l (or_introl eq_refl)))
        as (H1 & H2 & H3 & H4 & H5).
      destruct (leaf_child fd l "," false
                  (slots_items s' r ++ Tok ")" false :: Tok a aq :: after)
                  ns flag (Hl l (or_introl eq_refl)) (or_introl eq_refl))
        as (n & ns1 & En & Hb).
      destruct (IH s' fc fc (add_child node n) true ns1 (Some false) Hl'
                  ltac:(lia) ltac:(lia)) as (node' & ns' & flag' & E' & Hk).
      rewrite E in E'. unfold after_separator in E'. cbn [state_on] in E'.
      exists node', ns', flag'. split.
      * unfold after_separator. rewrite blank_nodes_loop_S. exec.
        rewrite H4. exec. rewrite H2, andb_false_r.
        rewrite children_loop_S. exec. rewrite H4, H2, H5. exec.
        cbn [_process_node_comments fold_left].
        rewrite (bind_step _ _ _ _ _ En).
        rewrite children_loop_S. exec. rewrite E. exec. exact E'.
      * rewrite Hk, map_is_blank_add_child, Hb, <- app_assoc.
        cbn [slots_children is_Some is_None negb map app].
        rewrite orb_true_r. reflexivity.
    + destruct fb as [|fb]; [lia|].
      destruct (IH s' fb fc (add_child node node_factory) c ns flag Hl'
                  ltac:(lia) ltac:(lia)) as (node' & ns' & flag' & E' & Hk).
      rewrite E in E'. unfold after_separator in E'. cbn [state_on] in E'.
      exists node', ns', flag'. split.
      * unfold after_separator. rewrite blank_nodes_loop_S. exec.
        erewrite bind_step by (apply add_blank_child_on; reflexivity).
        unfold drained. exec. rewrite E. exec. exact E'.
      * rewrite Hk, map_is_blank_add_child, <- app_assoc.
        cbn [slots_children is_Some is_None negb map app].
        rewrite orb_false_r. reflexivity.
Qed.

Lemma children_loop_flat fd a aq after first more fc node ns flag :
  (forall l, In (Some l) (first :: more) -> label_token l = true) ->
  2 * List.length more + 2 <= fc ->
  exists node' ns' flag',
    children_loop meta self
      (_parse_tree_node_description meta self (S (S (S fd))) mapper)
      fc node false
      (state_on (slots_items first more ++ Tok ")" false :: Tok a aq :: after)
                ns flag)
    = Return (node', mkState (mkTokenizer after (Some a) aq []) ns' flag') /\
    map is_blank (_child_nodes node')
    = map is_blank (_child_nodes node)
      ++ map is_None (expected_children first more).
Proof.
  intros Hl Hfc. destruct more as [|s r].
  - destruct fc as [|[|fc]]; [simpl in Hfc; lia|simpl in Hfc; lia|].
    destruct first as [l|]; cbn [slots_items slot_items app state_on].
    + destruct (label_token_neq l (Hl l (or_introl eq_refl)))
        as (H1 & H2 & H3 & H4 & H5).
      destruct (leaf_child fd l ")" false (Tok a aq :: after) ns flag
                  (Hl l (or_introl eq_refl)) (or_intror eq_refl))
        as (n & ns' & E & Hb).
      rewrite children_loop_S. exec. rewrite H4, H2, H5. exec.
      cbn [_process_node_comments fold_left].
      rewrite (bind_step _ _ _ _ _ E).
      rewrite children_loop_S. exec.
      eexists. eexists. eexists. split; [reflexivity|].
      rewrite map_is_blank_add_child, Hb. reflexivity.
    + rewrite children_loop_S. exec.
      eexists. eexists. eexists. split; [reflexivity|].
      cbn [expected_children map]. rewrite app_nil_r. reflexivity.
  - assert (Hl' : forall l, In (Some l) (s :: r) -> label_token l = true).
    { intros l Hin. apply Hl. right. exact Hin. }
    cbn [List.length] in Hfc.
    destruct (slots_items_head s r (Tok a aq :: after)) as (t & r0 & E).
    destruct first as [l|]; cbn [slots_items slot_items app state_on].
    + destruct fc as [|[|fc]]; [lia|lia|].
      destruct (label_token_neq l (Hl l (or_introl eq_refl)))
        as (H1 & H2 & H3 & H4 & H5).
      destruct (leaf_child fd l "," false
                  (slots_items s r ++ Tok ")" false :: Tok a aq :: after)
                  ns flag (Hl l (or_introl eq_refl)) (or_introl eq_refl))
        as (n & ns1 & En & Hb).
      destruct (after_separator_flat fd a aq after r s fc fc
                  (add_child node n) true ns1 (Some false) Hl'
                  ltac:(lia) ltac:(lia)) as (node' & ns' & flag' & E' & Hk).
      rewrite E in E'. unfold after_separator in E'. cbn [state_on] in E'.
      exists node', ns', flag'. split.
      * rewrite children_loop_S. exec. rewrite H4, H2, H5. exec.
        cbn [_process_node_comments fold_left].
        rewrite (bind_step _ _ _ _ _ En).
        rewrite children_loop_S. exec. rewrite E. exec. exact E'.
      * rewrite Hk, map_is_blank_add_child, Hb, <- app_assoc. reflexivity.
    + destruct fc as [|fc]; [lia|].
      destruct (after_separator_flat fd a aq after r s fc fc
                  (add_child node node_factory) false ns flag Hl'
                  ltac:(lia) ltac:(lia)) as (node' & ns' & flag' & E' & Hk).
      rewrite E in E'. unfold after_separator in E'. cbn [state_on] in E'.
      exists node', ns', flag'. split.
      * rewrite children_loop_S. exec.
        erewrite bind_step by (apply add_blank_child_on; reflexivity).
        unfold drained. exec. rewrite E. exec. exact E'.
      * rewrite Hk, map_is_blank_add_child, <- app_assoc. reflexivity.
Qed.
(** The same child list as a node description, wherever it stands: at the
    root or nested, whatever the flag and the node it is read into. *)
Lemma description_flat fd flag node q first more a aq after ns fl :
  (forall l, In (Some l) (first :: more) -> label_token l = true) ->
  a = "," \/ a = ")" ->
  exists node' ns',
    _parse_tree_node_description meta self
      (S (S (S (S (2 * List.length more + fd))))) mapper node flag
      (mkState (mkTokenizer
                  (slots_items first more ++ Tok ")" false :: Tok a aq :: after)
                  (Some "(") q []) ns fl)
    = Return (node', mkState (mkTokenizer after (Some a) aq []) ns'
                             (Some false)) /\
    map is_blank (_child_nodes node')
    = map is_blank (_child_nodes node)
      ++ map is_None (expected_children first more).
Proof.
  intros Hl Ha.
  destruct (children_loop_flat (2 * List.length more + fd) a aq after first
              more (S (S (S (2 * List.length more + fd)))) node ns fl Hl
              ltac:(lia)) as (node' & ns' & flag' & Ec & Hc).
  destruct (slots_items_head first more (Tok a aq :: after)) as (t & r0 & E).
  rewrite E in Ec. cbn [state_on] in Ec.
  exists node', ns'. split; [|exact Hc].
  rewrite parse_tree_node_description_S. exec. rewrite E. exec.
  rewrite (bind_step _ _ _ _ _ Ec). exec.
  rewrite label_loop_S. exec. cbn [_process_node_comments fold_left].
  unfold _finish_node. rewrite Hfinish.
  destruct Ha as [-> | ->]; reflexivity.
Qed.
End FlatChildList.

Lemma slots_items_length first more :
  List.length more <= List.length (slots_items first more).
Proof.
  revert first. induction more as [|s r IH]; intros first; simpl; [lia|].
  rewrite length_app. simpl. specialize (IH s). lia.
Qed.

(* ================================================================== *)
(** ** Invariants of the parser *)

Section Keeps.
Variable Inv : TaxonNamespace -> Prop.
Variable E : exn -> Prop.

Lemma keeps_bind {A B} (c : M ParseState A) (k : A -> M ParseState B)
  (Q : A -> Prop) (R : B -> Prop) :
  keeps Inv E c Q -> (forall a, Q a -> keeps Inv E (k a) R) ->
  keeps Inv E (bind c k) R.
Proof.
  intros Hc Hk s Hs. unfold bind. specialize (Hc s Hs).
  destruct (c s) as [[a s1]|e|]; [|exact Hc|exact I].
  destruct Hc as [Ha H1]. exact (Hk a Ha s1 H1).
Qed.

Lemma keeps_weaken {A} (c : M ParseState A) (Q Q' : A -> Prop) :
  keeps Inv E c Q -> (forall a, Q a -> Q' a) -> keeps Inv E c Q'.
Proof.
  intros Hc HQ s Hs. specialize (Hc s Hs).
  destruct (c s) as [[a s1]|e|]; [|exact Hc|exact I].
  destruct Hc as [Ha H1]. split; [exact (HQ a Ha)|exact H1].
Qed.

Lemma keeps_ret {A} (a : A) (Q : A -> Prop) : Q a -> keeps Inv E (ret a) Q.
Proof. intros Ha s Hs. split; assumption. Qed.

Lemma keeps_raise {A} e (Q : A -> Prop) : E e -> keeps Inv E (raise e) Q.
Proof. intros He s Hs. exact He. Qed.

Lemma keeps_lift {A} (r : result A) (Q : A -> Prop) :
  match r with Ok a => Q a | Raise e => E e end -> keeps Inv E (lift r) Q.
Proof. intros H s Hs. unfold lift. destruct r; [split|]; assumption. Qed.

Lemma keeps_current : keeps Inv E current (fun _ => True).
Proof. intros s Hs. split; [exact I|exact Hs]. Qed.

Lemma keeps_get : keeps Inv E get (fun s => Inv (taxon_namespace s)).
Proof. intros s Hs. split; exact Hs. Qed.

Lemma keeps_pull : keeps Inv E do_pull_captured_comments (fun _ => True).
Proof. intros s Hs. split; [exact I|exact Hs]. Qed.

Lemma keeps_clear : keeps Inv E do_clear_captured_comments (fun _ => True).
Proof. intros s Hs. split; [exact I|exact Hs]. Qed.

Lemma keeps_next : keeps Inv E do_next_token (fun _ => True).
Proof. intros s Hs. split; [exact I|exact Hs]. Qed.

Lemma keeps_set_complete b :
  keeps Inv E (set_tree_statement_complete b) (fun _ => True).
Proof. intros s Hs. split; [exact I|exact Hs]. Qed.

Lemma keeps_require :
  E UnexpectedEndOfStreamError ->
  keeps Inv E do_require_next_token (fun _ => True).
Proof.
  intros He s Hs. unfold do_require_next_token, require_next_token.
  destruct (current_token (next_token (nexus_tokenizer s)));
    [split; [exact I|exact Hs]|exact He].
Qed.

End Keeps.

(** The parser keeps a property [Inv] of the taxon namespace and builds
    nodes that satisfy [N], raising only exceptions of [E], whenever its
    building blocks do. *)
Section NodeInvariant.
Context {Num : Type}.
Variable meta : string -> list Annotation.
Variable self : NewickReader Num.
Variable mapper : TaxonSymbolMapFunc.
Variable Inv : TaxonNamespace -> Prop.
Variable N : Node Num -> Prop.
Variable E : exn -> Prop.

Hypothesis E_end_of_stream : E UnexpectedEndOfStreamError.
Hypothesis E_malformed : E NewickReaderMalformedStatementError.
Hypothesis E_attribute :
  forall tk e, label_of_token self tk = Raise e -> E e.
Hypothesis N_node_factory : N node_factory.
Hypothesis N_comments :
  forall n cs, N n -> N (_process_node_comments meta self n cs).
Hypothesis N_finish : forall n, N n -> N (_finish_node self n).
Hypothesis N_add_child : forall n c, N n -> N c -> N (add_child n c).
Hypothesis N_edge_length :
  suppress_edge_lengths self = false ->
  forall n, N n -> keeps Inv E (read_edge_length self n) N.
Hypothesis N_label :
  forall flag n l, N n -> keeps Inv E (store_label self mapper flag n l) N.

Lemma keeps_add_blank_child node :
  N node -> keeps Inv E (add_blank_child meta self node) N.
Proof.
  intros Hn. unfold add_blank_child.
  eapply keeps_bind; [apply keeps_pull|]. intros cs _.
  apply keeps_ret. apply N_add_child; [exact Hn|].
  apply N_finish, N_comments, N_node_factory.
Qed.

Lemma keeps_blank_nodes_loop fuel :
  forall node, N node -> keeps Inv E (blank_nodes_loop meta self fuel node) N.
Proof.
  induction fuel as [|fuel IH]; intros node Hn; [intros s _; exact I|].
  rewrite blank_nodes_loop_S.
  eapply keeps_bind; [apply keeps_current|]. intros tk _.
  destruct (token_is tk ","); [|apply keeps_ret; exact Hn].
  eapply keeps_bind; [apply keeps_add_blank_child; exact Hn|]. intros n1 H1.
  eapply keeps_bind; [apply keeps_require; exact E_end_of_stream|].
  intros _ _. apply IH. exact H1.
Qed.

Lemma keeps_label_loop fuel :
  forall flag node cs lp,
    N node -> keeps Inv E (label_loop meta self fuel mapper flag node cs lp) N.
Proof.
  induction fuel as [|fuel IH]; intros flag node cs lp Hn;
    [intros s _; exact I|].
  rewrite label_loop_S.
  eapply keeps_bind; [apply keeps_pull|]. intros pulled _.
  eapply keeps_bind; [apply keeps_current|]. intros tk _.
  assert (Hdone : N (_finish_node self
                       (_process_node_comments meta self node (cs ++ pulled))))
    by (apply N_finish, N_comments, Hn).
  destruct (token_is tk ":").
  { eapply keeps_bind; [apply keeps_require; exact E_end_of_stream|].
    intros _ _.
    eapply (keeps_bind _ _ _ _ N).
    { destruct (suppress_edge_lengths self) eqn:Hs; cbn [negb];
        [apply keeps_ret; exact Hn|apply N_edge_length; [reflexivity|exact Hn]]. }
    intros n1 H1.
    eapply keeps_bind; [apply keeps_require; exact E_end_of_stream|].
    intros _ _. apply IH. exact H1. }
  destruct (token_is tk ")"); [apply keeps_ret; exact Hdone|].
  destruct (token_is tk ";").
  { eapply keeps_bind; [apply keeps_set_complete|]. intros _ _.
    eapply keeps_bind; [apply keeps_next|]. intros _ _.
    apply keeps_ret. exact Hdone. }
  destruct (token_is tk ","); [apply keeps_ret; exact Hdone|].
  destruct (token_is tk "("); [apply keeps_raise; exact E_malformed|].
  destruct lp; [apply keeps_raise; exact E_malformed|].
  eapply (keeps_bind _ _ _ _ (fun _ => True)).
  { apply keeps_lift. destruct (label_of_token self tk) eqn:El;
      [exact I|exact (E_attribute _ _ El)]. }
  intros l _.
  eapply keeps_bind; [apply N_label; exact Hn|]. intros n1 H1.
  eapply keeps_bind; [apply keeps_require; exact E_end_of_stream|].
  intros _ _. apply IH. exact H1.
Qed.

Lemma keeps_children_loop descend :
  (forall node flag, N node -> keeps Inv E (descend node flag) N) ->
  forall fuel node created,
    N node -> keeps Inv E (children_loop meta self descend fuel node created) N.
Proof.
  intros Hd. induction fuel as [|fuel IH]; intros node created Hn;
    [intros s _; exact I|].
  rewrite children_loop_S.
  eapply keeps_bind; [apply keeps_current|]. intros tk _.
  destruct (token_is tk ",").
  { eapply (keeps_bind _ _ _ _ N).
    { destruct (negb created);
        [apply keeps_add_blank_child; exact Hn|apply keeps_ret; exact Hn]. }
    intros n1 H1.
    eapply keeps_bind; [apply keeps_require; exact E_end_of_stream|].
    intros _ _.
    eapply keeps_bind; [apply keeps_blank_nodes_loop; exact H1|].
    intros n2 H2.
    eapply keeps_bind; [apply keeps_current|]. intros tk2 _.
    destruct (negb created && token_is tk2 ")"); [|apply IH; exact H2].
    eapply keeps_bind; [apply keeps_add_blank_child; exact H2|].
    intros n3 H3. apply IH. exact H3. }
  destruct (token_is tk ")").
  { eapply keeps_bind; [apply keeps_require; exact E_end_of_stream|].
    intros _ _. apply keeps_ret. exact Hn. }
  eapply keeps_bind; [apply keeps_pull|]. intros cs _.
  eapply keeps_bind; [apply Hd, N_comments, N_node_factory|]. intros n1 H1.
  apply IH. apply N_add_child; assumption.
Qed.

Lemma keeps_parse_tree_node_description fuel :
  forall node flag,
    N node ->
    keeps Inv E (_parse_tree_node_description meta self fuel mapper node flag) N.
Proof.
  induction fuel as [|fuel IH]; intros node flag Hn; [intros s _; exact I|].
  rewrite parse_tree_node_description_S.
  eapply keeps_bind; [apply keeps_pull|]. intros cs _.
  eapply keeps_bind; [apply keeps_current|]. intros tk _.
  eapply (keeps_bind _ _ _ _ N).
  { destruct (token_is tk "("); [|apply keeps_ret; exact Hn].
    eapply keeps_bind; [apply keeps_require; exact E_end_of_stream|].
    intros _ _. apply keeps_children_loop; [exact IH|exact Hn]. }
  intros n1 H1.
  eapply keeps_bind; [apply keeps_set_complete|]. intros _ _.
  apply keeps_label_loop. exact H1.
Qed.

(** *** The statement *)

Variable float_one : Num.
Variable ev : string -> result Num.

Hypothesis E_invalid_token : E NewickReaderInvalidTokenError.
Hypothesis E_incomplete : E NewickReaderIncompleteTreeStatementError.
Hypothesis E_tree_comments :
  forall tree cs e,
    _process_tree_comments float_one meta ev self tree cs = Raise e -> E e.

Lemma keeps_skip_to_statement fuel :
  forall token cs,
    keeps Inv E (skip_to_statement fuel token cs) (fun _ => True).
Proof.
  induction fuel as [|fuel IH]; intros token cs; [intros s _; exact I|].
  cbn [skip_to_statement].
  eapply keeps_bind; [apply keeps_current|]. intros tk _.
  destruct (_ && _); [|apply keeps_ret; exact I].
  eapply keeps_bind; [apply keeps_require; exact E_end_of_stream|].
  intros t _. eapply keeps_bind; [apply keeps_pull|]. intros cs' _. apply IH.
Qed.

Lemma keeps_skip_semicolons fuel :
  forall token, keeps Inv E (skip_semicolons fuel token) (fun _ => True).
Proof.
  induction fuel as [|fuel IH]; intros token; [intros s _; exact I|].
  cbn [skip_semicolons].
  eapply keeps_bind; [apply keeps_current|]. intros tk _.
  destruct (_ && _); [|apply keeps_ret; exact I].
  eapply keeps_bind; [apply keeps_clear|]. intros _ _.
  eapply keeps_bind; [apply keeps_next|]. intros t _. apply IH.
Qed.

Lemma keeps_begin_tree_statement fuel tree_factory :
  N (seed_node tree_factory) ->
  keeps Inv E (begin_tree_statement float_one meta ev self fuel tree_factory)
        (on_seed N).
Proof.
  intros Hn. unfold begin_tree_statement.
  eapply keeps_bind; [apply keeps_current|]. intros tk _.
  eapply keeps_bind; [apply keeps_pull|]. intros cs _.
  eapply keeps_bind; [apply keeps_skip_to_statement|]. intros [token cs'] _.
  eapply keeps_bind; [apply keeps_current|]. intros tk' _.
  destruct (is_eof tk'); [apply keeps_ret; exact I|].
  destruct (negb _); [apply keeps_raise; exact E_invalid_token|].
  eapply (keeps_bind _ _ _ _ (fun tree => N (seed_node tree))).
  { apply keeps_lift.
    destruct (_process_tree_comments _ _ _ _ _ _) as [tree|e] eqn:Ec.
    - rewrite (process_tree_comments_seed_node _ _ _ _ _ _ _ Ec). exact Hn.
    - exact (E_tree_comments _ _ _ Ec). }
  intros tree Ht.
  eapply keeps_bind; [apply keeps_set_complete|]. intros _ _.
  apply keeps_ret. exact Ht.
Qed.

Lemma keeps_end_tree_statement fuel (tree : Tree Num) :
  N (seed_node tree) -> keeps Inv E (end_tree_statement fuel tree) (on_seed N).
Proof.
  intros Hn. unfold end_tree_statement.
  eapply keeps_bind; [apply keeps_current|]. intros tk _.
  eapply keeps_bind; [apply keeps_get|]. intros s _.
  destruct (negb _); [apply keeps_raise; exact E_incomplete|].
  eapply keeps_bind; [apply keeps_skip_semicolons|]. intros _ _.
  apply keeps_ret. exact Hn.
Qed.

Lemma keeps_parse_tree_statement_fuel fuel tree_factory :
  N (seed_node tree_factory) ->
  keeps Inv E
        (_parse_tree_statement_fuel float_one meta ev self fuel tree_factory
                                    mapper)
        (on_seed N).
Proof.
  intros Hn. unfold _parse_tree_statement_fuel.
  eapply keeps_bind; [apply keeps_begin_tree_statement; exact Hn|].
  intros [tree|] Ht; [|apply keeps_ret; exact I].
  eapply keeps_bind; [apply keeps_parse_tree_node_description; exact Ht|].
  intros seed Hs. apply keeps_end_tree_statement. exact Hs.
Qed.

Lemma keeps_parse_tree_statement tree_factory :
  N (seed_node tree_factory) ->
  keeps Inv E
        (_parse_tree_statement float_one meta ev self tree_factory mapper)
        (on_seed N).
Proof.
  intros Hn s Hs. unfold _parse_tree_statement.
  exact (keeps_parse_tree_statement_fuel _ _ Hn s Hs).
Qed.

End NodeInvariant.

(* ================================================================== *)
(** ** Node comments *)

Lemma process_node_comments_spec {Num} (meta : string -> list Annotation)
  (self : NewickReader Num) (cs : list string) :
  forall n,
    _process_node_comments meta self n cs
    = mkNode (label n) (taxon n) (edge_length n)
             (comments n
              ++ filter (fun c => negb (metadata_comment meta self c)) cs)
             (annotations n
              ++ flat_map meta (filter (metadata_comment meta self) cs))
             (_child_nodes n).
Proof.
  unfold _process_node_comments.
  induction cs as [|c cs IH]; intros n; cbn [fold_left filter flat_map].
  - rewrite !app_nil_r. destruct n; reflexivity.
  - rewrite IH. unfold process_node_comment, metadata_comment,
      _parse_comment_metadata.
    destruct (extract_comment_metadata self && String.prefix "&" c);
      cbn [andb negb].
    + destruct (meta c) as [|a l] eqn:Em; cbn [negb flat_map].
      * destruct n; cbn. rewrite <- app_assoc. reflexivity.
      * destruct n; cbn. rewrite Em, <- !app_assoc. reflexivity.
    + destruct n; cbn. rewrite <- app_assoc. reflexivity.
Qed.

(* ================================================================== *)
(** ** What the parser can raise *)

Lemma weight_try_body_raises {Num} (ev : string -> result Num) c :
  weight_try_body ev c = Raise (NameError "stream_tokenizer").
Proof. reflexivity. Qed.

Lemma for_each_tree_comments_raises {Num} (meta : string -> list Annotation)
  (ev : string -> result Num) (self : NewickReader Num) :
  known_rooting (_rooting self) = true ->
  forall cs st e,
    for_each (process_tree_comment meta self (weight_try_body ev)) cs st
      = Raise e ->
    e = NameError "stream_tokenizer".
Proof.
  intros Hk. induction cs as [|c cs IH]; intros st e H; simpl in H;
    [discriminate|].
  destruct (process_tree_comment meta self (weight_try_body ev) st c)
    as [st1|e1] eqn:Ec; [exact (IH _ _ H)|].
  injection H as <-. unfold process_tree_comment in Ec.
  destruct (is_rooting_comment c).
  { destruct (rooting_state_known self c Hk) as [v Hv]. rewrite Hv in Ec.
    discriminate. }
  destruct (is_weight_comment c).
  { destruct (store_tree_weights self); [|discriminate].
    rewrite weight_try_body_raises in Ec. cbn in Ec. congruence. }
  destruct (_ && _); [destruct (_parse_comment_metadata meta c)|];
    discriminate.
Qed.

Lemma process_tree_comments_raises {Num} (float_one : Num) meta ev
  (self : NewickReader Num) tree cs e :
  known_rooting (_rooting self) = true ->
  _process_tree_comments float_one meta ev self tree cs = Raise e ->
  e = NameError "stream_tokenizer".
Proof.
  intros Hk. unfold _process_tree_comments, _process_tree_comments_with.
  destruct (for_each _ cs _) as [st|e1] eqn:Ef.
  - unfold finish_tree_comments.
    destruct (rooting_state_known self EmptyString Hk) as [v Hv]. rewrite Hv.
    destruct (rooting_token_found st); destruct (_ && _); discriminate.
  - intros H. injection H as <-.
    exact (for_each_tree_comments_raises meta ev self Hk _ _ _ Ef).
Qed.

Lemma label_of_token_raises {Num} (self : NewickReader Num) tk e :
  label_of_token self tk = Raise e -> e = AttributeError.
Proof.
  unfold label_of_token. destruct (_ && _); [|discriminate].
  destruct (current_token tk); [discriminate|]. congruence.
Qed.

Lemma statement_error_parser {Num} (self : NewickReader Num) mapper e :
  In e parser_errors -> statement_error self mapper e.
Proof. intros H. left. exact H. Qed.

Lemma keeps_read_edge_length_errors {Num} (self : NewickReader Num) mapper n :
  keeps (fun _ => True) (statement_error self mapper)
        (read_edge_length self n) (fun _ => True).
Proof.
  unfold read_edge_length.
  eapply keeps_bind; [apply keeps_current|]. intros tk _.
  destruct (edge_len_type self (current_token tk)) as [v|e] eqn:Ee;
    [apply keeps_ret; exact I|].
  assert (He : e = ValueError \/ statement_error self mapper e).
  { destruct e; try (left; reflexivity);
      right; right; right; eexists; (split; [exact Ee|discriminate]). }
  destruct e; try (apply keeps_raise; destruct He as [He|He];
                   [discriminate He|exact He]).
  apply keeps_raise. apply statement_error_parser. cbn. tauto.
Qed.

Lemma keeps_store_label_errors {Num} (self : NewickReader Num) mapper flag n l :
  keeps (fun _ => True) (statement_error self mapper)
        (store_label self mapper flag n l) (fun _ => True).
Proof.
  unfold store_label. destruct (_ || _); [apply keeps_ret; exact I|].
  intros s _. unfold bind, call_taxon_symbol_map_func.
  destruct (mapper (taxon_namespace s) l) as [[t ns]|e] eqn:Em.
  - split; exact I.
  - right. left. eauto.
Qed.

Lemma parse_tree_statement_errors {Num} (float_one : Num) meta ev
  (self : NewickReader Num) tree_factory mapper s e :
  known_rooting (_rooting self) = true ->
  _parse_tree_statement float_one meta ev self tree_factory mapper s = Throw e ->
  statement_error self mapper e.
Proof.
  intros Hk H.
  pose proof (keeps_parse_tree_statement meta self mapper (fun _ => True)
                (fun _ => True) (statement_error self mapper)) as K.
  specialize (K ltac:(apply statement_error_parser; cbn; tauto)
                ltac:(apply statement_error_parser; cbn; tauto)).
  specialize (K ltac:(intros tk e' He; apply label_of_token_raises in He;
                      subst e'; apply statement_error_parser; cbn; tauto)).
  specialize (K I (fun _ _ _ => I) (fun _ _ => I) (fun _ _ _ _ => I)).
  specialize (K ltac:(intros _ n _; apply keeps_read_edge_length_errors)).
  specialize (K ltac:(intros flag n l _; apply keeps_store_label_errors)).
  specialize (K float_one ev
                ltac:(apply statement_error_parser; cbn; tauto)
                ltac:(apply statement_error_parser; cbn; tauto)).
  specialize (K ltac:(intros tree cs e' He;
                      apply (process_tree_comments_raises _ _ _ _ _ _ _ Hk) in He;
                      subst e'; apply statement_error_parser; cbn; tauto)).
  specialize (K tree_factory I s I). rewrite H in K. exact K.
Qed.

Lemma collect_throws {Num} (float_one : Num) meta ev (self : NewickReader Num)
  tree_factory mapper :
  forall n g e,
    collect float_one meta ev self n tree_factory mapper g = Throw e ->
    e <> StopIteration /\
    exists s,
      _parse_tree_statement float_one meta ev self tree_factory mapper s
      = Throw e.
Proof.
  induction n as [|n IH]; intros g e H; [discriminate|].
  cbn [collect] in H.
  assert (Hrun : forall s,
             match run_to_yield float_one meta ev self tree_factory mapper s
             with
             | Yielded tree g' =>
                 match collect float_one meta ev self n tree_factory mapper g'
                 with
                 | Return l => Return (tree :: l)
                 | Throw e => Throw e
                 | NoFuel => NoFuel
                 end
             | Raised StopIteration => Return []
             | Raised e => Throw e
             | Diverged => NoFuel
             end = Throw e ->
             e <> StopIteration /\
             exists s,
               _parse_tree_statement float_one meta ev self tree_factory mapper s
               = Throw e).
  { intros s. unfold run_to_yield.
    destruct (_parse_tree_statement _ _ _ _ _ _ s) as [[tree s']|e1|] eqn:Ep.
    - destruct (collect _ _ _ _ n _ _ _) as [l|e2|] eqn:Ec; try discriminate.
      intros H'. injection H' as <-. exact (IH _ _ Ec).
    - intros H'. destruct e1; try discriminate; injection H' as <-;
        (split; [discriminate|exists s; exact Ep]).
    - discriminate. }
  destruct g as [s|[t|] s]; cbn [generator_next] in H;
    [exact (Hrun s H)|exact (Hrun s H)|discriminate].
Qed.

(* ================================================================== *)
(** ** Properties of every node *)

Lemma every_node_eq {Num} (p : Node Num -> bool) n :
  every_node p n = p n && forallb (every_node p) (_child_nodes n).
Proof. destruct n. reflexivity. Qed.

Section EveryNode.
Context {Num : Type}.
Variable p : Node Num -> bool.
Hypothesis p_comments :
  forall l t e c a ch c' a',
    p (mkNode l t e c a ch) = p (mkNode l t e c' a' ch).
Hypothesis p_children :
  forall l t e c a ch ch',
    p (mkNode l t e c a ch) = p (mkNode l t e c a ch').

Lemma every_node_process_node_comments meta (self : NewickReader Num) n cs :
  every_node p n = true ->
  every_node p (_process_node_comments meta self n cs) = true.
Proof.
  rewrite process_node_comments_spec, !every_node_eq. cbn [_child_nodes].
  destruct n as [l t e c a ch]. cbn [label taxon edge_length comments
    annotations _child_nodes].
  intros H. rewrite (p_comments l t e _ _ ch c a). exact H.
Qed.

Lemma every_node_add_child (n c : Node Num) :
  every_node p n = true -> every_node p c = true ->
  every_node p (add_child n c) = true.
Proof.
  rewrite !(every_node_eq p (add_child n c)), (every_node_eq p n).
  intros Hn Hc. apply andb_true_iff in Hn. destruct Hn as [Hp Hch].
  unfold add_child. cbn [_child_nodes]. rewrite forallb_app, Hch.
  cbn [forallb]. rewrite Hc.
  destruct n as [l t e cs a ch]. cbn [label taxon edge_length comments
    annotations _child_nodes].
  rewrite (p_children l t e cs a _ ch), Hp. reflexivity.
Qed.

End EveryNode.

Lemma keeps_every_node {Num} (p : Node Num -> bool) (Inv : TaxonNamespace -> Prop)
  (float_one : Num) meta ev (self : NewickReader Num) tree_factory mapper :
  (forall l t e c a ch c' a',
      p (mkNode l t e c a ch) = p (mkNode l t e c' a' ch)) ->
  (forall l t e c a ch ch',
      p (mkNode l t e c a ch) = p (mkNode l t e c a ch')) ->
  p node_factory = true ->
  (forall n, every_node p n = true ->
             every_node p (_finish_node self n) = true) ->
  (suppress_edge_lengths self = false ->
   forall n v, every_node p n = true ->
               every_node p (set_edge_length n v) = true) ->
  (forall flag n l,
      every_node p n = true ->
      keeps Inv (fun _ => True) (store_label self mapper flag n l)
            (fun n' => every_node p n' = true)) ->
  every_node p (seed_node tree_factory) = true ->
  keeps Inv (fun _ => True)
        (_parse_tree_statement float_one meta ev self tree_factory mapper)
        (on_seed (fun n => every_node p n = true)).
Proof.
  intros Hc Hch Hfresh Hfinish Hedge Hlabel Hseed.
  apply (keeps_parse_tree_statement meta self mapper Inv
           (fun n => every_node p n = true) (fun _ => True)); try exact I;
    try (intros; exact I).
  - rewrite every_node_eq. cbn. rewrite Hfresh. reflexivity.
  - intros n cs. apply every_node_process_node_comments; assumption.
  - exact Hfinish.
  - intros n c. apply every_node_add_child; assumption.
  - intros Hs n Hn. unfold read_edge_length.
    eapply keeps_bind; [apply keeps_current|]. intros tk _.
    destruct (edge_len_type self (current_token tk)) as [v|e].
    + apply keeps_ret. apply Hedge; assumption.
    + destruct e; apply keeps_raise; exact I.
  - exact Hlabel.
  - exact Hseed.
Qed.

(* ================================================================== *)
(** ** Incomplete statements *)

(** The trailing semicolons are skipped without an error. *)
Lemma skip_semicolons_no_error fuel token s e :
  skip_semicolons fuel token s <> Throw e.
Proof.
  pose proof (keeps_skip_semicolons (fun _ => True) (fun _ => False) fuel
                token s I) as K.
  intros H. rewrite H in K. exact K.
Qed.

(** The node-description recursion raises the incomplete-statement error
    only if the symbol mapper or the edge-length cast does. *)
Lemma parse_tree_node_description_not_incomplete {Num} meta
  (self : NewickReader Num) mapper fuel node flag s :
  (forall ns l,
      mapper ns l <> Raise NewickReaderIncompleteTreeStatementError) ->
  (forall t,
      edge_len_type self t <> Raise NewickReaderIncompleteTreeStatementError) ->
  _parse_tree_node_description meta self fuel mapper node flag s
  <> Throw NewickReaderIncompleteTreeStatementError.
Proof.
  intros Hm Hc H.
  pose proof (keeps_parse_tree_node_description meta self mapper
                (fun _ => True) (fun _ => True)
                (fun e => e <> NewickReaderIncompleteTreeStatementError)) as K.
  specialize (K ltac:(discriminate) ltac:(discriminate)).
  specialize (K ltac:(intros tk e He; apply label_of_token_raises in He;
                      subst e; discriminate)).
  specialize (K I (fun _ _ _ => I) (fun _ _ => I) (fun _ _ _ _ => I)).
  assert (Hedge : suppress_edge_lengths self = false ->
                  forall n : Node Num, True ->
                  keeps (fun _ => True)
                    (fun e => e <> NewickReaderIncompleteTreeStatementError)
                    (read_edge_length self n) (fun _ => True)).
  { intros _ n _ s0 _. unfold read_edge_length. exec.
    destruct (edge_len_type self _) as [v|e] eqn:Ee; [split; exact I|].
    destruct e; exec; try discriminate. intros _. exact (Hc _ Ee). }
  assert (Hlabel : forall flag0 (n : Node Num) l, True ->
                   keeps (fun _ => True)
                     (fun e => e <> NewickReaderIncompleteTreeStatementError)
                     (store_label self mapper flag0 n l) (fun _ => True)).
  { intros flag0 n l _ s0 _. unfold store_label.
    destruct (_ || _); [split; exact I|].
    unfold bind, call_taxon_symbol_map_func.
    destruct (mapper (taxon_namespace s0) l) as [[t ns]|e] eqn:Em;
      [split; exact I|].
    intros ->. exact (Hm _ _ Em). }
  specialize (K Hedge Hlabel fuel node flag I s I).
  rewrite H in K. apply K. reflexivity.
Qed.

Lemma rooting_state_raises {Num} (self : NewickReader Num) c e :
  _parse_tree_rooting_state self c = Raise e -> e = TypeError.
Proof.
  unfold _parse_tree_rooting_state.
  repeat match goal with
         | |- context [if ?b then _ else _] => destruct b; [discriminate|]
         end.
  destruct (_rooting self); [|discriminate]. congruence.
Qed.

(** The comments of a tree raise a [TypeError] (a rooting policy the
    constructor would have refused) or the [NameError] of the weight
    directive, nothing else. *)
Lemma process_tree_comments_raises_any {Num} (float_one : Num) meta ev
  (self : NewickReader Num) tree cs e :
  _process_tree_comments float_one meta ev self tree cs = Raise e ->
  e = TypeError \/ e = NameError "stream_tokenizer".
Proof.
  unfold _process_tree_comments, _process_tree_comments_with.
  assert (Hloop : forall cs st e,
             for_each (process_tree_comment meta self (weight_try_body ev))
                      cs st = Raise e ->
             e = TypeError \/ e = NameError "stream_tokenizer").
  { clear. induction cs as [|c cs IH]; intros st e H; simpl in H;
      [discriminate|].
    destruct (process_tree_comment meta self (weight_try_body ev) st c)
      as [st1|e1] eqn:Ec; [exact (IH _ _ H)|].
    injection H as <-. unfold process_tree_comment in Ec.
    destruct (is_rooting_comment c).
    { destruct (_parse_tree_rooting_state self c) as [v|e0] eqn:Er;
        [discriminate|].
      injection Ec as <-. left. exact (rooting_state_raises _ _ _ Er). }
    destruct (is_weight_comment c).
    { destruct (store_tree_weights self); [|discriminate].
      rewrite weight_try_body_raises in Ec. cbn in Ec. right. congruence. }
    destruct (_ && _); [destruct (_parse_comment_metadata meta c)|];
      discriminate. }
  destruct (for_each _ cs _) as [st|e1] eqn:Ef.
  - unfold finish_tree_comments.
    destruct (rooting_token_found st).
    + destruct (_ && _); discriminate.
    + destruct (_parse_tree_rooting_state self EmptyString) as [v|e0] eqn:Er.
      * destruct (_ && _); discriminate.
      * intros H. injection H as <-. left.
        exact (rooting_state_raises _ _ _ Er).
  - intros H. injection H as <-. exact (Hloop _ _ _ Ef).
Qed.

(** Neither does the start of a statement raise it. *)
Lemma begin_tree_statement_not_incomplete {Num} (float_one : Num) meta ev
  (self : NewickReader Num) fuel tree_factory s :
  begin_tree_statement float_one meta ev self fuel tree_factory s
  <> Throw NewickReaderIncompleteTreeStatementError.
Proof.
  intros H.
  pose proof (keeps_begin_tree_statement meta self (fun _ => True)
                (fun _ => True)
                (fun e => e <> NewickReaderIncompleteTreeStatementError)) as K.
  specialize (K ltac:(discriminate) float_one ev ltac:(discriminate)).
  specialize (K ltac:(intros tree cs e He;
                      apply process_tree_comments_raises_any in He;
                      destruct He; subst e; discriminate)).
  specialize (K fuel tree_factory I s I).
  rewrite H in K. apply K. reflexivity.
Qed.

(** A node description begun on the last token of the stream: unless that
    token ends a node, the tokenizer is asked for a token it does not
    have. *)
Lemma description_at_end_of_stream {Num} meta (self : NewickReader Num)
  mapper fuel node flag s t :
  total_mapper mapper ->
  src (nexus_tokenizer s) = [] ->
  current_token (nexus_tokenizer s) = Some t ->
  node_end t = false ->
  _parse_tree_node_description meta self (S (S fuel)) mapper node flag s
  = Throw UnexpectedEndOfStreamError.
Proof.
  intros Hm Hsrc Ht Hend.
  destruct s as [[sr cur q cap] ns fl]. cbn in Hsrc, Ht. subst sr cur.
  unfold node_end in Hend. cbn [existsb] in Hend.
  rewrite !orb_false_iff in Hend. destruct Hend as (H4 & H2 & H3 & _).
  rewrite parse_tree_node_description_S. exec.
  destruct (String.eqb t "(") eqn:H5.
  { exec. reflexivity. }
  exec. rewrite label_loop_S. exec.
  destruct (String.eqb t ":") eqn:H1.
  { exec. reflexivity. }
  rewrite H2, H3, H4, H5. exec.
  unfold label_of_token. cbn [current_token is_token_quoted].
  destruct (negb (preserve_underscores self) && negb q); exec;
    unfold store_label;
    (destruct (_ || _); exec; [reflexivity|]);
    match goal with
    | |- context [mapper ns (Some ?l)] =>
        destruct (Hm ns l) as (tx & ns' & ->)
    end; exec; reflexivity.
Qed.

(** C4, as the code has it: on "(A,(B,C" the stream ends while a label is
    being read; the error raised is the tokenizer's end-of-stream error,
    which is not an [IncompleteTreeStatement] error (nor one of its
    subclasses). *)
Lemma stream_end_is_not_incomplete_statement :
  read_trees default_reader "(A,(B,C" = Throw UnexpectedEndOfStreamError /\
  isinstance UnexpectedEndOfStreamError
             NewickReaderIncompleteTreeStatementError = false.
Proof. split; vm_compute; reflexivity. Qed.

(** C4, amended: whenever the node-description recursion of a statement
    returns and the completion flag is not set, the statement raises the
    incomplete-statement error and yields no tree; the recursion then stands
    at a ')' or a ',' that closes nothing, as in "(A,B))". The symbol mapper
    and the edge-length cast aside, the error is raised in no other
    situation. An error raised inside the recursion propagates unchanged; in
    particular a node description that begins on the last token of the
    stream, other than ')', ',' and ';', raises the tokenizer's
    end-of-stream error when the symbol mapper answers every label, and this
    error is what "(A,(B,C" gives. *)
Theorem incomplete_statement_raised :
  forall (Num : Type) (float_one : Num) (meta : string -> list Annotation)
         (ev : string -> result Num) (self : NewickReader Num)
         (fuel : nat) (tree_factory : Tree Num) (mapper : TaxonSymbolMapFunc)
         (s : ParseState),
    (forall tree0 s0 seed s1,
        begin_tree_statement float_one meta ev self fuel tree_factory s
          = Return (Some tree0, s0) ->
        _parse_tree_node_description meta self fuel mapper (seed_node tree0)
          None s0 = Return (seed, s1) ->
        tree_statement_complete s1 <> Some true ->
        _parse_tree_statement_fuel float_one meta ev self fuel tree_factory
          mapper s = Throw NewickReaderIncompleteTreeStatementError /\
        token_is (nexus_tokenizer s1) ")" || token_is (nexus_tokenizer s1) ","
        = true) /\
    ((forall ns l,
         mapper ns l <> Raise NewickReaderIncompleteTreeStatementError) ->
     (forall t,
         edge_len_type self t
         <> Raise NewickReaderIncompleteTreeStatementError) ->
     _parse_tree_statement_fuel float_one meta ev self fuel tree_factory
       mapper s = Throw NewickReaderIncompleteTreeStatementError ->
     exists tree0 s0 seed s1,
       begin_tree_statement float_one meta ev self fuel tree_factory s
         = Return (Some tree0, s0) /\
       _parse_tree_node_description meta self fuel mapper (seed_node tree0)
         None s0 = Return (seed, s1) /\
       tree_statement_complete s1 <> Some true) /\
    (forall tree0 s0 e,
        begin_tree_statement float_one meta ev self fuel tree_factory s
          = Return (Some tree0, s0) ->
        _parse_tree_node_description meta self fuel mapper (seed_node tree0)
          None s0 = Throw e ->
        _parse_tree_statement_fuel float_one meta ev self fuel tree_factory
          mapper s = Throw e) /\
    (forall node flag t,
        total_mapper mapper ->
        src (nexus_tokenizer s) = [] ->
        current_token (nexus_tokenizer s) = Some t ->
        node_end t = false ->
        _parse_tree_node_description meta self (S (S fuel)) mapper node flag s
        = Throw UnexpectedEndOfStreamError) /\
    read_trees default_reader "(A,B))"
      = Throw NewickReaderIncompleteTreeStatementError /\
    read_trees default_reader "(A,(B,C" = Throw UnexpectedEndOfStreamError.
Proof.
  intros Num float_one meta ev self fuel tf mapper s.
  split; [|split; [|split; [|split; [|split]]]].
  - intros tree0 s0 seed s1 Hb Hn Hc. split.
    + unfold _parse_tree_statement_fuel.
      rewrite (bind_step _ _ _ _ _ Hb), (bind_step _ _ _ _ _ Hn).
      unfold end_tree_statement. exec.
      destruct (tree_statement_complete s1) as [[|]|]; [congruence| |];
        reflexivity.
    + destruct (parse_tree_node_description_returns meta self _ _ _ _ _ _ _ Hn)
        as [H|H]; [congruence|exact H].
  - intros Hm Hcast H.
    unfold _parse_tree_statement_fuel in H.
    destruct (begin_tree_statement float_one meta ev self fuel tf s)
      as [[[tree0|] s0]|e|] eqn:Hb.
    + rewrite (bind_step _ _ _ _ _ Hb) in H.
      destruct (_parse_tree_node_description meta self fuel mapper
                  (seed_node tree0) None s0) as [[seed s1]|e|] eqn:Hn.
      * exists tree0, s0, seed, s1. split; [reflexivity|].
        split; [exact Hn|]. intros Hc.
        rewrite (bind_step _ _ _ _ _ Hn) in H.
        unfold end_tree_statement in H. revert H. exec. rewrite Hc.
        cbn [is_true negb]. unfold bind.
        destruct (skip_semicolons fuel _ _) as [[u s2]|e|] eqn:Hs;
          try discriminate.
        intros _. exact (skip_semicolons_no_error _ _ _ _ Hs).
      * rewrite (bind_Throw _ _ _ _ Hn) in H. injection H as ->.
        exfalso.
        exact (parse_tree_node_description_not_incomplete meta self mapper
                 fuel _ _ _ Hm Hcast Hn).
      * unfold bind in H. rewrite Hn in H. discriminate.
    + rewrite (bind_step _ _ _ _ _ Hb) in H. discriminate.
    + rewrite (bind_Throw _ _ _ _ Hb) in H. injection H as ->. exfalso.
      exact (begin_tree_statement_not_incomplete float_one meta ev self fuel
               tf s Hb).
    + unfold bind in H. rewrite Hb in H. discriminate.
  - intros tree0 s0 e Hb Hn. unfold _parse_tree_statement_fuel.
    rewrite (bind_step _ _ _ _ _ Hb). apply bind_Throw. exact Hn.
  - intros node flag t Hm Hsrc Ht Hend.
    exact (description_at_end_of_stream meta self mapper fuel node flag s t
             Hm Hsrc Ht Hend).
  - vm_compute. reflexivity.
  - vm_compute. reflexivity.
Qed.

(** The theorem on "(A,B))", where the recursion returns at the second ')',
    on "(A,(B,C", where it raises, and on a description begun on the last
    token C of a stream. *)
Lemma incomplete_statement_raised_witness :
  (exists tree0 s0 seed s1,
      begin_tree_statement (PyFloat "1.0") key_value_annotations
        no_tree_weight default_reader 9 new_tree
        (fresh_state (tokenize "(A,B))") [])
        = Return (Some tree0, s0) /\
      _parse_tree_node_description key_value_annotations default_reader 9
        require_taxon_for_symbol (seed_node tree0) None s0
        = Return (seed, s1) /\
      tree_statement_complete s1 <> Some true /\
      _parse_tree_statement_fuel (PyFloat "1.0") key_value_annotations
        no_tree_weight default_reader 9 new_tree require_taxon_for_symbol
        (fresh_state (tokenize "(A,B))") [])
        = Throw NewickReaderIncompleteTreeStatementError /\
      token_is (nexus_tokenizer s1) ")" || token_is (nexus_tokenizer s1) ","
      = true) /\
  (exists tree0 s0 seed s1,
      begin_tree_statement (PyFloat "1.0") key_value_annotations
        no_tree_weight default_reader 9 new_tree
        (fresh_state (tokenize "(A,B))") [])
        = Return (Some tree0, s0) /\
      _parse_tree_node_description key_value_annotations default_reader 9
        require_taxon_for_symbol (seed_node tree0) None s0
        = Return (seed, s1) /\
      tree_statement_complete s1 <> Some true) /\
  _parse_tree_statement_fuel (PyFloat "1.0") key_value_annotations
    no_tree_weight default_reader 12 new_tree require_taxon_for_symbol
    (fresh_state (tokenize "(A,(B,C") [])
  = Throw UnexpectedEndOfStreamError /\
  _parse_tree_node_description key_value_annotations default_reader 2
    require_taxon_for_symbol node_factory (Some false) (state_at "C" [] [])
  = Throw UnexpectedEndOfStreamError.
Proof.
  split; [|split; [|split]].
  - eexists. eexists. eexists. eexists.
    split; [vm_compute; reflexivity|].
    split; [vm_compute; reflexivity|].
    split; [discriminate|].
    match goal with
    | |- ?stmt = _ /\ token_is (nexus_tokenizer ?s1) _ || _ = true =>
        exact (proj1 (incomplete_statement_raised PyNumber (PyFloat "1.0")
                 key_value_annotations no_tree_weight default_reader 9
                 new_tree require_taxon_for_symbol
                 (fresh_state (tokenize "(A,B))") []))
                 _ _ _ s1
                 ltac:(vm_compute; reflexivity) ltac:(vm_compute; reflexivity)
                 ltac:(discriminate))
    end.
  - apply (proj1 (proj2 (incomplete_statement_raised PyNumber (PyFloat "1.0")
             key_value_annotations no_tree_weight default_reader 9
             new_tree require_taxon_for_symbol
             (fresh_state (tokenize "(A,B))") [])))).
    + intros ns l H. apply require_taxon_for_symbol_raises in H. discriminate.
    + intros t H. apply python_float_raises in H.
      destruct H; discriminate.
    + vm_compute. reflexivity.
  - eapply (proj1 (proj2 (proj2 (incomplete_statement_raised PyNumber
             (PyFloat "1.0") key_value_annotations no_tree_weight
             default_reader 12 new_tree require_taxon_for_symbol
             (fresh_state (tokenize "(A,(B,C") []))))).
    + vm_compute. reflexivity.
    + vm_compute. reflexivity.
  - apply (proj1 (proj2 (proj2 (proj2 (incomplete_statement_raised PyNumber
             (PyFloat "1.0") key_value_annotations no_tree_weight
             default_reader 0 new_tree require_taxon_for_symbol
             (state_at "C" [] []))))) node_factory (Some false) "C").
    + exact require_taxon_for_symbol_total.
    + reflexivity.
    + reflexivity.
    + reflexivity.
Defined.

(* ================================================================== *)
(** ** The budget does not matter *)

Lemma refines_refl {A} (c : M ParseState A) : refines c c.
Proof. intros s _. reflexivity. Qed.

Lemma refines_out_of_fuel {A} (c' : M ParseState A) : refines out_of_fuel c'.
Proof. intros s H. exfalso. apply H. reflexivity. Qed.

Lemma refines_bind {A B} (c c' : M ParseState A) (k k' : A -> M ParseState B) :
  refines c c' -> (forall a, refines (k a) (k' a)) ->
  refines (bind c k) (bind c' k').
Proof.
  intros Hc Hk s H. unfold bind in *.
  destruct (c s) as [[a s1]|e|] eqn:Ec.
  - rewrite (Hc s) by (rewrite Ec; discriminate). rewrite Ec.
    apply Hk. exact H.
  - rewrite (Hc s) by (rewrite Ec; discriminate). rewrite Ec. reflexivity.
  - exfalso. apply H. reflexivity.
Qed.

Ltac refines_step :=
  first [ apply refines_refl
        | apply refines_bind; [|intros ?]
        | match goal with
          | |- refines (if ?b then _ else _) (if ?b then _ else _) =>
              destruct b
          | |- refines (let (_, _) := ?p in _) _ => destruct p
          end ].

Section Refinement.
Context {Num : Type}.
Variable meta : string -> list Annotation.
Variable self : NewickReader Num.
Variables mapper mapper' : TaxonSymbolMapFunc.

Hypothesis refines_store_label :
  forall flag n l,
    refines (store_label self mapper flag n l)
            (store_label self mapper' flag n l).

Lemma refines_blank_nodes_loop :
  forall fuel fuel' node,
    fuel <= fuel' ->
    refines (blank_nodes_loop meta self fuel node)
            (blank_nodes_loop meta self fuel' node).
Proof.
  induction fuel as [|fuel IH]; intros fuel' node Hf;
    [apply refines_out_of_fuel|].
  destruct fuel' as [|fuel']; [lia|]. rewrite !blank_nodes_loop_S.
  repeat refines_step. apply IH. lia.
Qed.

Lemma refines_label_loop :
  forall fuel fuel' flag node cs lp,
    fuel <= fuel' ->
    refines (label_loop meta self fuel mapper flag node cs lp)
            (label_loop meta self fuel' mapper' flag node cs lp).
Proof.
  induction fuel as [|fuel IH]; intros fuel' flag node cs lp Hf;
    [apply refines_out_of_fuel|].
  destruct fuel' as [|fuel']; [lia|]. rewrite !label_loop_S.
  repeat refines_step; try (apply IH; lia).
  apply refines_store_label.
Qed.

Lemma refines_children_loop descend descend' :
  (forall node flag, refines (descend node flag) (descend' node flag)) ->
  forall fuel fuel' node created,
    fuel <= fuel' ->
    refines (children_loop meta self descend fuel node created)
            (children_loop meta self descend' fuel' node created).
Proof.
  intros Hd. induction fuel as [|fuel IH]; intros fuel' node created Hf;
    [apply refines_out_of_fuel|].
  destruct fuel' as [|fuel']; [lia|]. rewrite !children_loop_S.
  repeat refines_step; try (apply IH; lia).
  - apply refines_blank_nodes_loop; lia.
  - apply Hd.
Qed.

Lemma refines_parse_tree_node_description :
  forall fuel fuel' node flag,
    fuel <= fuel' ->
    refines (_parse_tree_node_description meta self fuel mapper node flag)
            (_parse_tree_node_description meta self fuel' mapper' node flag).
Proof.
  induction fuel as [|fuel IH]; intros fuel' node flag Hf;
    [apply refines_out_of_fuel|].
  destruct fuel' as [|fuel']; [lia|]. rewrite !parse_tree_node_description_S.
  repeat refines_step.
  - apply refines_children_loop; [|lia]. intros n f. apply IH. lia.
  - apply refines_label_loop. lia.
Qed.

(** *** The statement *)

Variable float_one : Num.
Variable ev : string -> result Num.

Lemma refines_skip_to_statement :
  forall fuel fuel' token cs,
    fuel <= fuel' ->
    refines (skip_to_statement fuel token cs)
            (skip_to_statement fuel' token cs).
Proof.
  induction fuel as [|fuel IH]; intros fuel' token cs Hf;
    [apply refines_out_of_fuel|].
  destruct fuel' as [|fuel']; [lia|]. cbn [skip_to_statement].
  repeat refines_step. apply IH. lia.
Qed.

Lemma refines_skip_semicolons :
  forall fuel fuel' token,
    fuel <= fuel' ->
    refines (skip_semicolons fuel token) (skip_semicolons fuel' token).
Proof.
  induction fuel as [|fuel IH]; intros fuel' token Hf;
    [apply refines_out_of_fuel|].
  destruct fuel' as [|fuel']; [lia|]. cbn [skip_semicolons].
  repeat refines_step. apply IH. lia.
Qed.

Lemma refines_parse_tree_statement_fuel fuel fuel' tree_factory :
  fuel <= fuel' ->
  refines (_parse_tree_statement_fuel float_one meta ev self fuel
             tree_factory mapper)
          (_parse_tree_statement_fuel float_one meta ev self fuel'
             tree_factory mapper').
Proof.
  intros Hf. unfold _parse_tree_statement_fuel.
  apply refines_bind.
  { unfold begin_tree_statement. repeat refines_step.
    apply refines_skip_to_statement. exact Hf. }
  intros [tree|]; [|apply refines_refl].
  apply refines_bind;
    [apply refines_parse_tree_node_description; exact Hf|].
  intros seed. unfold end_tree_statement. repeat refines_step.
  apply refines_skip_semicolons. exact Hf.
Qed.

End Refinement.

Section Budget.
Context {Num : Type}.
Variable float_one : Num.
Variable meta : string -> list Annotation.
Variable ev : string -> result Num.
Variable self : NewickReader Num.

(** Any budget of at least [remaining s + 2] gives what the computed one
    gives. *)
Lemma parse_tree_statement_fuel_enough fuel tree_factory mapper s :
  remaining s + 2 <= fuel ->
  _parse_tree_statement_fuel float_one meta ev self fuel tree_factory mapper s
  = _parse_tree_statement float_one meta ev self tree_factory mapper s.
Proof.
  intros Hf. unfold _parse_tree_statement.
  pose proof (enough_fuel_bound s) as He.
  destruct (parse_tree_statement_fuel_total float_one meta ev self fuel
              tree_factory mapper s Hf) as [Hn _].
  destruct (parse_tree_statement_fuel_total float_one meta ev self
              (enough_fuel s) tree_factory mapper s He) as [Hn' _].
  rewrite <- (refines_parse_tree_statement_fuel meta self mapper mapper
                (fun _ _ _ => refines_refl _) float_one ev fuel
                (Nat.max fuel (enough_fuel s)) tree_factory
                (Nat.le_max_l _ _) s Hn).
  apply (refines_parse_tree_statement_fuel meta self mapper mapper
           (fun _ _ _ => refines_refl _) float_one ev (enough_fuel s)
           (Nat.max fuel (enough_fuel s)) tree_factory
           (Nat.le_max_r _ _) s Hn').
Qed.

(** With both taxon-suppression options on, the symbol mapper is not
    consulted. *)
Lemma store_label_suppressed mapper mapper' flag (n : Node Num) l :
  suppress_internal_node_taxa self = true ->
  suppress_external_node_taxa self = true ->
  store_label self mapper flag n l = store_label self mapper' flag n l.
Proof.
  intros Hi He. unfold store_label. rewrite Hi, He.
  destruct (is_true flag); reflexivity.
Qed.

Lemma parse_tree_statement_mapper tree_factory mapper mapper' s :
  suppress_internal_node_taxa self = true ->
  suppress_external_node_taxa self = true ->
  _parse_tree_statement float_one meta ev self tree_factory mapper s
  = _parse_tree_statement float_one meta ev self tree_factory mapper' s.
Proof.
  intros Hi He. unfold _parse_tree_statement. symmetry.
  apply (refines_parse_tree_statement_fuel meta self mapper mapper').
  - intros flag n l. rewrite (store_label_suppressed mapper mapper' flag n l Hi He).
    apply refines_refl.
  - apply Nat.le_refl.
  - apply parse_tree_statement_fuel_total, enough_fuel_bound.
Qed.

(** A statement has to open with a parenthesis. *)
Lemma parse_tree_statement_invalid_token tree_factory mapper s t :
  current_token (nexus_tokenizer s) = Some t ->
  t <> ";" -> t <> "(" ->
  is_eof (nexus_tokenizer s) = false ->
  _parse_tree_statement float_one meta ev self tree_factory mapper s
  = Throw NewickReaderInvalidTokenError.
Proof.
  intros Ht Hsemi Hopen Heof.
  unfold _parse_tree_statement, _parse_tree_statement_fuel,
    begin_tree_statement, enough_fuel.
  replace (2 * List.length (src (nexus_tokenizer s)) + 4)
    with (S (2 * List.length (src (nexus_tokenizer s)) + 3)) by lia.
  cbn [skip_to_statement]. exec. rewrite Ht. cbn [str_is is_None].
  apply String.eqb_neq in Hsemi, Hopen. rewrite Hsemi. exec.
  assert (Heof' : is_eof {| src := src (nexus_tokenizer s);
                            current_token := current_token (nexus_tokenizer s);
                            is_token_quoted := is_token_quoted (nexus_tokenizer s);
                            captured_comments := [] |} = false) by exact Heof.
  rewrite ?Ht in *. rewrite !Heof'. exec. rewrite Hopen. exec. reflexivity.
Qed.

End Budget.

(* ================================================================== *)
(** ** Before the opening parenthesis *)

Lemma bind_same_result {S A B} (c : M S A) (k : A -> M S B) s1 s2 :
  c s1 = c s2 -> bind c k s1 = bind c k s2.
Proof. unfold bind. intros ->. reflexivity. Qed.

Lemma require_next_token_src src cur q cur' q' cap :
  require_next_token (mkTokenizer src cur q cap)
  = require_next_token (mkTokenizer src cur' q' cap).
Proof. reflexivity. Qed.

Lemma require_next_token_shorter tk tk' :
  require_next_token tk = Ok tk' ->
  List.length (src tk') < List.length (src tk).
Proof.
  unfold require_next_token, next_token.
  pose proof (scan_length (src tk) (captured_comments tk)) as H.
  destruct (current_token (scan (src tk) (captured_comments tk)));
    [|discriminate].
  intros E. injection E as <-. exact H.
Qed.

(** One turn of the first loop of [_parse_tree_statement]. *)
Lemma skip_to_statement_advance fuel token cs items cur q ns flag :
  str_is token ";" || is_None token = true -> items <> [] ->
  skip_to_statement (S fuel) token cs
    (mkState (mkTokenizer items cur q []) ns flag)
  = match require_next_token (mkTokenizer items cur q []) with
    | Ok tk =>
        skip_to_statement fuel (current_token tk) (captured_comments tk)
          (mkState (mkTokenizer (src tk) (current_token tk)
                                (is_token_quoted tk) []) ns flag)
    | Raise e => Throw e
    end.
Proof.
  intros Ht Hi. cbn [skip_to_statement]. exec. rewrite Ht.
  destruct items as [|i items]; [congruence|]. exec.
  destruct (require_next_token _); exec; reflexivity.
Qed.

Lemma skip_to_statement_leading_semicolon fuel cs q i rest ns flag :
  2 * List.length (i :: rest) < fuel ->
  skip_to_statement (S (S fuel)) None []
    (mkState (mkTokenizer (map Comment cs ++ Tok ";" q :: i :: rest)
                          None false []) ns flag)
  = skip_to_statement (S (S fuel)) None []
      (mkState (mkTokenizer (i :: rest) None false []) ns flag).
Proof.
  intros Hf.
  rewrite (skip_to_statement_advance (S fuel) None [] (map Comment cs ++ _))
    by (try reflexivity; destruct cs; discriminate).
  rewrite require_next_token_comments.
  cbn [src current_token is_token_quoted captured_comments app].
  rewrite (skip_to_statement_advance fuel (Some ";") cs (i :: rest))
    by (try reflexivity; discriminate).
  rewrite (skip_to_statement_advance (S fuel) None [] (i :: rest))
    by (try reflexivity; discriminate).
  rewrite (require_next_token_src (i :: rest) (Some ";") q None false []).
  destruct (require_next_token _) as [tk|e] eqn:Er; [|reflexivity].
  apply require_next_token_shorter in Er. cbn [src] in Er.
  symmetry. apply refines_skip_to_statement; [lia|].
  apply skip_to_statement_steady. unfold remaining. cbn [nexus_tokenizer src
    current_token]. cbn [List.length] in *.
  destruct (is_None (current_token tk)); lia.
Qed.

Section Leading.
Context {Num : Type}.
Variable float_one : Num.
Variable meta : string -> list Annotation.
Variable ev : string -> result Num.
Variable self : NewickReader Num.

(** A semicolon before a statement is skipped together with the comments
    in front of it. *)
Lemma parse_tree_statement_leading_semicolon tree_factory mapper cs q i rest
  ns :
  _parse_tree_statement float_one meta ev self tree_factory mapper
    (fresh_state (map Comment cs ++ Tok ";" q :: i :: rest) ns)
  = _parse_tree_statement float_one meta ev self tree_factory mapper
      (fresh_state (i :: rest) ns).
Proof.
  set (s1 := fresh_state (map Comment cs ++ Tok ";" q :: i :: rest) ns).
  set (s2 := fresh_state (i :: rest) ns).
  assert (Hfuel : exists fuel,
             enough_fuel s1 = S (S fuel) /\ 2 * List.length (i :: rest) < fuel).
  { exists (2 * (List.length cs + List.length rest) + 6).
    unfold enough_fuel, s1, fresh_state, NexusTokenizer_init.
    cbn [nexus_tokenizer src]. rewrite length_app, length_map.
    cbn [List.length]. lia. }
  destruct Hfuel as (fuel & Hfuel & Hlt).
  rewrite <- (parse_tree_statement_fuel_enough float_one meta ev self
                (enough_fuel s1) tree_factory mapper s2).
  2:{ rewrite Hfuel. unfold remaining, s2, fresh_state, NexusTokenizer_init.
      cbn [nexus_tokenizer src current_token is_None]. lia. }
  unfold _parse_tree_statement. rewrite Hfuel.
  unfold _parse_tree_statement_fuel, begin_tree_statement, s1, s2,
    fresh_state, NexusTokenizer_init.
  exec. apply bind_same_result.
  exact (skip_to_statement_leading_semicolon fuel cs q i rest ns None Hlt).
Qed.

End Leading.

(* ================================================================== *)
(** ** The constructor *)

Lemma set_rooting_known val r :
  _set_rooting val = Ok r -> known_rooting r = true.
Proof.
  unfold _set_rooting. destruct val as [|b|s]; [|discriminate|].
  - intros E. injection E as <-. reflexivity.
  - destruct (existsb _ _) eqn:Hex; [|discriminate].
    intros E. injection E as <-. exact Hex.
Qed.

Lemma set_rooting_raises val e : _set_rooting val = Raise e -> e = ValueError.
Proof.
  unfold _set_rooting. destruct val as [|b|s]; [discriminate| |];
    [|destruct (existsb _ _); [discriminate|]]; congruence.
Qed.

Lemma legacy_rooting_raises {Num} (kwargs : Kwargs Num) e :
  legacy_rooting kwargs = Raise e -> e = ValueError.
Proof.
  unfold legacy_rooting.
  destruct (kw_as_unrooted kwargs), (kw_as_rooted kwargs),
    (kw_default_as_rooted kwargs), (kw_default_as_unrooted kwargs),
    (kw_rooting kwargs); cbn; congruence.
Qed.

Lemma legacy_rooting_ok {Num} (kwargs : Kwargs Num) v :
  legacy_rooting kwargs = Ok v ->
  legacy_count kwargs <= 1 /\
  (legacy_count kwargs = 1 -> kw_rooting kwargs = None) /\
  (legacy_count kwargs = 0 -> v = kw_rooting kwargs).
Proof.
  unfold legacy_rooting, legacy_count.
  destruct (kw_as_unrooted kwargs), (kw_as_rooted kwargs),
    (kw_default_as_rooted kwargs), (kw_default_as_unrooted kwargs),
    (kw_rooting kwargs); cbn; intros E; try discriminate;
    repeat split; try lia; try congruence; intros; try lia.
Qed.

Lemma legacy_rooting_conflict {Num} (kwargs : Kwargs Num) :
  (1 <= legacy_count kwargs /\ kw_rooting kwargs <> None)
  \/ 2 <= legacy_count kwargs ->
  legacy_rooting kwargs = Raise ValueError.
Proof.
  unfold legacy_rooting, legacy_count.
  destruct (kw_as_unrooted kwargs), (kw_as_rooted kwargs),
    (kw_default_as_rooted kwargs), (kw_default_as_unrooted kwargs),
    (kw_rooting kwargs); cbn; intros [[H1 H2]|H]; try reflexivity;
    try lia; congruence.
Qed.

Lemma init_outcome {Num} (float : option string -> result Num)
  (kwargs : Kwargs Num) :
  match NewickReader_init float kwargs with
  | Ok self =>
      known_rooting (_rooting self) = true /\ kw_other kwargs = [] /\
      legacy_count kwargs <= 1 /\
      (legacy_count kwargs = 1 -> kw_rooting kwargs = None)
  | Raise e =>
      e = ValueError \/
      (e = TypeError /\ kw_other kwargs <> [] /\ legacy_count kwargs <= 1)
  end.
Proof.
  unfold NewickReader_init.
  destruct (legacy_rooting kwargs) as [v|e] eqn:El.
  2:{ left. exact (legacy_rooting_raises _ _ El). }
  destruct (legacy_rooting_ok _ _ El) as (Hc & Hr & _).
  destruct (_set_rooting _) as [r|e] eqn:Es.
  2:{ left. exact (set_rooting_raises _ _ Es). }
  destruct (kw_other kwargs) as [|k ks].
  - cbn [_rooting]. repeat split; try assumption.
    exact (set_rooting_known _ _ Es).
  - right. repeat split; try assumption. discriminate.
Qed.

Lemma init_legacy {Num} (float : option string -> result Num)
  (kwargs : Kwargs Num) a b c d (corrected : string) :
  kw_rooting kwargs = None ->
  legacy_rooting (with_legacy_kwargs kwargs a b c d)
    = Ok (Some (PyStr corrected)) ->
  NewickReader_init float (with_legacy_kwargs kwargs a b c d)
  = NewickReader_init float
      (with_rooting_kwarg (with_legacy_kwargs kwargs None None None None)
                          (Some (PyStr corrected))).
Proof.
  intros Hr Hl. unfold NewickReader_init. rewrite Hl.
  unfold legacy_rooting, with_rooting_kwarg, with_legacy_kwargs. cbn.
  reflexivity.
Qed.

(* ================================================================== *)
(** ** The shape of an iteration *)

Lemma collect_after_None {Num} (float_one : Num) meta ev
  (self : NewickReader Num) tree_factory mapper n s l :
  collect float_one meta ev self n tree_factory mapper (AtYield None s)
    = Return l -> l = [].
Proof.
  destruct n as [|n]; [discriminate|]. cbn. congruence.
Qed.

Lemma collect_shape {Num} (float_one : Num) meta ev (self : NewickReader Num)
  tree_factory mapper :
  forall n g l,
    collect float_one meta ev self n tree_factory mapper g = Return l ->
    exists trees, l = map Some trees \/ l = map Some trees ++ [None].
Proof.
  induction n as [|n IH]; intros g l H; [discriminate|].
  cbn [collect] in H.
  assert (Hrun : forall s,
             match run_to_yield float_one meta ev self tree_factory mapper s
             with
             | Yielded tree g' =>
                 match collect float_one meta ev self n tree_factory mapper g'
                 with
                 | Return l => Return (tree :: l)
                 | Throw e => Throw e
                 | NoFuel => NoFuel
                 end
             | Raised StopIteration => Return []
             | Raised e => Throw e
             | Diverged => NoFuel
             end = Return l ->
             exists trees, l = map Some trees \/ l = map Some trees ++ [None]).
  { intros s. unfold run_to_yield.
    destruct (_parse_tree_statement _ _ _ _ _ _ s) as [[tree s']|e|].
    - destruct (collect _ _ _ _ n _ _ _) as [l'|e|] eqn:Ec; try discriminate.
      intros H'. injection H' as <-. destruct tree as [t|].
      + destruct (IH _ _ Ec) as [trees [-> | ->]]; exists (t :: trees);
          [left|right]; reflexivity.
      + apply collect_after_None in Ec. subst l'. exists []. right. reflexivity.
    - destruct e; try discriminate. intros H'. injection H' as <-.
      exists []. left. reflexivity.
    - discriminate. }
  destruct g as [s|[t|] s]; cbn [generator_next] in H;
    [exact (Hrun s H)|exact (Hrun s H)|].
  injection H as <-. exists []. left. reflexivity.
Qed.

(* ================================================================== *)
(** ** Label texts *)

Lemma replace_underscores_clean s : has_underscore (replace_underscores s) = false.
Proof.
  induction s as [|c s IH]; [reflexivity|]. cbn [replace_underscores has_underscore].
  rewrite IH, orb_false_r. destruct (Ascii.eqb c "_") eqn:E; [reflexivity|exact E].
Qed.

(* ================================================================== *)
(** ** The token iterator of the NCL bridge *)

Lemma read_next_token_at_eof self :
  eof self = true -> read_next_token self = (EmptyString, self).
Proof. unfold read_next_token. intros ->. reflexivity. Qed.

Lemma read_tokens_at_eof n :
  forall self,
    eof self = true -> read_tokens n self = (repeat EmptyString n, self).
Proof.
  induction n as [|n IH]; intros self He; [reflexivity|].
  cbn [read_tokens repeat]. rewrite (read_next_token_at_eof self He).
  rewrite (IH self He). reflexivity.
Qed.

Lemma read_tokens_spec n :
  forall tokens q r,
    read_tokens n (mkListOfTokenIterator tokens false q r)
    = (firstn n tokens ++ repeat EmptyString (n - List.length tokens),
       if Nat.leb n (List.length tokens)
       then mkListOfTokenIterator (skipn n tokens) false q r
       else mkListOfTokenIterator [] true q r).
Proof.
  induction n as [|n IH]; intros tokens q r; [reflexivity|].
  cbn [read_tokens]. destruct tokens as [|t rest].
  - cbn [read_next_token eof negb tokens_iter queued tree_rooted].
    rewrite read_tokens_at_eof by reflexivity. reflexivity.
  - cbn [read_next_token eof negb tokens_iter queued tree_rooted].
    rewrite IH. cbn [firstn skipn List.length Nat.sub Nat.leb app]. reflexivity.
Qed.

(* ================================================================== *)
(** ** Comments inside a leaf description *)

Lemma leaf_with_comments {Num} meta (self : NewickReader Num) fuel mapper node
  l lq cq v vq x xq rest ns flag0 t ns' c0 c1 c2 c3 len :
  label_token l = true -> x = "," \/ x = ")" ->
  suppress_external_node_taxa self = false ->
  suppress_edge_lengths self = false ->
  mapper ns (Some (token_label_text self l lq)) = Ok (t, ns') ->
  edge_len_type self (Some v) = Ok len ->
  _parse_tree_node_description meta self (S (S (S (S fuel)))) mapper node
    (Some false)
    (mkState (mkTokenizer (map Comment c1 ++ Tok ":" cq ::
                           map Comment c2 ++ Tok v vq ::
                           map Comment c3 ++ Tok x xq :: rest)
                          (Some l) lq c0) ns flag0)
  = Return (_finish_node self
              (_process_node_comments meta self
                 (set_edge_length (set_taxon node t) len)
                 (c0 ++ c1 ++ c2 ++ c3)),
            mkState (mkTokenizer rest (Some x) xq []) ns' (Some false)).
Proof.
  intros Hl Hx Hext Hlen Hm He.
  destruct (label_token_neq l Hl) as (H1 & H2 & H3 & H4 & H5).
  rewrite parse_tree_node_description_S. exec. rewrite H5. exec.
  rewrite label_loop_S. exec. rewrite H1, H2, H3, H4, H5. exec.
  assert (Hlabel : forall items,
             label_of_token self
               {| src := items; current_token := Some l;
                  is_token_quoted := lq; captured_comments := [] |}
             = Ok (Some (token_label_text self l lq))).
  { intros items. unfold label_of_token, token_label_text.
    cbn [is_token_quoted current_token].
    destruct (preserve_underscores self), lq; reflexivity. }
  rewrite Hlabel. exec. unfold store_label. rewrite Hext.
  cbn [is_true andb orb negb]. exec. rewrite Hm. exec.
  rewrite require_next_token_comments. exec.
  rewrite label_loop_S. exec.
  rewrite require_next_token_comments. exec. rewrite Hlen. cbn [negb].
  unfold read_edge_length. exec. rewrite He. exec.
  rewrite require_next_token_comments. exec.
  rewrite label_loop_S. exec.
  rewrite !app_nil_r, <- !app_assoc.
  destruct Hx as [-> | ->]; reflexivity.
Qed.

(* ================================================================== *)
(** ** After the statement *)

(** When the last loop of [_parse_tree_statement] is left, the current
    token is no semicolon, or the stream is at its end. *)
Lemma skip_semicolons_exit fuel :
  forall token s u s',
    token = current_token (nexus_tokenizer s) ->
    skip_semicolons fuel token s = Return (u, s') ->
    token_is (nexus_tokenizer s') ";" && negb (is_eof (nexus_tokenizer s'))
      = false /\
    taxon_namespace s' = taxon_namespace s /\
    tree_statement_complete s' = tree_statement_complete s.
Proof.
  induction fuel as [|fuel IH]; intros token s u s' Ht; [discriminate|].
  cbn [skip_semicolons]. exec.
  destruct (str_is token ";" && negb (is_eof (nexus_tokenizer s))) eqn:Hc.
  - exec. intros H. apply IH in H; [|reflexivity].
    cbn [taxon_namespace tree_statement_complete] in H. exact H.
  - unfold ret. intros E. injection E as _ <-. subst token.
    split; [exact Hc|]. split; reflexivity.
Qed.

Lemma parse_tree_statement_fuel_after {Num} (float_one : Num) meta ev
  (self : NewickReader Num) fuel tree_factory mapper s tree s' :
  _parse_tree_statement_fuel float_one meta ev self fuel tree_factory mapper s
    = Return (Some tree, s') ->
  token_is (nexus_tokenizer s') ";" && negb (is_eof (nexus_tokenizer s'))
    = false /\
  tree_statement_complete s' = Some true.
Proof.
  unfold _parse_tree_statement_fuel. intros H.
  apply bind_Return in H. destruct H as (started & s0 & _ & H).
  destruct started as [tree0|]; [|unfold ret in H; discriminate].
  apply bind_Return in H. destruct H as (seed & s1 & _ & H).
  unfold end_tree_statement in H. rewrite bind_current, bind_get in H.
  destruct (tree_statement_complete s1) as [[|]|] eqn:Hc; cbn in H;
    try discriminate.
  apply bind_Return in H. destruct H as (u & s2 & Hs & H).
  unfold ret in H. injection H as _ <-.
  apply skip_semicolons_exit in Hs; [|reflexivity].
  destruct Hs as (Hx & _ & Hf). split; [exact Hx|]. congruence.
Qed.

(* ================================================================== *)
(** ** Reading back what was written down *)

Lemma plain_labelled_eq {Num} (self : NewickReader Num) (n : Node Num) :
  plain_labelled self n
  = is_None (taxon n) && is_None (edge_length n) && is_nil (comments n)
    && is_nil (annotations n)
    && match label n with
       | Some l => label_token l && String.eqb (label_text self l) l
       | None => negb (is_nil (_child_nodes n))
       end
    && forallb (plain_labelled self) (_child_nodes n).
Proof. destruct n. reflexivity. Qed.

Lemma plain_labelled_fields {Num} (self : NewickReader Num) (n : Node Num) :
  plain_labelled self n = true ->
  n = mkNode (label n) None None [] [] (_child_nodes n) /\
  forallb (plain_labelled self) (_child_nodes n) = true /\
  match label n with
  | Some l => label_token l = true /\ label_text self l = l
  | None => _child_nodes n <> []
  end.
Proof.
  rewrite plain_labelled_eq. destruct n as [l t e c a ch].
  cbn [label taxon edge_length comments annotations _child_nodes].
  rewrite !andb_true_iff. intros [[[[[Ht He] Hc] Ha] Hl] Hch].
  destruct t; [discriminate|]. destruct e; [discriminate|].
  destruct c; [|discriminate]. destruct a; [|discriminate].
  split; [reflexivity|]. split; [exact Hch|].
  destruct l as [l|].
  - apply andb_true_iff in Hl. destruct Hl as [H1 H2].
    apply String.eqb_eq in H2. split; assumption.
  - destruct ch; [discriminate|]. discriminate.
Qed.

Lemma newick_items_eq {Num} (n : Node Num) :
  newick_items n
  = match _child_nodes n with
    | [] => []
    | c :: cs =>
        Tok "(" false :: newick_items c
        ++ flat_map (fun c' => Tok "," false :: newick_items c') cs
        ++ [Tok ")" false]
    end ++ slot_items (label n).
Proof. destruct n. reflexivity. Qed.

(** A description starts with a parenthesis or a label. *)
Lemma newick_items_head {Num} (self : NewickReader Num) (n : Node Num) :
  plain_labelled self n = true ->
  exists t r,
    newick_items n = Tok t false :: r /\
    String.eqb t "," = false /\ String.eqb t ")" = false /\
    String.eqb t "(" = has_children n.
Proof.
  intros H. destruct (plain_labelled_fields self n H) as (_ & _ & Hl).
  rewrite newick_items_eq. unfold has_children.
  destruct (_child_nodes n) as [|c cs].
  - destruct (label n) as [l|]; [|congruence]. destruct Hl as [Hl _].
    destruct (label_token_neq l Hl) as (H1 & H2 & H3 & H4 & H5).
    exists l, []. repeat split; assumption.
  - eexists. eexists. split; [reflexivity|]. repeat split; reflexivity.
Qed.

Lemma node_size_eq {Num} (n : Node Num) :
  node_size n = S (list_sum (map node_size (_child_nodes n))).
Proof. destruct n. reflexivity. Qed.

Lemma fold_add_child {Num} (cs : list (Node Num)) :
  forall n,
    fold_left add_child cs n
    = mkNode (label n) (taxon n) (edge_length n) (comments n) (annotations n)
             (_child_nodes n ++ cs).
Proof.
  induction cs as [|c cs IH]; intros n; cbn [fold_left].
  - rewrite app_nil_r. destruct n; reflexivity.
  - rewrite IH. unfold add_child. cbn. rewrite <- app_assoc. reflexivity.
Qed.

Section ReadBack.
Context {Num : Type}.
Variable meta : string -> list Annotation.
Variable self : NewickReader Num.
Variable mapper : TaxonSymbolMapFunc.
Hypothesis Hfinish : finish_node_func self = None.
Hypothesis Hinternal : suppress_internal_node_taxa self = true.
Hypothesis Hexternal : suppress_external_node_taxa self = true.

Lemma finished (n : Node Num) :
  _finish_node self (_process_node_comments meta self n []) = n.
Proof. unfold _finish_node. rewrite Hfinish. reflexivity. Qed.

(** The label phase at the token that ends the node. *)
Lemma label_loop_at_end fuel flag (node : Node Num) lp x xq rest ns :
  node_end x = true ->
  label_loop meta self (S fuel) mapper flag node [] lp
    (mkState (mkTokenizer rest (Some x) xq []) ns (Some false))
  = Return (node, after_node x xq rest ns).
Proof.
  intros Hx. rewrite label_loop_S. exec. cbn [app]. rewrite finished.
  unfold node_end in Hx. cbn [existsb] in Hx. unfold after_node.
  destruct (String.eqb x ",") eqn:H1.
  { apply String.eqb_eq in H1. subst x. reflexivity. }
  destruct (String.eqb x ")") eqn:H2.
  { apply String.eqb_eq in H2. subst x. reflexivity. }
  destruct (String.eqb x ";") eqn:H3; [|discriminate].
  apply String.eqb_eq in H3. subst x. reflexivity.
Qed.

(** The label phase of a node with children: an optional label, then the
    end of the node. *)
Lemma label_loop_after_children fuel (node : Node Num) lbl x xq rest ns :
  match lbl with
  | Some l => label_token l = true /\ label_text self l = l
  | None => True
  end ->
  node_end x = true -> label node = None ->
  label_loop meta self (S (S fuel)) mapper (Some true) node [] false
    (state_on (slot_items lbl ++ Tok x xq :: rest) ns (Some false))
  = Return (set_label node lbl, after_node x xq rest ns).
Proof.
  intros Hl Hx Hnone. destruct lbl as [l|]; cbn [slot_items app state_on].
  - destruct Hl as [Hl Ht].
    destruct (label_token_neq l Hl) as (H1 & H2 & H3 & H4 & H5).
    rewrite label_loop_S. exec. rewrite H1, H2, H3, H4, H5. exec.
    unfold label_of_token. cbn [is_token_quoted negb current_token].
    rewrite andb_true_r.
    assert (Etext : (if negb (preserve_underscores self)
                     then Ok (Some (replace_underscores l))
                     else Ok (Some l)) = @Ok (option string) (Some l)).
    { unfold label_text in Ht. destruct (preserve_underscores self);
        cbn [negb]; [reflexivity|]. rewrite Ht. reflexivity. }
    rewrite Etext. exec. unfold store_label. rewrite Hinternal.
    cbn [is_true andb orb]. exec. cbn [app].
    rewrite label_loop_at_end by exact Hx. reflexivity.
  - rewrite label_loop_at_end by exact Hx.
    replace (set_label node None) with node
      by (destruct node; cbn in Hnone; subst; reflexivity).
    reflexivity.
Qed.

Lemma state_on_items (n : Node Num) t r tail ns fl :
  newick_items n = Tok t false :: r ->
  state_on (newick_items n ++ tail) ns fl
  = mkState (mkTokenizer (r ++ tail) (Some t) false []) ns fl.
Proof. intros ->. reflexivity. Qed.

(** The children between the parentheses, given that the recursive call
    reads each of them back. *)
Lemma children_loop_read_back descend a aq after :
  forall cs c fc node created ns flag0,
    (forall c', In c' (c :: cs) ->
       plain_labelled self c' = true /\
       forall x xq rest ns fl,
         x = "," \/ x = ")" ->
         descend node_factory (Some (has_children c'))
                 (state_on (newick_items c' ++ Tok x xq :: rest) ns fl)
         = Return (c', mkState (mkTokenizer rest (Some x) xq []) ns
                               (Some false))) ->
    2 * List.length (c :: cs) <= fc ->
    children_loop meta self descend fc node created
      (state_on (newick_items c
                 ++ flat_map (fun c' => Tok "," false :: newick_items c') cs
                 ++ Tok ")" false :: Tok a aq :: after) ns flag0)
    = Return (fold_left add_child (c :: cs) node,
              mkState (mkTokenizer after (Some a) aq []) ns (Some false)).
Proof.
  induction cs as [|c' cs IH]; intros c fc node created ns flag0 Hd Hf.
  - destruct (Hd c (or_introl eq_refl)) as [Hc Hdc].
    destruct (newick_items_head self c Hc) as (t & r & E & H1 & H2 & H3).
    cbn [List.length] in Hf. destruct fc as [|[|fc]]; [lia|lia|].
    cbn [flat_map app].
    specialize (Hdc ")" false (Tok a aq :: after) ns flag0
                    (or_intror eq_refl)).
    rewrite (state_on_items c t r _ ns flag0 E) in *.
    rewrite children_loop_S. exec. rewrite H1, H2, H3. exec.
    cbn [_process_node_comments fold_left].
    rewrite (bind_step _ _ _ _ _ Hdc).
    rewrite children_loop_S. exec. reflexivity.
  - destruct (Hd c (or_introl eq_refl)) as [Hc Hdc].
    destruct (Hd c' (or_intror (or_introl eq_refl))) as [Hc' _].
    destruct (newick_items_head self c Hc) as (t & r & E & H1 & H2 & H3).
    destruct (newick_items_head self c' Hc') as (t' & r' & E' & H1' & H2' & _).
    cbn [List.length] in Hf. destruct fc as [|[|[|fc]]]; try lia.
    cbn [flat_map app]. rewrite <- !app_assoc.
    specialize (Hdc "," false
                    (newick_items c'
                     ++ flat_map (fun c' => Tok "," false :: newick_items c') cs
                     ++ Tok ")" false :: Tok a aq :: after)
                    ns flag0 (or_introl eq_refl)).
    cbn [app] in *.
    rewrite (state_on_items c t r _ ns flag0 E) in *.
    rewrite children_loop_S. exec. rewrite H1, H2, H3. exec.
    cbn [_process_node_comments fold_left].
    rewrite (bind_step _ _ _ _ _ Hdc).
    rewrite children_loop_S. exec.
    rewrite E'. cbn [app]. exec.
    rewrite blank_nodes_loop_S. exec. rewrite H1'. exec.
    rewrite <- (state_on_items c' t' r' _ ns (Some false) E').
    cbn [fold_left].
    apply (IH c' (S fc) (add_child node c) true ns (Some false)).
    + intros c0 Hin. apply Hd. right. exact Hin.
    + cbn [List.length]. lia.
Qed.

(** A node with children, given that the recursive call reads each child
    back. *)
Lemma inner_read_back fuel flag lbl c cs x xq rest ns fl :
  match lbl with
  | Some l => label_token l = true /\ label_text self l = l
  | None => True
  end ->
  node_end x = true ->
  flag = None \/ flag = Some true ->
  (forall c', In c' (c :: cs) ->
     plain_labelled self c' = true /\
     forall x xq rest ns fl,
       x = "," \/ x = ")" ->
       _parse_tree_node_description meta self (S (S fuel)) mapper node_factory
         (Some (has_children c'))
         (state_on (newick_items c' ++ Tok x xq :: rest) ns fl)
       = Return (c', mkState (mkTokenizer rest (Some x) xq []) ns
                             (Some false))) ->
  2 * List.length (c :: cs) <= S (S fuel) ->
  _parse_tree_node_description meta self (S (S (S fuel))) mapper node_factory
    flag
    (state_on (newick_items (mkNode lbl None None [] [] (c :: cs))
               ++ Tok x xq :: rest) ns fl)
  = Return (mkNode lbl None None [] [] (c :: cs), after_node x xq rest ns).
Proof.
  intros Hl Hx Hflag Hd Hf.
  destruct (Hd c (or_introl eq_refl)) as [Hc _].
  destruct (newick_items_head self c Hc) as (t & r & E & _).
  remember (slot_items lbl ++ Tok x xq :: rest) as tail eqn:Etail.
  assert (Htail : exists a aq after, tail = Tok a aq :: after).
  { subst tail. destruct lbl; cbn; eauto. }
  destruct Htail as (a & aq & after & Htail).
  assert (Hitems : newick_items (mkNode lbl None None [] [] (c :: cs))
                   ++ Tok x xq :: rest
                   = Tok "(" false :: newick_items c
                     ++ flat_map (fun c' => Tok "," false :: newick_items c') cs
                     ++ Tok ")" false :: tail).
  { cbn [newick_items]. subst tail. cbn [app].
    rewrite <- !app_assoc. reflexivity. }
  rewrite Hitems. cbn [state_on].
  rewrite parse_tree_node_description_S. exec.
  pose proof (children_loop_read_back
                (_parse_tree_node_description meta self (S (S fuel)) mapper)
                a aq after cs c (S (S fuel)) node_factory false ns fl Hd Hf)
    as Hchildren.
  rewrite <- Htail in Hchildren.
  rewrite (state_on_items c t r _ ns fl E) in Hchildren.
  rewrite E. cbn [app]. exec.
  rewrite (bind_step _ _ _ _ _ Hchildren). exec.
  rewrite fold_add_child. cbn [label taxon edge_length comments annotations
    _child_nodes node_factory app has_children].
  replace (match flag with
           | Some b => Some b
           | None => Some true
           end) with (Some true)
    by (destruct Hflag as [-> | ->]; reflexivity).
  pose proof (label_loop_after_children fuel
                (mkNode None None None [] [] (c :: cs)) lbl x xq rest ns
                Hl Hx eq_refl) as Hlabel.
  rewrite <- Etail, Htail in Hlabel. cbn [state_on] in Hlabel.
  rewrite Hlabel. reflexivity.
Qed.

Lemma node_size_in (c : Node Num) cs :
  In c cs -> node_size c <= list_sum (map node_size cs).
Proof.
  induction cs as [|c' cs IH]; [contradiction|]. simpl.
  intros [-> | H]; [lia|]. specialize (IH H). lia.
Qed.

Lemma node_size_length (cs : list (Node Num)) :
  List.length cs <= list_sum (map node_size cs).
Proof.
  induction cs as [|c cs IH]; [reflexivity|]. simpl.
  pose proof (node_size_eq c) as Hc. lia.
Qed.

(** Every node description is read back as the node it was written from. *)
Lemma node_read_back :
  forall k (n : Node Num),
    node_size n <= k -> plain_labelled self n = true ->
    forall fuel x xq rest ns fl,
      x = "," \/ x = ")" -> 2 * node_size n + 1 <= fuel ->
      _parse_tree_node_description meta self fuel mapper node_factory
        (Some (has_children n))
        (state_on (newick_items n ++ Tok x xq :: rest) ns fl)
      = Return (n, mkState (mkTokenizer rest (Some x) xq []) ns (Some false)).
Proof.
  induction k as [|k IH]; intros n Hk Hn fuel x xq rest ns fl Hx Hf.
  { rewrite node_size_eq in Hk. lia. }
  destruct (plain_labelled_fields self n Hn) as (En & Hch & Hl).
  rewrite node_size_eq in Hk, Hf. unfold has_children.
  rewrite En. cbn [_child_nodes].
  destruct (_child_nodes n) as [|c cs] eqn:Echildren.
  - destruct (label n) as [l|]; [|congruence]. destruct Hl as [Hl Ht].
    destruct fuel as [|[|[|fuel]]]; try (cbn in Hf; lia).
    cbn [newick_items slot_items app state_on].
    rewrite (leaf_description meta self fuel mapper node_factory l x xq rest
               ns fl Hl Hx).
    rewrite Hexternal, Ht. unfold _finish_node. rewrite Hfinish. reflexivity.
  - destruct fuel as [|[|[|fuel]]]; try (cbn in Hf; lia).
    rewrite (inner_read_back fuel (Some true) (label n) c cs x xq rest ns fl).
    + unfold after_node.
      destruct Hx as [-> | ->]; reflexivity.
    + destruct (label n); [exact Hl|exact I].
    + unfold node_end. destruct Hx as [-> | ->]; reflexivity.
    + right. reflexivity.
    + intros c' Hin. split.
      * rewrite forallb_forall in Hch. apply Hch. exact Hin.
      * intros x0 xq0 rest0 ns0 fl0 Hx0.
        pose proof (node_size_in c' _ Hin) as Hsize.
        apply IH; try assumption; try lia.
        rewrite forallb_forall in Hch. apply Hch. exact Hin.
    + pose proof (node_size_length (c :: cs)) as Hlen. lia.
Qed.

(** *** The statement *)

Variable float_one : Num.
Variable ev : string -> result Num.

Lemma process_no_tree_comments (tree_factory : Tree Num) :
  known_rooting (_rooting self) = true ->
  exists tree0,
    _process_tree_comments float_one meta ev self tree_factory [] = Ok tree0 /\
    seed_node tree0 = seed_node tree_factory /\
    tree_comments tree0 = tree_comments tree_factory /\
    Ok (is_rooted tree0) = _parse_tree_rooting_state self EmptyString.
Proof.
  intros Hk.
  destruct (process_tree_comments_with_spec float_one meta self
              (weight_try_body ev) tree_factory [] Hk)
    as (tree0 & E & Hseed & Hc & Hr & _).
  { intros _ c []. }
  exists tree0. cbn [filter] in Hc. rewrite app_nil_r in Hc.
  repeat split; assumption.
Qed.

(** [begin_tree_statement] when the reader stands on the opening
    parenthesis already. *)
Lemma begin_tree_statement_on fuel tree_factory i rest ns fl :
  begin_tree_statement float_one meta ev self (S fuel) tree_factory
    (mkState (mkTokenizer (i :: rest) (Some "(") false []) ns fl)
  = match _process_tree_comments float_one meta ev self tree_factory [] with
    | Ok tree =>
        Return (Some tree,
                mkState (mkTokenizer (i :: rest) (Some "(") false []) ns
                        (Some false))
    | Raise e => Throw e
    end.
Proof.
  unfold begin_tree_statement. cbn [skip_to_statement]. exec.
  destruct (_process_tree_comments float_one meta ev self tree_factory []);
    exec; reflexivity.
Qed.

Lemma statement_read_back_from tree_factory tree0 (n : Node Num) ns s more :
  seed_node tree0 = node_factory ->
  plain_labelled self n = true -> _child_nodes n <> [] ->
  more = [] \/ (exists r, more = Tok "(" false :: r) ->
  (forall fuel,
      begin_tree_statement float_one meta ev self (S (S fuel)) tree_factory s
      = Return (Some tree0,
                state_on (newick_statement n ++ more) ns (Some false))) ->
  _parse_tree_statement float_one meta ev self tree_factory mapper s
  = Return (Some (set_seed_node tree0 n), state_on more ns (Some true)).
Proof.
  intros Hseed Hn Hch Hmore Hbegin.
  remember (remaining s + 2 * node_size n) as fuel eqn:Efuel.
  rewrite <- (parse_tree_statement_fuel_enough float_one meta ev self
                (S (S (S fuel))) tree_factory mapper s) by lia.
  destruct (plain_labelled_fields self n Hn) as (En & Hchildren & Hl).
  destruct (_child_nodes n) as [|c cs] eqn:Echildren; [congruence|].
  unfold _parse_tree_statement_fuel.
  rewrite (bind_step _ _ _ _ _ (Hbegin (S fuel))).
  unfold newick_statement. rewrite <- app_assoc. cbn [app].
  rewrite Hseed, En.
  assert (Hnode :
    _parse_tree_node_description meta self (S (S (S fuel))) mapper
      node_factory None
      (state_on
         (newick_items (mkNode (label n) None None [] [] (c :: cs))
          ++ Tok ";" false :: more) ns (Some false))
    = Return (mkNode (label n) None None [] [] (c :: cs),
              after_node ";" false more ns)).
  { apply inner_read_back.
    - destruct (label n); [exact Hl|exact I].
    - reflexivity.
    - left. reflexivity.
    - intros c' Hin. split.
      + rewrite forallb_forall in Hchildren. apply Hchildren. exact Hin.
      + intros x xq rest0 ns0 fl0 Hx.
        pose proof (node_size_in c' _ Hin) as Hsize.
        pose proof (node_size_eq n) as Hsn. rewrite Echildren in Hsn.
        apply (node_read_back (node_size c')); try assumption; try lia.
        rewrite forallb_forall in Hchildren. apply Hchildren. exact Hin.
    - pose proof (node_size_length (c :: cs)) as Hlen.
      pose proof (node_size_eq n) as Hsn. rewrite Echildren in Hsn. lia. }
  rewrite (bind_step _ _ _ _ _ Hnode).
  unfold after_node. cbn [String.eqb Ascii.eqb Bool.eqb andb].
  unfold end_tree_statement.
  destruct Hmore as [-> | [r ->]]; exec; cbn [skip_semicolons]; exec;
    reflexivity.
Qed.

Lemma newick_statement_head (n : Node Num) :
  _child_nodes n <> [] ->
  exists i rest, newick_statement n = Tok "(" false :: i :: rest.
Proof.
  intros Hch. unfold newick_statement. rewrite newick_items_eq.
  destruct (_child_nodes n) as [|c cs]; [congruence|].
  cbn [app].
  destruct (newick_items c ++ flat_map (fun c' => Tok "," false :: newick_items c') cs
            ++ [Tok ")" false]) as [|i rest] eqn:E.
  - apply app_eq_nil in E. destruct E as [_ E].
    apply app_eq_nil in E. destruct E as [_ E]. discriminate E.
  - cbn [app]. eauto.
Qed.

Lemma statement_read_back tree_factory (n : Node Num) ns :
  known_rooting (_rooting self) = true ->
  seed_node tree_factory = node_factory ->
  plain_labelled self n = true -> _child_nodes n <> [] ->
  exists tree0,
    _process_tree_comments float_one meta ev self tree_factory [] = Ok tree0 /\
    _parse_tree_statement float_one meta ev self tree_factory mapper
      (fresh_state (newick_statement n) ns)
    = Return (Some (set_seed_node tree0 n),
              mkState (mkTokenizer [] None false []) ns (Some true)).
Proof.
  intros Hk Hseed Hn Hch.
  destruct (process_no_tree_comments tree_factory Hk)
    as (tree0 & Et & Hs0 & _).
  exists tree0. split; [exact Et|].
  apply (statement_read_back_from tree_factory tree0 n ns _ []);
    try assumption; try congruence; [left; reflexivity|].
  intros fuel. rewrite app_nil_r.
  destruct (newick_statement_head n Hch) as (i & rest & E). rewrite E.
  pose proof (begin_tree_statement_fresh float_one meta ev self fuel
                tree_factory [] false (i :: rest) ns) as Hb.
  cbn [map app] in Hb. rewrite Hb, Et. reflexivity.
Qed.

(** A stream of statements written one after the other. *)
Lemma stream_read_back tree_factory tree0 ns :
  _process_tree_comments float_one meta ev self tree_factory [] = Ok tree0 ->
  seed_node tree0 = node_factory ->
  forall trees k g,
    (forall n, In n trees ->
               plain_labelled self n = true /\ _child_nodes n <> []) ->
    g = AtStart (fresh_state (flat_map newick_statement trees) ns) \/
    (exists t, g = AtYield (Some t)
                     (state_on (flat_map newick_statement trees) ns
                               (Some true))) ->
    List.length trees + 2 <= k ->
    collect float_one meta ev self k tree_factory mapper g
    = Return (map (fun n => Some (set_seed_node tree0 n)) trees ++ [None]).
Proof.
  intros Et Hseed.
  induction trees as [|n trees IH]; intros k g Hall Hg Hk.
  - destruct k as [|[|k]]; [cbn in Hk; lia|cbn in Hk; lia|].
    cbn [flat_map] in Hg.
    assert (Hs : forall s,
               is_eof (nexus_tokenizer s) = true ->
               run_to_yield float_one meta ev self tree_factory mapper s
               = Yielded None (AtYield None (drained s))).
    { intros s Heof. unfold run_to_yield.
      rewrite (parse_tree_statement_at_eof float_one meta ev self
                 tree_factory mapper s Heof). reflexivity. }
    destruct Hg as [-> | [t ->]]; cbn [collect generator_next];
      rewrite Hs by reflexivity; reflexivity.
  - destruct k as [|k]; [cbn in Hk; lia|].
    destruct (Hall n (or_introl eq_refl)) as [Hn Hch].
    cbn [flat_map map app].
    assert (Hmore : flat_map newick_statement trees = []
                    \/ exists r, flat_map newick_statement trees
                                 = Tok "(" false :: r).
    { destruct trees as [|n' trees']; [left; reflexivity|right].
      destruct (Hall n' (or_intror (or_introl eq_refl))) as [_ Hch'].
      destruct (newick_statement_head n' Hch') as (i & rest & E).
      cbn [flat_map]. rewrite E. cbn [app]. eauto. }
    destruct (newick_statement_head n Hch) as (i & rest & E).
    assert (Hparse : forall s,
               s = fresh_state (newick_statement n
                                ++ flat_map newick_statement trees) ns
               \/ s = state_on (newick_statement n
                                ++ flat_map newick_statement trees) ns
                               (Some true) ->
               _parse_tree_statement float_one meta ev self tree_factory
                 mapper s
               = Return (Some (set_seed_node tree0 n),
                         state_on (flat_map newick_statement trees) ns
                                  (Some true))).
    { intros s Hs.
      apply (statement_read_back_from tree_factory tree0 n ns s);
        try assumption.
      intros fuel. rewrite E. cbn [app state_on].
      destruct Hs as [-> | ->].
      - rewrite E. cbn [app].
        pose proof (begin_tree_statement_fresh float_one meta ev self fuel
                      tree_factory [] false
                      (i :: rest ++ flat_map newick_statement trees) ns) as Hb.
        cbn [map app] in Hb. rewrite Hb, Et. reflexivity.
      - rewrite E. cbn [app state_on].
        rewrite begin_tree_statement_on, Et. reflexivity. }
    cbn [collect].
    assert (Hnext : generator_next float_one meta ev self tree_factory mapper g
                    = Yielded (Some (set_seed_node tree0 n))
                        (AtYield (Some (set_seed_node tree0 n))
                           (state_on (flat_map newick_statement trees) ns
                                     (Some true)))).
    { destruct Hg as [-> | [t ->]]; cbn [generator_next]; unfold run_to_yield;
        rewrite Hparse by (auto); reflexivity. }
    rewrite Hnext.
    rewrite (IH k (AtYield (Some (set_seed_node tree0 n))
                     (state_on (flat_map newick_statement trees) ns
                               (Some true)))).
    + reflexivity.
    + intros n' Hin. apply Hall. right. exact Hin.
    + right. eauto.
    + cbn [List.length] in Hk. lia.
Qed.

End ReadBack.

(* ================================================================== *)
(** ** Annotations of a tree *)

Lemma try_set_weight_annotations {Num} (body : result Num) (tree tree' : Tree Num) :
  try_set_weight body tree = Ok tree' ->
  tree_annotations tree' = tree_annotations tree.
Proof.
  unfold try_set_weight. destruct body as [w|[]]; intros E;
    try discriminate; injection E as <-; reflexivity.
Qed.

Lemma for_each_tree_annotations {Num} (meta : string -> list Annotation)
  (self : NewickReader Num) try_body batch :
  forall st st',
    for_each (process_tree_comment meta self try_body) batch st = Ok st' ->
    tree_annotations (tcs_tree st')
    = tree_annotations (tcs_tree st)
      ++ flat_map meta (filter (tree_metadata_comment meta self) batch).
Proof.
  induction batch as [|c rest IH]; intros st st' H; simpl in H.
  - injection H as <-. cbn. rewrite app_nil_r. reflexivity.
  - destruct (process_tree_comment meta self try_body st c) as [st1|e] eqn:E;
      [|discriminate].
    rewrite (IH _ _ H). clear IH H. cbn [filter].
    unfold process_tree_comment in E.
    unfold tree_metadata_comment, metadata_comment.
    destruct (is_rooting_comment c); cbn [negb andb].
    { destruct (_parse_tree_rooting_state self c); [|discriminate].
      injection E as <-. reflexivity. }
    destruct (is_weight_comment c); cbn [negb andb].
    { destruct (store_tree_weights self).
      - destruct (try_set_weight (try_body c) (tcs_tree st)) as [t'|e] eqn:Et;
          [|discriminate].
        injection E as <-. cbn [tcs_tree].
        rewrite (try_set_weight_annotations _ _ _ Et). reflexivity.
      - injection E as <-. reflexivity. }
    destruct (extract_comment_metadata self && String.prefix "&" c);
      cbn [andb].
    + unfold _parse_comment_metadata in E.
      destruct (meta c) as [|a l] eqn:Em; injection E as <-; cbn [tcs_tree].
      * reflexivity.
      * cbn [flat_map tree_update_annotations tree_annotations].
        rewrite Em, <- app_assoc. reflexivity.
    + injection E as <-. reflexivity.
Qed.

Lemma process_tree_comments_annotations {Num} (float_one : Num) meta
  (self : NewickReader Num) try_body tree batch tree' :
  _process_tree_comments_with float_one meta self try_body tree batch
    = Ok tree' ->
  tree_annotations tree'
  = tree_annotations tree
    ++ flat_map meta (filter (tree_metadata_comment meta self) batch).
Proof.
  unfold _process_tree_comments_with. intros H.
  destruct (for_each _ batch _) as [st|e] eqn:E; [|discriminate].
  apply for_each_tree_annotations in E. cbn [tcs_tree] in E. rewrite <- E.
  unfold finish_tree_comments in H.
  destruct (rooting_token_found st).
  - destruct (_ && _); injection H as <-; reflexivity.
  - destruct (_parse_tree_rooting_state self EmptyString); [|discriminate].
    destruct (_ && _); injection H as <-; reflexivity.
Qed.

(* ================================================================== *)
(** ** Child lists with empty slots, at any depth *)

Lemma as_read_eq {Num} (n : Node Num) :
  as_read n
  = mkNode (label n) (taxon n) (edge_length n) (comments n) (annotations n)
           (read_children (map slot (_child_nodes n))).
Proof. destruct n. reflexivity. Qed.

Lemma plain_slots_eq {Num} (self : NewickReader Num) (n : Node Num) :
  plain_slots self n
  = is_None (taxon n) && is_None (edge_length n) && is_nil (comments n)
    && is_nil (annotations n)
    && match label n with
       | Some l => label_token l && String.eqb (label_text self l) l
       | None => true
       end
    && forallb (plain_slots self) (_child_nodes n).
Proof. destruct n. reflexivity. Qed.

Lemma plain_slots_fields {Num} (self : NewickReader Num) (n : Node Num) :
  plain_slots self n = true ->
  n = mkNode (label n) None None [] [] (_child_nodes n) /\
  forallb (plain_slots self) (_child_nodes n) = true /\
  match label n with
  | Some l => label_token l = true /\ label_text self l = l
  | None => True
  end.
Proof.
  rewrite plain_slots_eq. destruct n as [l t e c a ch].
  cbn [label taxon edge_length comments annotations _child_nodes].
  rewrite !andb_true_iff. intros [[[[[Ht He] Hc] Ha] Hl] Hch].
  destruct t; [discriminate|]. destruct e; [discriminate|].
  destruct c; [|discriminate]. destruct a; [|discriminate].
  split; [reflexivity|]. split; [exact Hch|].
  destruct l as [l|]; [|exact I].
  apply andb_true_iff in Hl. destruct Hl as [H1 H2].
  apply String.eqb_eq in H2. split; assumption.
Qed.

(** An empty slot is written as nothing and read as a blank node. *)
Lemma empty_slot_written {Num} (self : NewickReader Num) (n : Node Num) :
  plain_slots self n = true -> empty_slot n = true ->
  newick_items n = [] /\ as_read n = node_factory.
Proof.
  intros Hn He. destruct (plain_slots_fields self n Hn) as (En & _ & _).
  unfold empty_slot in He. apply andb_true_iff in He. destruct He as [Hl Hc].
  rewrite as_read_eq, newick_items_eq.
  destruct (label n); [discriminate|].
  destruct (_child_nodes n); [|discriminate].
  rewrite En. cbn. split; reflexivity.
Qed.

(** Any other node is written as a description that starts with a
    parenthesis or a label. *)
Lemma slot_written_head {Num} (self : NewickReader Num) (n : Node Num) :
  plain_slots self n = true -> empty_slot n = false ->
  exists t r,
    newick_items n = Tok t false :: r /\
    String.eqb t "," = false /\ String.eqb t ")" = false /\
    String.eqb t "(" = has_children n.
Proof.
  intros Hn He. destruct (plain_slots_fields self n Hn) as (_ & _ & Hl).
  rewrite newick_items_eq. unfold has_children, empty_slot in *.
  destruct (_child_nodes n) as [|c cs].
  - destruct (label n) as [l|]; [|discriminate]. destruct Hl as [Hl _].
    destruct (label_token_neq l Hl) as (H1 & H2 & H3 & H4 & H5).
    exists l, []. repeat split; assumption.
  - eexists. eexists. split; [reflexivity|]. repeat split; reflexivity.
Qed.

(** What follows a separator starts with a token. *)
Lemma written_head {Num} (c : Node Num) cs tail :
  exists t r0,
    newick_items c
    ++ flat_map (fun c' : Node Num => Tok "," false :: newick_items c') cs
    ++ Tok ")" false :: tail = Tok t false :: r0.
Proof.
  assert (Hitems : forall n : Node Num,
             newick_items n = [] \/
             exists t r, newick_items n = Tok t false :: r).
  { intros n. rewrite newick_items_eq.
    destruct (_child_nodes n) as [|c0 cs0].
    - destruct (label n); cbn; eauto.
    - right. cbn. eauto. }
  destruct (Hitems c) as [-> | (t & r & ->)]; [|cbn; eauto].
  cbn [app]. destruct cs as [|c' cs']; cbn; eauto.
Qed.

Lemma read_slots_fold {Num} (x : Node Num) l node :
  fold_left add_child (x :: l) node = fold_left add_child l (add_child node x).
Proof. reflexivity. Qed.

Section ReadSlots.
Context {Num : Type}.
Variable meta : string -> list Annotation.
Variable self : NewickReader Num.
Variable mapper : TaxonSymbolMapFunc.
Hypothesis Hfinish : finish_node_func self = None.
Hypothesis Hinternal : suppress_internal_node_taxa self = true.
Hypothesis Hexternal : suppress_external_node_taxa self = true.


Lemma read_slots_created (c : Node Num) (more : list (bool * Node Num))
  created :
  empty_slot c = false ->
  read_slots created (slot c) more
  = as_read c :: match more with
                 | [] => []
                 | s :: rest => read_slots true s rest
                 end.
Proof.
  intros He. unfold slot. rewrite He.
  destruct more; cbn [read_slots fst snd andb negb]; [reflexivity|].
  rewrite orb_true_r. reflexivity.
Qed.

(** The child loop after a separator, given that the recursive call reads
    each written child back. *)
Lemma after_separator_read descend a aq after :
  forall cs c fb fc node created ns flag,
    (forall c', In c' (c :: cs) -> reads_child self descend c') ->
    List.length cs + 1 <= fb -> 2 * List.length cs + 2 <= fc ->
    exists flag',
      after_separator meta self descend fb fc node created
        (state_on (newick_items c
                   ++ flat_map (fun c' => Tok "," false :: newick_items c') cs
                   ++ Tok ")" false :: Tok a aq :: after) ns flag)
      = Return (fold_left add_child
                  (read_slots created (slot c) (map slot cs)) node,
                mkState (mkTokenizer after (Some a) aq []) ns flag').
Proof.
  induction cs as [|c' r IH]; intros c fb fc node created ns flag Hd Hfb Hfc.
  - destruct (Hd c (or_introl eq_refl)) as [Hc Hdc].
    cbn [List.length] in Hfb, Hfc.
    destruct fb as [|fb]; [lia|]. destruct fc as [|[|fc]]; try lia.
    cbn [flat_map app map].
    destruct (empty_slot c) eqn:He.
    + destruct (empty_slot_written self c Hc He) as [Ei Er].
      rewrite Ei. cbn [app state_on]. unfold slot. rewrite He, Er.
      cbn [read_slots fst snd andb].
      unfold after_separator. rewrite blank_nodes_loop_S. exec.
      destruct created; cbn [negb andb].
      * rewrite children_loop_S. exec. eexists. reflexivity.
      * erewrite bind_step
          by (apply (add_blank_child_on meta self Hfinish); reflexivity).
        unfold drained. exec. rewrite children_loop_S. exec.
        eexists. reflexivity.
    + destruct (slot_written_head self c Hc He) as (t & r0 & Ei & H1 & H2 & H3).
      specialize (Hdc eq_refl ")" false (Tok a aq :: after) ns flag
                      (or_intror eq_refl)).
      rewrite (read_slots_created c [] created He).
      rewrite Ei in *. cbn [app state_on] in *.
      unfold after_separator. rewrite blank_nodes_loop_S. exec.
      rewrite H1. exec. rewrite H2, andb_false_r.
      rewrite children_loop_S. exec. rewrite H1, H2, H3. exec.
      cbn [_process_node_comments fold_left].
      rewrite (bind_step _ _ _ _ _ Hdc).
      rewrite children_loop_S. exec. eexists. reflexivity.
  - destruct (Hd c (or_introl eq_refl)) as [Hc Hdc].
    assert (Hd' : forall c0, In c0 (c' :: r) -> reads_child self descend c0).
    { intros c0 Hin. apply Hd. right. exact Hin. }
    cbn [List.length] in Hfb, Hfc.
    destruct (written_head c' r (Tok a aq :: after)) as (t' & r0' & E).
    cbn [flat_map map]. rewrite <- !app_assoc. cbn [app].
    destruct (empty_slot c) eqn:He.
    + destruct (empty_slot_written self c Hc He) as [Ei Er].
      destruct fb as [|fb]; [lia|].
      destruct (IH c' fb fc (add_child node node_factory) created ns flag Hd'
                  ltac:(lia) ltac:(lia)) as (flag' & E').
      rewrite E in E'. unfold after_separator in E'. cbn [state_on] in E'.
      exists flag'.
      rewrite Ei. cbn [app state_on]. unfold slot at 1. rewrite He, Er.
      cbn [read_slots fst snd negb]. rewrite orb_false_r.
      rewrite read_slots_fold.
      unfold after_separator. rewrite blank_nodes_loop_S. exec.
      erewrite bind_step
        by (apply (add_blank_child_on meta self Hfinish); reflexivity).
      unfold drained. exec. rewrite E. exec. exact E'.
    + destruct (slot_written_head self c Hc He) as (t & r0 & Ei & H1 & H2 & H3).
      destruct fc as [|[|fc]]; try lia.
      destruct fb as [|fb]; [lia|].
      specialize (Hdc eq_refl "," false
                      (newick_items c'
                       ++ flat_map (fun c' => Tok "," false :: newick_items c') r
                       ++ Tok ")" false :: Tok a aq :: after)
                      ns flag (or_introl eq_refl)).
      destruct (IH c' fc fc (add_child node (as_read c)) true ns (Some false)
                  Hd' ltac:(lia) ltac:(lia)) as (flag' & E').
      rewrite E in E'. unfold after_separator in E'. cbn [state_on] in E'.
      exists flag'.
      rewrite (read_slots_created c (slot c' :: map slot r) created He).
      rewrite read_slots_fold.
      rewrite Ei in *. cbn [app state_on] in *.
      unfold after_separator. rewrite blank_nodes_loop_S. exec.
      rewrite H1. exec. rewrite H2, andb_false_r.
      rewrite children_loop_S. exec. rewrite H1, H2, H3. exec.
      cbn [_process_node_comments fold_left].
      rewrite (bind_step _ _ _ _ _ Hdc).
      rewrite children_loop_S. exec. rewrite E. exec. exact E'.
Qed.

(** The children between the parentheses. *)
Lemma children_loop_read descend a aq after cs c fc node ns flag :
  (forall c', In c' (c :: cs) -> reads_child self descend c') ->
  2 * List.length cs + 2 <= fc ->
  exists flag',
    children_loop meta self descend fc node false
      (state_on (newick_items c
                 ++ flat_map (fun c' => Tok "," false :: newick_items c') cs
                 ++ Tok ")" false :: Tok a aq :: after) ns flag)
    = Return (fold_left add_child (read_children (map slot (c :: cs))) node,
              mkState (mkTokenizer after (Some a) aq []) ns flag').
Proof.
  intros Hd Hfc.
  destruct (Hd c (or_introl eq_refl)) as [Hc Hdc].
  cbn [map read_children].
  destruct cs as [|c' r].
  - cbn [List.length] in Hfc. destruct fc as [|[|fc]]; try lia.
    cbn [flat_map app map is_nil]. rewrite andb_true_r.
    destruct (empty_slot c) eqn:He.
    + destruct (empty_slot_written self c Hc He) as [Ei Er].
      rewrite Ei. cbn [app state_on]. unfold slot. rewrite He.
      cbn [fst fold_left].
      rewrite children_loop_S. exec. eexists. reflexivity.
    + destruct (slot_written_head self c Hc He) as (t & r0 & Ei & H1 & H2 & H3).
      specialize (Hdc eq_refl ")" false (Tok a aq :: after) ns flag
                      (or_intror eq_refl)).
      replace (fst (slot c)) with false by (unfold slot; rewrite He; reflexivity).
      rewrite (read_slots_created c [] false He).
      rewrite Ei in *. cbn [app state_on] in *.
      rewrite children_loop_S. exec. rewrite H1, H2, H3. exec.
      cbn [_process_node_comments fold_left].
      rewrite (bind_step _ _ _ _ _ Hdc).
      rewrite children_loop_S. exec. eexists. reflexivity.
  - assert (Hd' : forall c0, In c0 (c' :: r) -> reads_child self descend c0).
    { intros c0 Hin. apply Hd. right. exact Hin. }
    cbn [List.length] in Hfc.
    destruct (written_head c' r (Tok a aq :: after)) as (t' & r0' & E).
    cbn [flat_map map is_nil]. rewrite andb_false_r.
    rewrite <- !app_assoc. cbn [app].
    destruct (empty_slot c) eqn:He.
    + destruct (empty_slot_written self c Hc He) as [Ei Er].
      destruct fc as [|fc]; [lia|].
      destruct (after_separator_read descend a aq after r c' fc fc
                  (add_child node node_factory) false ns flag Hd'
                  ltac:(lia) ltac:(lia)) as (flag' & E').
      rewrite E in E'. unfold after_separator in E'. cbn [state_on] in E'.
      exists flag'.
      rewrite Ei. cbn [app state_on]. unfold slot at 1. rewrite He, Er.
      cbn [read_slots fst snd negb orb].
      rewrite read_slots_fold.
      rewrite children_loop_S. exec.
      erewrite bind_step
        by (apply (add_blank_child_on meta self Hfinish); reflexivity).
      unfold drained. exec. rewrite E. exec. exact E'.
    + destruct (slot_written_head self c Hc He) as (t & r0 & Ei & H1 & H2 & H3).
      destruct fc as [|[|fc]]; try lia.
      specialize (Hdc eq_refl "," false
                      (newick_items c'
                       ++ flat_map (fun c' => Tok "," false :: newick_items c') r
                       ++ Tok ")" false :: Tok a aq :: after)
                      ns flag (or_introl eq_refl)).
      destruct (after_separator_read descend a aq after r c' fc fc
                  (add_child node (as_read c)) true ns (Some false)
                  Hd' ltac:(lia) ltac:(lia)) as (flag' & E').
      rewrite E in E'. unfold after_separator in E'. cbn [state_on] in E'.
      exists flag'.
      rewrite (read_slots_created c (slot c' :: map slot r) false He).
      rewrite read_slots_fold.
      rewrite Ei in *. cbn [app state_on] in *.
      rewrite children_loop_S. exec. rewrite H1, H2, H3. exec.
      cbn [_process_node_comments fold_left].
      rewrite (bind_step _ _ _ _ _ Hdc).
      rewrite children_loop_S. exec. rewrite E. exec. exact E'.
Qed.

(** The label phase of a node: an optional label, then the end of the
    node. With both suppressions on the label is stored as a plain string
    whatever the flag. *)
Lemma label_loop_plain fuel flag (node : Node Num) lbl x xq rest ns :
  match lbl with
  | Some l => label_token l = true /\ label_text self l = l
  | None => True
  end ->
  node_end x = true -> label node = None ->
  label_loop meta self (S (S fuel)) mapper flag node [] false
    (state_on (slot_items lbl ++ Tok x xq :: rest) ns (Some false))
  = Return (set_label node lbl, after_node x xq rest ns).
Proof.
  intros Hl Hx Hnone. destruct lbl as [l|]; cbn [slot_items app state_on].
  - destruct Hl as [Hl Ht].
    destruct (label_token_neq l Hl) as (H1 & H2 & H3 & H4 & H5).
    rewrite label_loop_S. exec. rewrite H1, H2, H3, H4, H5. exec.
    unfold label_of_token. cbn [is_token_quoted negb current_token].
    rewrite andb_true_r.
    assert (Etext : (if negb (preserve_underscores self)
                     then Ok (Some (replace_underscores l))
                     else Ok (Some l)) = @Ok (option string) (Some l)).
    { unfold label_text in Ht. destruct (preserve_underscores self);
        cbn [negb]; [reflexivity|]. rewrite Ht. reflexivity. }
    rewrite Etext. exec. unfold store_label. rewrite Hinternal, Hexternal.
    replace (is_true flag && true || negb (is_true flag) && true) with true
      by (destruct (is_true flag); reflexivity).
    exec. cbn [app].
    rewrite (label_loop_at_end meta self mapper Hfinish) by exact Hx.
    reflexivity.
  - rewrite (label_loop_at_end meta self mapper Hfinish) by exact Hx.
    replace (set_label node None) with node
      by (destruct node; cbn in Hnone; subst; reflexivity).
    reflexivity.
Qed.

(** A node written with parentheses, given that the recursive call reads
    each written child back. *)
Lemma inner_read fuel flag lbl c cs x xq rest ns fl :
  match lbl with
  | Some l => label_token l = true /\ label_text self l = l
  | None => True
  end ->
  node_end x = true ->
  (forall c', In c' (c :: cs) ->
     reads_child self
       (_parse_tree_node_description meta self (S (S fuel)) mapper) c') ->
  2 * List.length (c :: cs) <= S (S fuel) ->
  _parse_tree_node_description meta self (S (S (S fuel))) mapper node_factory
    flag
    (state_on (newick_items (mkNode lbl None None [] [] (c :: cs))
               ++ Tok x xq :: rest) ns fl)
  = Return (mkNode lbl None None [] [] (read_children (map slot (c :: cs))),
            after_node x xq rest ns).
Proof.
  intros Hl Hx Hd Hf.
  remember (slot_items lbl ++ Tok x xq :: rest) as tail eqn:Etail.
  assert (Htail : exists a aq after, tail = Tok a aq :: after).
  { subst tail. destruct lbl; cbn; eauto. }
  destruct Htail as (a & aq & after & Htail).
  assert (Hitems : newick_items (mkNode lbl None None [] [] (c :: cs))
                   ++ Tok x xq :: rest
                   = Tok "(" false :: newick_items c
                     ++ flat_map (fun c' => Tok "," false :: newick_items c') cs
                     ++ Tok ")" false :: tail).
  { cbn [newick_items]. subst tail. cbn [app].
    rewrite <- !app_assoc. reflexivity. }
  rewrite Hitems. cbn [state_on].
  rewrite parse_tree_node_description_S. exec.
  cbn [List.length] in Hf.
  destruct (children_loop_read
              (_parse_tree_node_description meta self (S (S fuel)) mapper)
              a aq after cs c (S (S fuel)) node_factory ns fl Hd
              ltac:(lia)) as (flag' & Hchildren).
  rewrite <- Htail in Hchildren.
  destruct (written_head c cs tail) as (t & r & E).
  rewrite E in Hchildren. cbn [state_on] in Hchildren.
  rewrite E. exec.
  rewrite (bind_step _ _ _ _ _ Hchildren). exec.
  rewrite fold_add_child. cbn [label taxon edge_length comments annotations
    _child_nodes node_factory app].
  pose proof (label_loop_plain fuel
                match flag with
                | Some b => Some b
                | None =>
                    if has_children
                         (mkNode None None None [] []
                            (read_children (map slot (c :: cs))))
                    then Some true else None
                end
                (mkNode None None None [] []
                   (read_children (map slot (c :: cs))))
                lbl x xq rest ns Hl Hx eq_refl) as Hlabel.
  rewrite <- Etail, Htail in Hlabel. cbn [state_on] in Hlabel.
  rewrite Hlabel. reflexivity.
Qed.

(** Every written node that is no empty slot is read back as [as_read]
    has it. *)
Lemma node_read :
  forall k (n : Node Num),
    node_size n <= k -> plain_slots self n = true -> empty_slot n = false ->
    forall fuel x xq rest ns fl,
      x = "," \/ x = ")" -> 2 * node_size n + 1 <= fuel ->
      _parse_tree_node_description meta self fuel mapper node_factory
        (Some (has_children n))
        (state_on (newick_items n ++ Tok x xq :: rest) ns fl)
      = Return (as_read n,
                mkState (mkTokenizer rest (Some x) xq []) ns (Some false)).
Proof.
  induction k as [|k IH]; intros n Hk Hn He fuel x xq rest ns fl Hx Hf.
  { rewrite node_size_eq in Hk. lia. }
  destruct (plain_slots_fields self n Hn) as (En & Hch & Hl).
  rewrite node_size_eq in Hk, Hf. unfold has_children, empty_slot in *.
  destruct n as [lb tx el cm an ch].
  cbn [_child_nodes label taxon edge_length comments annotations] in *.
  injection En as -> -> -> ->.
  destruct ch as [|c cs].
  - destruct lb as [l|]; [|discriminate]. destruct Hl as [Hl Ht].
    destruct fuel as [|[|[|fuel]]]; try (cbn in Hf; lia).
    cbn [newick_items slot_items app state_on map read_children as_read].
    rewrite (leaf_description meta self fuel mapper node_factory l x xq rest
               ns fl Hl Hx).
    rewrite Hexternal, Ht. unfold _finish_node. rewrite Hfinish. reflexivity.
  - destruct fuel as [|[|[|fuel]]]; try (cbn in Hf; lia).
    rewrite (inner_read fuel (Some true) lb c cs x xq rest ns fl).
    + unfold after_node.
      destruct Hx as [-> | ->]; reflexivity.
    + exact Hl.
    + unfold node_end. destruct Hx as [-> | ->]; reflexivity.
    + intros c' Hin. split.
      * rewrite forallb_forall in Hch. apply Hch. exact Hin.
      * intros He' x0 xq0 rest0 ns0 fl0 Hx0.
        pose proof (node_size_in c' _ Hin) as Hsize.
        apply IH; try assumption; try lia.
        rewrite forallb_forall in Hch. apply Hch. exact Hin.
    + pose proof (node_size_length (c :: cs)) as Hlen. lia.
Qed.

(** *** The statement *)

Variable float_one : Num.
Variable ev : string -> result Num.

Lemma statement_read tree_factory (n : Node Num) ns :
  known_rooting (_rooting self) = true ->
  seed_node tree_factory = node_factory ->
  plain_slots self n = true -> _child_nodes n <> [] ->
  exists tree0,
    _process_tree_comments float_one meta ev self tree_factory [] = Ok tree0 /\
    _parse_tree_statement float_one meta ev self tree_factory mapper
      (fresh_state (newick_statement n) ns)
    = Return (Some (set_seed_node tree0 (as_read n)),
              mkState (mkTokenizer [] None false []) ns (Some true)).
Proof.
  intros Hk Hseed Hn Hch.
  destruct (process_no_tree_comments meta self float_one ev tree_factory Hk)
    as (tree0 & Et & Hs0 & _).
  exists tree0. split; [exact Et|].
  remember (fresh_state (newick_statement n) ns) as s eqn:Es.
  remember (remaining s + 2 * node_size n) as fuel eqn:Efuel.
  rewrite <- (parse_tree_statement_fuel_enough float_one meta ev self
                (S (S (S fuel))) tree_factory mapper s) by lia.
  destruct (newick_statement_head n Hch) as (i & rest & E).
  destruct (plain_slots_fields self n Hn) as (En & Hchildren & Hl).
  pose proof (node_size_eq n) as Hsn.
  destruct n as [lb tx el cm an ch].
  cbn [_child_nodes label taxon edge_length comments annotations] in *.
  injection En as -> -> -> ->.
  destruct ch as [|c cs]; [congruence|].
  unfold _parse_tree_statement_fuel. subst s.
  pose proof (begin_tree_statement_fresh float_one meta ev self (S fuel)
                tree_factory [] false (i :: rest) ns) as Hb.
  cbn [map app] in Hb. rewrite <- E in Hb. rewrite Et in Hb.
  rewrite (bind_step _ _ _ _ _ Hb). clear Hb.
  rewrite Hs0, Hseed.
  assert (Hnode :
    _parse_tree_node_description meta self (S (S (S fuel))) mapper
      node_factory None
      (state_on
         (newick_items (mkNode lb None None [] [] (c :: cs))
          ++ Tok ";" false :: []) ns (Some false))
    = Return (mkNode lb None None [] []
                (read_children (map slot (c :: cs))),
              after_node ";" false [] ns)).
  { apply inner_read.
    - exact Hl.
    - reflexivity.
    - intros c' Hin. split.
      + rewrite forallb_forall in Hchildren. apply Hchildren. exact Hin.
      + intros He' x xq rest0 ns0 fl0 Hx.
        pose proof (node_size_in c' _ Hin) as Hsize.
        apply (node_read (node_size c')); try assumption; try lia.
        rewrite forallb_forall in Hchildren. apply Hchildren. exact Hin.
    - pose proof (node_size_length (c :: cs)) as Hlen. lia. }
  unfold newick_statement in E.
  assert (Hstate :
    mkState (mkTokenizer (i :: rest) (Some "(") false []) ns (Some false)
    = state_on
        (newick_items (mkNode lb None None [] [] (c :: cs))
         ++ Tok ";" false :: []) ns (Some false)).
  { rewrite E. reflexivity. }
  rewrite Hstate, (bind_step _ _ _ _ _ Hnode).
  unfold after_node. cbn [String.eqb Ascii.eqb Bool.eqb andb].
  unfold end_tree_statement. exec. cbn [skip_semicolons]. exec.
  reflexivity.
Qed.
End ReadSlots.

(* ================================================================== *)
(** ** Blank children: the claim *)

(** C2, as the code has it: the flag [node_created] is never reset, so a
    separator that follows a labelled child and precedes the closing
    parenthesis yields no blank child; the root of "(A,);" has one child. *)
Lemma trailing_separator_after_label_yields_no_child :
  read_trees default_reader "(A,);"
  = Return [Some (mkTree (root_of [leaf "A" 0]) (Some false) None [] []);
            None].
Proof. vm_compute. reflexivity. Qed.

(** C2, as the code has it in general: in a child list, every empty slot
    but the last yields a blank child (no label, no taxon), so leading and
    doubled separators each yield one; the empty slot before the closing
    ')' yields a blank child only when no labelled or parenthesized child
    was created before it in that list, and an empty pair of parentheses
    yields no child. In the order of the statement below: this holds of the
    list of labels and empty slots of the root, whose statement is read to
    its end with exactly these children in order; of such a list read as a
    node description anywhere else, whatever the flag it is read under and
    the node it is read into; and, with both taxon suppressions on, of
    every child list of every statement written from a tree of plain labels
    and empty slots, at any depth: the tree read is the tree written with
    the children of each list as [read_children] gives them. "(,A,,B);"
    yields blank, A, blank, B; the trailing separators of "(A,);", of
    "(A,,);" and of the nested lists of "((,A,,B),(,),(C,));" yield a blank
    child in the list of blanks only. *)
Theorem blank_children_of_separators :
  forall (Num : Type) (float_one : Num) (meta : string -> list Annotation)
         (ev : string -> result Num) (self : NewickReader Num)
         (tree_factory : Tree Num) (mapper : TaxonSymbolMapFunc)
         (first : option string) (more : list (option string))
         (ns : TaxonNamespace),
    known_rooting (_rooting self) = true ->
    finish_node_func self = None ->
    total_mapper mapper ->
    _child_nodes (seed_node tree_factory) = [] ->
    (forall l, In (Some l) (first :: more) -> label_token l = true) ->
    (exists tree s',
        _parse_tree_statement float_one meta ev self tree_factory mapper
          (fresh_state (child_list_statement first more) ns)
        = Return (Some tree, s') /\
        map is_blank (_child_nodes (seed_node tree))
        = map is_None (expected_children first more)) /\
    (forall fd flag node q a aq after fl,
        a = "," \/ a = ")" ->
        exists node' ns',
          _parse_tree_node_description meta self
            (S (S (S (S (2 * List.length more + fd))))) mapper node flag
            (mkState (mkTokenizer
                        (slots_items first more
                         ++ Tok ")" false :: Tok a aq :: after)
                        (Some "(") q []) ns fl)
          = Return (node', mkState (mkTokenizer after (Some a) aq []) ns'
                                   (Some false)) /\
          map is_blank (_child_nodes node')
          = map is_blank (_child_nodes node)
            ++ map is_None (expected_children first more)) /\
    (forall n : Node Num,
        suppress_internal_node_taxa self = true ->
        suppress_external_node_taxa self = true ->
        seed_node tree_factory = node_factory ->
        plain_slots self n = true -> _child_nodes n <> [] ->
        exists tree,
          _parse_tree_statement float_one meta ev self tree_factory mapper
            (fresh_state (newick_statement n) ns)
          = Return (Some tree,
                    mkState (mkTokenizer [] None false []) ns (Some true)) /\
          seed_node tree = as_read n) /\
    read_trees default_reader "(,A,,B);"
    = Return [Some (mkTree (root_of [node_factory; leaf "A" 0;
                                     node_factory; leaf "B" 1])
                           (Some false) None [] []); None] /\
    read_trees default_reader "(A,);"
    = Return [Some (mkTree (root_of [leaf "A" 0]) (Some false) None [] []);
              None] /\
    read_trees default_reader "(A,,);"
    = Return [Some (mkTree (root_of [leaf "A" 0; node_factory])
                           (Some false) None [] []); None] /\
    read_trees default_reader "((,A,,B),(,),(C,));"
    = Return [Some (mkTree
                      (root_of [root_of [node_factory; leaf "A" 0;
                                         node_factory; leaf "B" 1];
                                root_of [node_factory; node_factory];
                                root_of [leaf "C" 2]])
                      (Some false) None [] []); None].
Proof.
  intros Num float_one meta ev self tf mapper first more ns Hk Hfin Hmap Hseed Hl.
  split; [|split; [|split; [|repeat split; vm_compute; reflexivity]]].
  2:{ intros fd flag node q a aq after fl Ha.
      exact (description_flat meta self mapper Hfin Hmap fd flag node q first
               more a aq after ns fl Hl Ha). }
  2:{ intros n Hint Hext Hnf Hn Hch.
      destruct (statement_read meta self mapper Hfin Hint Hext float_one ev
                  tf n ns Hk Hnf Hn Hch) as (tree0 & _ & E).
      exists (set_seed_node tree0 (as_read n)).
      split; [exact E|reflexivity]. }
  destruct (process_tree_comments_with_spec float_one meta self
              (weight_try_body ev) tf [] Hk
              ltac:(intros _ c [])) as (tree0 & E0 & Hseed0 & _).
  destruct (slots_items_head first more [Tok ";" false]) as (t & r0 & E).
  pose proof (slots_items_length first more) as Hlen.
  unfold _parse_tree_statement, enough_fuel, fresh_state, child_list_statement,
    NexusTokenizer_init.
  cbn [nexus_tokenizer src List.length].
  set (n := List.length (slots_items first more ++ [Tok ")" false; Tok ";" false])).
  assert (Hn : List.length more + 2 <= n).
  { unfold n. rewrite length_app. simpl. lia. }
  replace (2 * S n + 4) with (S (S (S (S (2 * n + 2))))) by lia.
  destruct (children_loop_flat meta self mapper Hfin Hmap (2 * n + 2) ";" false
              [] first more (S (S (S (2 * n + 2)))) (seed_node tree0) ns
              (Some false) Hl ltac:(lia))
    as (node' & ns' & flag' & Ec & Hc).
  rewrite E in Ec. cbn [state_on] in Ec.
  exists (set_seed_node tree0 node').
  eexists. split.
  - unfold _parse_tree_statement_fuel.
    pose proof (begin_tree_statement_fresh float_one meta ev self
                  (S (S (2 * n + 2))) tf [] false
                  (slots_items first more ++ [Tok ")" false; Tok ";" false])
                  ns) as Hb.
    change (map Comment [] ++
            Tok "(" false
            :: slots_items first more ++ [Tok ")" false; Tok ";" false])
      with (Tok "(" false
            :: slots_items first more ++ [Tok ")" false; Tok ";" false]) in Hb.
    unfold fresh_state, NexusTokenizer_init in Hb.
    unfold _process_tree_comments in Hb. rewrite E0 in Hb.
    change (Tok ")" false :: [Tok ";" false])
      with [Tok ")" false; Tok ";" false] in E.
    rewrite E in Hb.
    replace (slots_items first more ++ [Tok ")" false; Tok ";" false])
      with (Tok t false :: r0).
    rewrite (bind_step _ _ _ _ _ Hb).
    rewrite parse_tree_node_description_S. exec.
    rewrite (bind_step _ _ _ _ _ Ec). exec.
    rewrite label_loop_S. exec. cbn [_process_node_comments fold_left].
    unfold _finish_node. rewrite Hfin.
    unfold end_tree_statement. exec.
    cbn [skip_semicolons]. exec. reflexivity.
  - cbn [set_seed_node seed_node]. rewrite Hc, Hseed0, Hseed. reflexivity.
Qed.

(** The theorem on the slots of "(,A,,B,);" and the default reader: the
    statement, and the same list nested, read under the flag of an internal
    node; and, with both taxon suppressions on, on the tree written as
    "((,A,,B),(,),(C,));". *)
Lemma blank_children_of_separators_witness :
  (exists tree s',
      _parse_tree_statement (PyFloat "1.0") key_value_annotations
        no_tree_weight default_reader new_tree require_taxon_for_symbol
        (fresh_state
           (child_list_statement None [Some "A"; None; Some "B"; None]) [])
      = Return (Some tree, s') /\
      map is_blank (_child_nodes (seed_node tree))
      = map is_None (expected_children None [Some "A"; None; Some "B"; None])) /\
  (exists node' ns',
      _parse_tree_node_description key_value_annotations default_reader
        (S (S (S (S (2 * List.length [Some "A"; None; Some "B"; None] + 0)))))
        require_taxon_for_symbol node_factory (Some true)
        (mkState (mkTokenizer
                    (slots_items None [Some "A"; None; Some "B"; None]
                     ++ Tok ")" false :: Tok "," false :: [Tok "C" false])
                    (Some "(") false []) [] (Some false))
      = Return (node', mkState (mkTokenizer [Tok "C" false] (Some ",") false [])
                               ns' (Some false)) /\
      map is_blank (_child_nodes node')
      = map is_blank (_child_nodes (@node_factory PyNumber))
        ++ map is_None
             (expected_children None [Some "A"; None; Some "B"; None])) /\
  (exists tree,
      _parse_tree_statement (PyFloat "1.0") key_value_annotations
        no_tree_weight (with_suppress_taxa default_reader true true) new_tree
        require_taxon_for_symbol
        (fresh_state (tokenize "((,A,,B),(,),(C,));") [])
      = Return (Some tree,
                mkState (mkTokenizer [] None false []) [] (Some true)) /\
      seed_node tree
      = root_of [root_of [node_factory;
                          mkNode (Some "A") None None [] [] [];
                          node_factory;
                          mkNode (Some "B") None None [] [] []];
                 root_of [node_factory; node_factory];
                 root_of [mkNode (Some "C") None None [] [] []]]).
Proof.
  destruct (blank_children_of_separators PyNumber (PyFloat "1.0")
              key_value_annotations no_tree_weight default_reader new_tree
              require_taxon_for_symbol None
              [Some "A"; None; Some "B"; None] []
              eq_refl eq_refl require_taxon_for_symbol_total eq_refl
              ltac:(simpl; intros l [H|[H|[H|[H|[H|[]]]]]];
                    try discriminate; injection H as <-; reflexivity))
    as (Hroot & Hnested & _).
  split; [exact Hroot|].
  split.
  - exact (Hnested 0 (Some true) node_factory false "," false [Tok "C" false]
                   (Some false) (or_introl eq_refl)).
  - destruct (blank_children_of_separators PyNumber (PyFloat "1.0")
                key_value_annotations no_tree_weight
                (with_suppress_taxa default_reader true true) new_tree
                require_taxon_for_symbol None [] []
                eq_refl eq_refl require_taxon_for_symbol_total eq_refl
                ltac:(simpl; intros l [H|[]]; discriminate))
      as (_ & _ & Hany & _).
    exact (Hany
             (root_of [root_of [node_factory;
                                mkNode (Some "A") None None [] [] [];
                                node_factory;
                                mkNode (Some "B") None None [] [] []];
                       root_of [node_factory; node_factory];
                       root_of [mkNode (Some "C") None None [] [] [];
                                node_factory]])
             eq_refl eq_refl eq_refl eq_refl ltac:(discriminate)).
Defined.

(* ================================================================== *)
(** ** The reader as a whole *)

(** X1: [_parse_tree_statement] terminates on every token stream, with every
    configuration and every collaborator that returns (the casts, the symbol
    mapper, the factories and [finish_node_func] are functions here): each
    turn of its loops and each recursive call ends or reads a token. Any
    budget of at least
    [remaining s + 2] gives the same result as the computed one, no statement
    leaves more to read than it found, and a statement that yields a tree
    has read something. *)
Theorem parse_tree_statement_terminates :
  forall (Num : Type) (float_one : Num) (meta : string -> list Annotation)
         (ev : string -> result Num) (self : NewickReader Num)
         (tree_factory : Tree Num) (mapper : TaxonSymbolMapFunc)
         (s : ParseState),
    _parse_tree_statement float_one meta ev self tree_factory mapper s
      <> NoFuel /\
    (forall fuel,
        remaining s + 2 <= fuel ->
        _parse_tree_statement_fuel float_one meta ev self fuel tree_factory
                                   mapper s
        = _parse_tree_statement float_one meta ev self tree_factory mapper s) /\
    (forall tree s',
        _parse_tree_statement float_one meta ev self tree_factory mapper s
          = Return (tree, s') ->
        remaining s' <= remaining s /\
        (tree <> None -> remaining s' < remaining s)).
Proof.
  intros Num float_one meta ev self tf mapper s.
  destruct (parse_tree_statement_total float_one meta ev self tf mapper s)
    as [Hn Hr].
  split; [exact Hn|]. split; [|exact Hr].
  intros fuel Hf. apply parse_tree_statement_fuel_enough. exact Hf.
Qed.

(** X2: with a rooting policy the setter accepts, and factories, metadata
    parsing and a [finish_node_func] that do not raise, whatever escapes
    [_parse_tree_statement], and so whatever escapes an iteration over
    [tree_iter], is one of the parser's own errors (invalid token, malformed
    or incomplete statement, the tokenizer's end of stream, the
    [AttributeError] of a label read at the end of the stream, the
    [NameError] of the weight directive), an error of the symbol mapper, or
    an error other than [ValueError] of the edge-length cast. The three
    reader errors among them are caught by [except NewickReaderError] and by
    [except DataParseError]. *)
Theorem parse_tree_statement_raises_only :
  forall (Num : Type) (float_one : Num) (meta : string -> list Annotation)
         (ev : string -> result Num) (self : NewickReader Num)
         (tree_factory : Tree Num) (mapper : TaxonSymbolMapFunc),
    known_rooting (_rooting self) = true ->
    (forall s e,
        _parse_tree_statement float_one meta ev self tree_factory mapper s
          = Throw e ->
        statement_error self mapper e) /\
    (forall n g e,
        collect float_one meta ev self n tree_factory mapper g = Throw e ->
        statement_error self mapper e /\ e <> StopIteration) /\
    (forall e,
        In e [NewickReaderInvalidTokenError;
              NewickReaderMalformedStatementError;
              NewickReaderIncompleteTreeStatementError] ->
        isinstance e NewickReaderError = true /\
        isinstance e DataParseError = true).
Proof.
  intros Num float_one meta ev self tf mapper Hk. split; [|split].
  - intros s e H.
    exact (parse_tree_statement_errors float_one meta ev self tf mapper s e Hk H).
  - intros n g e H. apply collect_throws in H. destruct H as [Hne [s Hs]].
    split; [|exact Hne].
    exact (parse_tree_statement_errors float_one meta ev self tf mapper s e Hk Hs).
  - intros e [<-|[<-|[<-|[]]]]; split; reflexivity.
Qed.

(** The theorem on "(A B);", whose second label is a malformed statement. *)
Lemma parse_tree_statement_raises_only_witness :
  statement_error default_reader require_taxon_for_symbol
    NewickReaderMalformedStatementError.
Proof.
  exact (proj1 (parse_tree_statement_raises_only PyNumber (PyFloat "1.0")
                  key_value_annotations no_tree_weight default_reader new_tree
                  require_taxon_for_symbol eq_refl)
               (fresh_state (tokenize "(A B);") [])
               NewickReaderMalformedStatementError
               ltac:(vm_compute; reflexivity)).
Defined.

(** X3: what a finished iteration over [tree_iter] has yielded is a list of
    trees followed by at most one [None], which is then the last element. *)
Theorem iteration_yields_trees_then_None :
  forall (Num : Type) (float_one : Num) (meta : string -> list Annotation)
         (ev : string -> result Num) (self : NewickReader Num)
         (tree_factory : Tree Num) (mapper : TaxonSymbolMapFunc)
         (n : nat) (g : Generator) (l : list (option (Tree Num))),
    collect float_one meta ev self n tree_factory mapper g = Return l ->
    exists trees, l = map Some trees \/ l = map Some trees ++ [None].
Proof.
  intros Num float_one meta ev self tf mapper n g l H.
  exact (collect_shape float_one meta ev self tf mapper n g l H).
Qed.

(** The theorem on "(A,B);(C,D);". *)
Lemma iteration_yields_trees_then_None_witness :
  exists l trees,
    read_trees default_reader "(A,B);(C,D);" = Return l /\
    List.length l = 3 /\
    (l = map Some trees \/ l = map Some trees ++ [None]).
Proof.
  eexists. 
  assert (H : read_trees default_reader "(A,B);(C,D);" = Return _)
    by (vm_compute; reflexivity).
  destruct (iteration_yields_trees_then_None PyNumber (PyFloat "1.0")
              key_value_annotations no_tree_weight default_reader new_tree
              require_taxon_for_symbol _ _ _ H) as [trees Ht].
  exists trees. split; [exact H|]. split; [reflexivity|exact Ht].
Defined.

Lemma every_node_set_label {Num} (p : Node Num -> bool) (n : Node Num) l :
  (forall l t e c a ch l', p (mkNode l t e c a ch) = p (mkNode l' t e c a ch)) ->
  every_node p n = true -> every_node p (set_label n l) = true.
Proof.
  intros Hp. rewrite !every_node_eq. destruct n as [l0 t e c a ch]. unfold set_label. cbn.
  rewrite (Hp l t e c a ch l0). trivial.
Qed.

Lemma every_node_set_taxon {Num} (p : Node Num -> bool) (n : Node Num) t :
  (forall l t e c a ch t', p (mkNode l t e c a ch) = p (mkNode l t' e c a ch)) ->
  every_node p n = true -> every_node p (set_taxon n t) = true.
Proof.
  intros Hp. rewrite !every_node_eq. destruct n as [l t0 e c a ch]. unfold set_taxon. cbn.
  rewrite (Hp l (Some t) e c a ch t0). trivial.
Qed.

Lemma every_node_set_edge_length {Num} (p : Node Num -> bool) (n : Node Num) v :
  (forall l t e c a ch e', p (mkNode l t e c a ch) = p (mkNode l t e' c a ch)) ->
  every_node p n = true -> every_node p (set_edge_length n v) = true.
Proof.
  intros Hp. rewrite !every_node_eq. destruct n as [l t e0 c a ch]. unfold set_edge_length. cbn.
  rewrite (Hp l t (Some v) c a ch e0). trivial.
Qed.

(** X4: with [suppress_edge_lengths] the cast target of the edge lengths
    is never applied and no length is stored: a statement is read the same
    whatever function stands for the cast (one that always raises
    included); in the label phase a ':' and the token after it are passed
    and the node is left as it is; and no node of a parsed tree carries an
    edge length (for a tree factory whose seed node has none and a
    [finish_node_func] that adds none). *)
Theorem suppressed_edge_lengths_are_not_stored :
  forall (Num : Type) (float_one : Num) (meta : string -> list Annotation)
         (ev : string -> result Num) (self : NewickReader Num)
         (tree_factory : Tree Num) (mapper : TaxonSymbolMapFunc),
    suppress_edge_lengths self = true ->
    (forall (cast : option string -> result Num) s,
        _parse_tree_statement float_one meta ev (with_edge_len_type self cast)
          tree_factory mapper s
        = _parse_tree_statement float_one meta ev self tree_factory mapper s) /\
    (forall fuel flag node cs lp s,
        token_is (nexus_tokenizer s) ":" = true ->
        label_loop meta self (S fuel) mapper flag node cs lp s
        = (pulled <- do_pull_captured_comments ;;
           do_require_next_token ;;
           do_require_next_token ;;
           label_loop meta self fuel mapper flag node (cs ++ pulled) lp) s) /\
    (forall s tree s',
        (forall n, every_node no_edge_length n = true ->
                   every_node no_edge_length (_finish_node self n) = true) ->
        every_node no_edge_length (seed_node tree_factory) = true ->
        _parse_tree_statement float_one meta ev self tree_factory mapper s
          = Return (Some tree, s') ->
        every_node no_edge_length (seed_node tree) = true).
Proof.
  intros Num float_one meta ev self tf mapper Hs.
  split; [|split].
  - intros cast s.
    rewrite (proj1 (suppressed_cast_is_unused float_one meta ev self cast Hs)).
    reflexivity.
  - intros fuel flag node cs lp s Hcolon.
    apply label_loop_suppressed_length; assumption.
  - intros s tree s' Hfin Hseed H.
    assert (K : keeps (fun _ => True) (fun _ => True)
                  (_parse_tree_statement float_one meta ev self tf mapper)
                  (on_seed (fun n => every_node no_edge_length n = true))).
    { apply keeps_every_node; try reflexivity; try assumption.
      - rewrite Hs. discriminate.
      - intros flag n l Hn. unfold store_label.
        destruct (_ || _).
        + apply keeps_ret. apply every_node_set_label; [reflexivity|exact Hn].
        + eapply keeps_bind with (Q := fun _ => True).
          * intros s0 _. unfold call_taxon_symbol_map_func.
            destruct (mapper _ _) as [[t ns]|e]; [split|]; exact I.
          * intros t _. apply keeps_ret.
            apply every_node_set_taxon; [reflexivity|exact Hn]. }
    specialize (K s I). rewrite H in K. exact (proj1 K).
Qed.

(** The theorem on "(A:1,(B:x,C:3):4);", whose second length is no number:
    the statement is read, also with a cast that raises on every token, and
    its tree has no edge length. *)
Lemma suppressed_edge_lengths_are_not_stored_witness :
  exists tree s',
    _parse_tree_statement (PyFloat "1.0") key_value_annotations no_tree_weight
      (with_edge_len_type (with_suppress_edge_lengths default_reader true)
                          (fun _ => Raise ValueError))
      new_tree require_taxon_for_symbol
      (fresh_state (tokenize "(A:1,(B:x,C:3):4);") [])
    = Return (Some tree, s') /\
    _parse_tree_statement (PyFloat "1.0") key_value_annotations no_tree_weight
      (with_suppress_edge_lengths default_reader true) new_tree
      require_taxon_for_symbol (fresh_state (tokenize "(A:1,(B:x,C:3):4);") [])
    = Return (Some tree, s') /\
    List.length (_child_nodes (seed_node tree)) = 2 /\
    every_node no_edge_length (seed_node tree) = true.
Proof.
  destruct (suppressed_edge_lengths_are_not_stored PyNumber (PyFloat "1.0")
              key_value_annotations no_tree_weight
              (with_suppress_edge_lengths default_reader true) new_tree
              require_taxon_for_symbol eq_refl) as (Hcast & _ & Hnone).
  eexists. eexists.
  assert (H : _parse_tree_statement (PyFloat "1.0") key_value_annotations
                no_tree_weight (with_suppress_edge_lengths default_reader true)
                new_tree require_taxon_for_symbol
                (fresh_state (tokenize "(A:1,(B:x,C:3):4);") [])
              = Return (Some _, _)) by (vm_compute; reflexivity).
  split; [rewrite Hcast; exact H|].
  split; [exact H|]. split; [reflexivity|].
  exact (Hnone _ _ _ (fun n Hn => Hn) eq_refl H).
Defined.

(** X5: with [suppress_internal_node_taxa] and [suppress_external_node_taxa]
    both on, the symbol mapper is never consulted: the statement parser
    gives the same result with any other mapper, it leaves the taxon
    namespace as it was, and no node of the tree carries a taxon (for a tree
    factory whose seed node has none and a [finish_node_func] that adds
    none). *)
Theorem suppressed_taxa_leave_namespace :
  forall (Num : Type) (float_one : Num) (meta : string -> list Annotation)
         (ev : string -> result Num) (self : NewickReader Num)
         (tree_factory : Tree Num) (mapper : TaxonSymbolMapFunc),
    suppress_internal_node_taxa self = true ->
    suppress_external_node_taxa self = true ->
    (forall mapper' s,
        _parse_tree_statement float_one meta ev self tree_factory mapper s
        = _parse_tree_statement float_one meta ev self tree_factory mapper' s) /\
    (forall s r s',
        (forall n, every_node no_taxon n = true ->
                   every_node no_taxon (_finish_node self n) = true) ->
        every_node no_taxon (seed_node tree_factory) = true ->
        _parse_tree_statement float_one meta ev self tree_factory mapper s
          = Return (r, s') ->
        taxon_namespace s' = taxon_namespace s /\
        on_seed (fun n => every_node no_taxon n = true) r).
Proof.
  intros Num float_one meta ev self tf mapper Hi He. split.
  - intros mapper' s. apply parse_tree_statement_mapper; assumption.
  - intros s r s' Hfin Hseed H.
    assert (K : keeps (fun ns => ns = taxon_namespace s) (fun _ => True)
                  (_parse_tree_statement float_one meta ev self tf mapper)
                  (on_seed (fun n => every_node no_taxon n = true))).
    { apply keeps_every_node; try reflexivity; try assumption.
      - intros _ n v. apply every_node_set_edge_length. reflexivity.
      - intros flag n l Hn. unfold store_label. rewrite Hi, He.
        replace (is_true flag && true || negb (is_true flag) && true)
          with true by (destruct (is_true flag); reflexivity).
        apply keeps_ret. apply every_node_set_label; [reflexivity|exact Hn]. }
    specialize (K s eq_refl). rewrite H in K. destruct K as [K1 K2].
    split; assumption.
Qed.

(** The theorem on "((A,B)C,D)E;", with a mapper that always raises. *)
Lemma suppressed_taxa_leave_namespace_witness :
  _parse_tree_statement (PyFloat "1.0") key_value_annotations no_tree_weight
    (with_suppress_taxa default_reader true true) new_tree
    require_taxon_for_symbol (fresh_state (tokenize "((A,B)C,D)E;") [])
  = _parse_tree_statement (PyFloat "1.0") key_value_annotations no_tree_weight
      (with_suppress_taxa default_reader true true) new_tree
      (fun _ _ => Raise TypeError) (fresh_state (tokenize "((A,B)C,D)E;") []).
Proof.
  exact (proj1 (suppressed_taxa_leave_namespace PyNumber (PyFloat "1.0")
                  key_value_annotations no_tree_weight
                  (with_suppress_taxa default_reader true true) new_tree
                  require_taxon_for_symbol eq_refl eq_refl)
               (fun _ _ => Raise TypeError)
               (fresh_state (tokenize "((A,B)C,D)E;") [])).
Defined.

(** The label phase at a label token with both taxon suppressions off:
    whatever the flag of the node, the label text is handed to the symbol
    mapper and the taxon it returns is set on the node. *)
Lemma label_loop_mapped {Num} meta (self : NewickReader Num) fuel mapper flag
  node cs s :
  suppress_internal_node_taxa self = false ->
  suppress_external_node_taxa self = false ->
  at_label_token (nexus_tokenizer s) = true ->
  label_loop meta self (S fuel) mapper flag node cs false s
  = (pulled <- do_pull_captured_comments ;;
     tk <- current ;;
     label <- lift (label_of_token self tk) ;;
     current_node <-
       (t <- call_taxon_symbol_map_func mapper label ;;
        ret (set_taxon node t)) ;;
     do_require_next_token ;;
     label_loop meta self fuel mapper flag current_node (cs ++ pulled) true) s.
Proof.
  intros Hint Hext Hl. unfold at_label_token in Hl.
  apply negb_true_iff in Hl.
  repeat (apply orb_false_iff in Hl; destruct Hl as [Hl ?]).
  rewrite label_loop_S. exec.
  repeat match goal with H : token_is _ _ = false |- _ => rewrite H; clear H end.
  unfold store_label. rewrite Hint, Hext, !andb_false_r. cbn [orb].
  reflexivity.
Qed.

(** X6: with [suppress_internal_node_taxa] and [suppress_external_node_taxa]
    both off, every label goes through the symbol mapper and becomes the
    taxon of its node: at a label token the label phase, whatever the flag
    of the node, hands the label text to the mapper and sets the taxon it
    returns (an error of the mapper is raised); a label that stands alone
    before ',' or ')' gives a node with that taxon and the namespace the
    mapper returns; and no node of a parsed tree carries a plain label (for
    a tree factory whose seed node has none and a [finish_node_func] that
    adds none). *)
Theorem unsuppressed_taxa_leave_no_label :
  forall (Num : Type) (float_one : Num) (meta : string -> list Annotation)
         (ev : string -> result Num) (self : NewickReader Num)
         (tree_factory : Tree Num) (mapper : TaxonSymbolMapFunc),
    suppress_internal_node_taxa self = false ->
    suppress_external_node_taxa self = false ->
    (forall fuel flag node cs s,
        at_label_token (nexus_tokenizer s) = true ->
        label_loop meta self (S fuel) mapper flag node cs false s
        = (pulled <- do_pull_captured_comments ;;
           tk <- current ;;
           label <- lift (label_of_token self tk) ;;
           current_node <-
             (t <- call_taxon_symbol_map_func mapper label ;;
              ret (set_taxon node t)) ;;
           do_require_next_token ;;
           label_loop meta self fuel mapper flag current_node (cs ++ pulled)
                      true) s) /\
    (forall fuel node l x xq rest ns flag,
        label_token l = true -> x = "," \/ x = ")" ->
        _parse_tree_node_description meta self (S (S (S fuel))) mapper node
          (Some false)
          (mkState (mkTokenizer (Tok x xq :: rest) (Some l) false []) ns flag)
        = match mapper ns (Some (label_text self l)) with
          | Ok (t, ns') =>
              Return (_finish_node self (set_taxon node t),
                      mkState (mkTokenizer rest (Some x) xq []) ns'
                              (Some false))
          | Raise e => Throw e
          end) /\
    (forall s tree s',
        (forall n, every_node no_label n = true ->
                   every_node no_label (_finish_node self n) = true) ->
        every_node no_label (seed_node tree_factory) = true ->
        _parse_tree_statement float_one meta ev self tree_factory mapper s
          = Return (Some tree, s') ->
        every_node no_label (seed_node tree) = true).
Proof.
  intros Num float_one meta ev self tf mapper Hi He.
  split; [|split].
  - intros fuel flag node cs s Hl. apply label_loop_mapped; assumption.
  - intros fuel node l x xq rest ns flag Hl Hx.
    rewrite (leaf_description meta self fuel mapper node l x xq rest ns flag
               Hl Hx).
    rewrite He. reflexivity.
  - intros s tree s' Hfin Hseed H.
    assert (K : keeps (fun _ => True) (fun _ => True)
                  (_parse_tree_statement float_one meta ev self tf mapper)
                  (on_seed (fun n => every_node no_label n = true))).
    { apply keeps_every_node; try reflexivity; try assumption.
      - intros _ n v. apply every_node_set_edge_length. reflexivity.
      - intros flag n l Hn. unfold store_label. rewrite Hi, He.
        rewrite !andb_false_r. cbn [orb].
        eapply keeps_bind with (Q := fun _ => True).
        + intros s0 _. unfold call_taxon_symbol_map_func.
          destruct (mapper _ _) as [[t ns]|e]; [split|]; exact I.
        + intros t _. apply keeps_ret.
          apply every_node_set_taxon; [reflexivity|exact Hn]. }
    specialize (K s I). rewrite H in K. exact (proj1 K).
Qed.

(** The theorem on "((A,B)C,D)E;", whose five labels become five taxa, and
    on the leaf A of "A,B". *)
Lemma unsuppressed_taxa_leave_no_label_witness :
  (exists tree s',
      _parse_tree_statement (PyFloat "1.0") key_value_annotations
        no_tree_weight (with_suppress_taxa default_reader false false)
        new_tree require_taxon_for_symbol
        (fresh_state (tokenize "((A,B)C,D)E;") [])
      = Return (Some tree, s') /\
      List.length (taxon_namespace s') = 5 /\
      every_node no_label (seed_node tree) = true) /\
  _parse_tree_node_description key_value_annotations
    (with_suppress_taxa default_reader false false) 3
    require_taxon_for_symbol node_factory (Some false)
    (mkState (mkTokenizer [Tok "," false; Tok "B" false] (Some "A") false [])
             [] None)
  = Return (set_taxon node_factory (mkTaxon (Some "A") 0),
            mkState (mkTokenizer [Tok "B" false] (Some ",") false [])
                    [mkTaxon (Some "A") 0] (Some false)).
Proof.
  destruct (unsuppressed_taxa_leave_no_label PyNumber (PyFloat "1.0")
              key_value_annotations no_tree_weight
              (with_suppress_taxa default_reader false false) new_tree
              require_taxon_for_symbol eq_refl eq_refl)
    as (_ & Hleaf & Hnone).
  split.
  - eexists. eexists.
    assert (H : _parse_tree_statement (PyFloat "1.0") key_value_annotations
                  no_tree_weight
                  (with_suppress_taxa default_reader false false)
                  new_tree require_taxon_for_symbol
                  (fresh_state (tokenize "((A,B)C,D)E;") [])
                = Return (Some _, _)) by (vm_compute; reflexivity).
    split; [exact H|]. split; [reflexivity|].
    exact (Hnone _ _ _ (fun n Hn => Hn) eq_refl H).
  - rewrite (Hleaf 0 node_factory "A" "," false [Tok "B" false] [] None
               eq_refl (or_introl eq_refl)).
    reflexivity.
Defined.

(** X7: [_process_node_comments] loses and reorders nothing: it leaves the
    node's label, taxon, edge length and children alone, appends to the
    node's comments, in order, the comments that are not turned into
    annotations, and appends the annotations of the others; a comment is
    turned into annotations exactly when metadata extraction is on, it
    starts with [&] and it parses to at least one annotation. With
    extraction off every comment is appended. *)
Theorem node_comments_kept_or_annotated :
  forall (Num : Type) (meta : string -> list Annotation)
         (self : NewickReader Num) (n : Node Num) (cs : list string),
    _process_node_comments meta self n cs
    = mkNode (label n) (taxon n) (edge_length n)
             (comments n
              ++ filter (fun c => negb (metadata_comment meta self c)) cs)
             (annotations n
              ++ flat_map meta (filter (metadata_comment meta self) cs))
             (_child_nodes n) /\
    (extract_comment_metadata self = false ->
     _process_node_comments meta self n cs
     = mkNode (label n) (taxon n) (edge_length n) (comments n ++ cs)
              (annotations n) (_child_nodes n)).
Proof.
  intros Num meta self n cs. split; [apply process_node_comments_spec|].
  intros Hoff. rewrite process_node_comments_spec.
  assert (Hm : forall c, metadata_comment meta self c = false).
  { intros c. unfold metadata_comment. rewrite Hoff. reflexivity. }
  replace (filter (metadata_comment meta self) cs) with (@nil string).
  2:{ induction cs as [|c cs IH]; [reflexivity|]. cbn. rewrite Hm. exact IH. }
  replace (filter (fun c => negb (metadata_comment meta self c)) cs) with cs.
  2:{ induction cs as [|c cs IH]; [reflexivity|]. cbn. rewrite Hm. cbn.
      f_equal. exact IH. }
  cbn [flat_map]. rewrite app_nil_r. reflexivity.
Qed.

Lemma parse_tree_statement_invalid_first_token {Num} (float_one : Num) meta ev
  (self : NewickReader Num) tree_factory mapper cs t q i rest ns :
  t <> ";" -> t <> "(" ->
  _parse_tree_statement float_one meta ev self tree_factory mapper
    (fresh_state (map Comment cs ++ Tok t q :: i :: rest) ns)
  = Throw NewickReaderInvalidTokenError.
Proof.
  intros Hsemi Hopen. apply String.eqb_neq in Hsemi, Hopen.
  unfold _parse_tree_statement, enough_fuel, fresh_state, NexusTokenizer_init.
  cbn [nexus_tokenizer src].
  replace (2 * List.length (map Comment cs ++ Tok t q :: i :: rest) + 4)
    with (S (S (2 * List.length (map Comment cs ++ Tok t q :: i :: rest) + 2)))
    by lia.
  assert (Hskip : forall f,
             skip_to_statement (S (S f)) None []
               (mkState (mkTokenizer (map Comment cs ++ Tok t q :: i :: rest)
                                     None false []) ns None)
             = Return ((Some t, cs),
                       mkState (mkTokenizer (i :: rest) (Some t) q []) ns None)).
  { intros f.
    rewrite (skip_to_statement_advance _ None [] (map Comment cs ++ _))
      by (try reflexivity; destruct cs; discriminate).
    rewrite require_next_token_comments.
    cbn [src current_token is_token_quoted captured_comments app].
    cbn [skip_to_statement]. exec. rewrite Hsemi. exec. reflexivity. }
  unfold _parse_tree_statement_fuel, begin_tree_statement. exec.
  erewrite bind_step by apply Hskip. exec. rewrite Hopen. exec. reflexivity.
Qed.

(** X8: a statement has to open with a parenthesis. When the stream is not
    at its end and the token the reader stands on is neither a semicolon nor
    an opening parenthesis, [_parse_tree_statement] raises
    [NewickReaderInvalidTokenError]; so does a fresh stream whose first
    token, after any comments, is such a token followed by something. A
    label on its own is no tree statement. *)
Theorem statement_opens_with_parenthesis :
  forall (Num : Type) (float_one : Num) (meta : string -> list Annotation)
         (ev : string -> result Num) (self : NewickReader Num)
         (tree_factory : Tree Num) (mapper : TaxonSymbolMapFunc) (t : string),
    t <> ";" -> t <> "(" ->
    (forall s,
        current_token (nexus_tokenizer s) = Some t ->
        is_eof (nexus_tokenizer s) = false ->
        _parse_tree_statement float_one meta ev self tree_factory mapper s
        = Throw NewickReaderInvalidTokenError) /\
    (forall cs q i rest ns,
        _parse_tree_statement float_one meta ev self tree_factory mapper
          (fresh_state (map Comment cs ++ Tok t q :: i :: rest) ns)
        = Throw NewickReaderInvalidTokenError).
Proof.
  intros Num float_one meta ev self tf mapper t Hsemi Hopen. split.
  - intros s Ht Heof.
    exact (parse_tree_statement_invalid_token float_one meta ev self tf mapper
             s t Ht Hsemi Hopen Heof).
  - intros cs q i rest ns.
    exact (parse_tree_statement_invalid_first_token float_one meta ev self tf
             mapper cs t q i rest ns Hsemi Hopen).
Qed.

(** The theorem on "A;". *)
Lemma statement_opens_with_parenthesis_witness :
  _parse_tree_statement (PyFloat "1.0") key_value_annotations no_tree_weight
    default_reader new_tree require_taxon_for_symbol
    (fresh_state (tokenize "A;") [])
  = Throw NewickReaderInvalidTokenError.
Proof.
  exact (proj2 (statement_opens_with_parenthesis PyNumber (PyFloat "1.0")
                  key_value_annotations no_tree_weight default_reader
                  new_tree require_taxon_for_symbol "A"
                  ltac:(discriminate) ltac:(discriminate))
               [] false (Tok ";" false) [] []).
Defined.

(** X9: a semicolon in front of a statement is skipped, and the comments
    in front of that semicolon are dropped with it: the first loop of
    [_parse_tree_statement] overwrites [tree_comments] at every turn. A
    stream that starts with comments and a semicolon is read as the stream
    that follows the semicolon; a rooting directive before a stray semicolon
    does not reach the tree. *)
Theorem leading_semicolon_drops_comments :
  forall (Num : Type) (float_one : Num) (meta : string -> list Annotation)
         (ev : string -> result Num) (self : NewickReader Num)
         (tree_factory : Tree Num) (mapper : TaxonSymbolMapFunc)
         (cs : list string) (q : bool) (i : Item) (rest : list Item)
         (ns : TaxonNamespace),
    _parse_tree_statement float_one meta ev self tree_factory mapper
      (fresh_state (map Comment cs ++ Tok ";" q :: i :: rest) ns)
    = _parse_tree_statement float_one meta ev self tree_factory mapper
        (fresh_state (i :: rest) ns) /\
    read_trees default_reader "[&R];(A,B);" = read_trees default_reader "(A,B);".
Proof.
  intros Num float_one meta ev self tf mapper cs q i rest ns. split.
  - apply parse_tree_statement_leading_semicolon.
  - vm_compute. reflexivity.
Qed.

(** X10: what the constructor gives. A reader it returns has a rooting
    policy the setter accepts, so that [_parse_tree_rooting_state] never
    reaches its [TypeError]; it was given no unrecognized keyword, at most
    one legacy rooting keyword, and none together with [rooting]. When the
    constructor raises, it raises [ValueError] (rooting) or [TypeError]
    (an unrecognized keyword, reported only once the rooting value has been
    accepted). *)
Theorem constructor_outcome :
  forall (Num : Type) (float : option string -> result Num)
         (kwargs : Kwargs Num),
    (forall self,
        NewickReader_init float kwargs = Ok self ->
        known_rooting (_rooting self) = true /\
        (forall c, exists r, _parse_tree_rooting_state self c = Ok r) /\
        kw_other kwargs = [] /\
        legacy_count kwargs <= 1 /\
        (legacy_count kwargs = 1 -> kw_rooting kwargs = None)) /\
    (forall e,
        NewickReader_init float kwargs = Raise e ->
        e = ValueError \/
        (e = TypeError /\ kw_other kwargs <> [] /\ legacy_count kwargs <= 1)).
Proof.
  intros Num float kwargs. pose proof (init_outcome float kwargs) as H.
  split.
  - intros self E. rewrite E in H. destruct H as (Hk & Ho & Hc & Hr).
    repeat split; try assumption.
    intros c. exact (rooting_state_known self c Hk).
  - intros e E. rewrite E in H. exact H.
Qed.

(** X11: the legacy rooting keywords. Given alone, [as_unrooted],
    [as_rooted], [default_as_unrooted] and [default_as_rooted] construct the
    reader that [rooting] constructs with 'force-unrooted', 'force-rooted',
    'default-unrooted' and 'default-rooted' for a truthy value, and with
    the opposite policy for a falsy one. Given together with [rooting], or
    two of them at once, they make the constructor raise [ValueError],
    whatever else it is given. *)
Theorem legacy_rooting_keywords :
  forall (Num : Type) (float : option string -> result Num)
         (kwargs : Kwargs Num) (v : PyVal),
    let base := with_legacy_kwargs kwargs None None None None in
    let rooting (s : string) :=
      NewickReader_init float (with_rooting_kwarg base (Some (PyStr s))) in
    (kw_rooting kwargs = None ->
     NewickReader_init float (with_legacy_kwargs kwargs (Some v) None None None)
       = rooting (if truthy v then "force-unrooted" else "force-rooted") /\
     NewickReader_init float (with_legacy_kwargs kwargs None (Some v) None None)
       = rooting (if truthy v then "force-rooted" else "force-unrooted") /\
     NewickReader_init float (with_legacy_kwargs kwargs None None (Some v) None)
       = rooting (if truthy v then "default-rooted" else "default-unrooted") /\
     NewickReader_init float (with_legacy_kwargs kwargs None None None (Some v))
       = rooting (if truthy v then "default-unrooted" else "default-rooted")) /\
    ((1 <= legacy_count kwargs /\ kw_rooting kwargs <> None)
     \/ 2 <= legacy_count kwargs ->
     NewickReader_init float kwargs = Raise ValueError).
Proof.
  intros Num float kwargs v base rooting. split.
  - intros Hr. unfold rooting, base.
    repeat split; apply init_legacy; try exact Hr;
      unfold legacy_rooting, with_legacy_kwargs; cbn; rewrite Hr; reflexivity.
  - intros H. unfold NewickReader_init.
    rewrite (legacy_rooting_conflict kwargs H). reflexivity.
Qed.

(** X12: a leaf description "label : length", with comments anywhere in
    it. The label is resolved through the symbol mapper under the text of
    its token, with underscores turned into spaces unless the token was
    quoted or [preserve_underscores] is set (so an unquoted label reaches
    the mapper without underscores); the length is what [edge_len_type]
    makes of its token; and the comments captured before the label, between
    label and colon, between colon and length and after the length all end
    up on that node, in this order, through [_process_node_comments]. The
    reader then stands on the separator or parenthesis that ended the
    leaf. *)
Theorem leaf_description_with_comments :
  forall (Num : Type) (meta : string -> list Annotation)
         (self : NewickReader Num) (mapper : TaxonSymbolMapFunc)
         (fuel : nat) (node : Node Num) (l v x : string)
         (lq cq vq xq : bool) (rest : list Item) (ns ns' : TaxonNamespace)
         (flag : option bool) (t : Taxon) (c0 c1 c2 c3 : list string)
         (len : Num),
    label_token l = true -> x = "," \/ x = ")" ->
    suppress_external_node_taxa self = false ->
    suppress_edge_lengths self = false ->
    mapper ns (Some (token_label_text self l lq)) = Ok (t, ns') ->
    edge_len_type self (Some v) = Ok len ->
    _parse_tree_node_description meta self (S (S (S (S fuel)))) mapper node
      (Some false)
      (mkState (mkTokenizer (map Comment c1 ++ Tok ":" cq ::
                             map Comment c2 ++ Tok v vq ::
                             map Comment c3 ++ Tok x xq :: rest)
                            (Some l) lq c0) ns flag)
    = Return (_finish_node self
                (_process_node_comments meta self
                   (set_edge_length (set_taxon node t) len)
                   (c0 ++ c1 ++ c2 ++ c3)),
              mkState (mkTokenizer rest (Some x) xq []) ns' (Some false)) /\
    (preserve_underscores self = false -> lq = false ->
     has_underscore (token_label_text self l lq) = false).
Proof.
  intros Num meta self mapper fuel node l v x lq cq vq xq rest ns ns' flag t
    c0 c1 c2 c3 len Hl Hx Hext Hlen Hm He.
  split.
  - apply leaf_with_comments; assumption.
  - intros Hp Hq. unfold token_label_text. rewrite Hp, Hq. cbn [orb].
    apply replace_underscores_clean.
Qed.

(** The theorem on "[c0]a_b[c1]:[c2]1.5[c3]," read by the default reader. *)
Lemma leaf_description_with_comments_witness :
  _parse_tree_node_description key_value_annotations default_reader 4
    require_taxon_for_symbol node_factory (Some false)
    (mkState (mkTokenizer (map Comment ["c1"] ++ Tok ":" false ::
                           map Comment ["c2"] ++ Tok "1.5" false ::
                           map Comment ["c3"] ++ Tok "," false :: [])
                          (Some "a_b") false ["c0"]) [] None)
  = Return (mkNode None (Some (mkTaxon (Some "a b") 0)) (Some (PyFloat "1.5"))
                   ["c0"; "c1"; "c2"; "c3"] [] [],
            mkState (mkTokenizer [] (Some ",") false [])
                    [mkTaxon (Some "a b") 0] (Some false)).
Proof.
  exact (proj1 (leaf_description_with_comments PyNumber key_value_annotations
                  default_reader require_taxon_for_symbol 0 node_factory
                  "a_b" "1.5" "," false false false false [] []
                  [mkTaxon (Some "a b") 0] None (mkTaxon (Some "a b") 0)
                  ["c0"] ["c1"] ["c2"] ["c3"] (PyFloat "1.5")
                  eq_refl (or_introl eq_refl) eq_refl eq_refl eq_refl eq_refl)).
Defined.

(** X13: the token iterator of the NCL bridge. [n] calls of
    [read_next_token] on a fresh [ListOfTokenIterator] return the first [n]
    tokens of its list, in order, and the empty string for every call past
    the end; [eof] is set by the first call past the end and the iterator
    does not change after that. [read_next_token_ucase] returns [None]
    exactly when [read_next_token] returns the empty string, be it at the
    end or for an empty token. *)
Theorem token_iterator_reads :
  forall (tokens : list string) (n : nat),
    read_tokens n (ListOfTokenIterator_init tokens)
    = (firstn n tokens ++ repeat EmptyString (n - List.length tokens),
       if Nat.leb n (List.length tokens)
       then mkListOfTokenIterator (skipn n tokens) false None None
       else mkListOfTokenIterator [] true None None) /\
    (forall self,
        eof self = true -> read_next_token self = (EmptyString, self)) /\
    (forall self,
        eof (snd (read_next_token self)) = true ->
        fst (read_next_token self) = EmptyString) /\
    (forall self,
        fst (read_next_token_ucase self) = None
        <-> fst (read_next_token self) = EmptyString) /\
    (forall self,
        snd (read_next_token_ucase self) = snd (read_next_token self)).
Proof.
  intros tokens n. split; [apply read_tokens_spec|].
  split; [exact read_next_token_at_eof|]. split; [|split].
  - intros self. unfold read_next_token.
    destruct (eof self) eqn:He; cbn [negb]; [reflexivity|].
    destruct (tokens_iter self); cbn; [reflexivity|]. congruence.
  - intros self. unfold read_next_token_ucase.
    destruct (read_next_token self) as [t self']. cbn [fst].
    destruct (String.eqb t EmptyString) eqn:E.
    + apply String.eqb_eq in E. tauto.
    + apply String.eqb_neq in E. split; [discriminate|]. intros H.
      contradiction.
  - intros self. unfold read_next_token_ucase.
    destruct (read_next_token self) as [t self']. reflexivity.
Qed.

(** X14: when [_parse_tree_statement] has returned a tree, the statement
    was completed by its semicolon, and the reader does not stand on a
    further semicolon unless the stream is at its end: the semicolons that
    follow a statement are consumed with it. *)
Theorem statement_consumes_its_semicolons :
  forall (Num : Type) (float_one : Num) (meta : string -> list Annotation)
         (ev : string -> result Num) (self : NewickReader Num)
         (tree_factory : Tree Num) (mapper : TaxonSymbolMapFunc)
         (s : ParseState) (tree : Tree Num) (s' : ParseState),
    _parse_tree_statement float_one meta ev self tree_factory mapper s
      = Return (Some tree, s') ->
    tree_statement_complete s' = Some true /\
    (token_is (nexus_tokenizer s') ";" = false \/
     is_eof (nexus_tokenizer s') = true).
Proof.
  intros Num float_one meta ev self tf mapper s tree s' H.
  unfold _parse_tree_statement in H.
  apply parse_tree_statement_fuel_after in H. destruct H as [Hx Hc].
  split; [exact Hc|].
  destruct (token_is (nexus_tokenizer s') ";"); [|left; reflexivity].
  right. cbn [andb] in Hx. apply negb_false_iff in Hx. exact Hx.
Qed.

(** The theorem on "(A,B);;;(C,D);": after the first statement the reader
    stands on the parenthesis of the second. *)
Lemma statement_consumes_its_semicolons_witness :
  exists tree s',
    _parse_tree_statement (PyFloat "1.0") key_value_annotations no_tree_weight
      default_reader new_tree require_taxon_for_symbol
      (fresh_state (tokenize "(A,B);;;(C,D);") [])
    = Return (Some tree, s') /\
    current_token (nexus_tokenizer s') = Some "(" /\
    tree_statement_complete s' = Some true /\
    (token_is (nexus_tokenizer s') ";" = false \/
     is_eof (nexus_tokenizer s') = true).
Proof.
  eexists. eexists.
  assert (H : _parse_tree_statement (PyFloat "1.0") key_value_annotations
                no_tree_weight default_reader new_tree require_taxon_for_symbol
                (fresh_state (tokenize "(A,B);;;(C,D);") [])
              = Return (Some _, _)) by (vm_compute; reflexivity).
  split; [exact H|]. split; [reflexivity|].
  exact (statement_consumes_its_semicolons PyNumber (PyFloat "1.0")
           key_value_annotations no_tree_weight default_reader new_tree
           require_taxon_for_symbol _ _ _ H).
Defined.

(** X15: reading back what was written down. Take any tree of plain
    labels, of any shape and depth: no taxon, edge length, comment or
    annotation, every label a label token that the reader stores unchanged,
    a label on every node without children, and children under the seed
    node. Write it as a NEWICK statement: the children between parentheses
    and separated by commas, then the label, then a semicolon. With both
    taxon-suppression options on and no [finish_node_func],
    [_parse_tree_statement] reads that statement from a fresh stream into a
    tree whose seed node is the tree written down, consumes the whole
    stream, sets the completion flag and leaves the taxon namespace as it
    was. *)
Theorem written_tree_is_read_back :
  forall (Num : Type) (float_one : Num) (meta : string -> list Annotation)
         (ev : string -> result Num) (self : NewickReader Num)
         (tree_factory : Tree Num) (mapper : TaxonSymbolMapFunc)
         (n : Node Num) (ns : TaxonNamespace),
    finish_node_func self = None ->
    suppress_internal_node_taxa self = true ->
    suppress_external_node_taxa self = true ->
    known_rooting (_rooting self) = true ->
    seed_node tree_factory = node_factory ->
    plain_labelled self n = true -> _child_nodes n <> [] ->
    exists tree,
      _parse_tree_statement float_one meta ev self tree_factory mapper
        (fresh_state (newick_statement n) ns)
      = Return (Some tree,
                mkState (mkTokenizer [] None false []) ns (Some true)) /\
      seed_node tree = n.
Proof.
  intros Num float_one meta ev self tf mapper n ns Hfin Hint Hext Hk Hseed
    Hn Hch.
  destruct (statement_read_back meta self mapper Hfin Hint Hext float_one ev
              tf n ns Hk Hseed Hn Hch) as (tree0 & _ & E).
  exists (set_seed_node tree0 n). split; [exact E|reflexivity].
Qed.

(** The theorem on the tree of "((A,B)C,D)E;". *)
Lemma written_tree_is_read_back_witness :
  exists tree,
    _parse_tree_statement (PyFloat "1.0") key_value_annotations no_tree_weight
      (with_suppress_taxa default_reader true true) new_tree
      require_taxon_for_symbol (fresh_state (tokenize "((A,B)C,D)E;") [])
    = Return (Some tree,
              mkState (mkTokenizer [] None false []) [] (Some true)) /\
    seed_node tree
    = mkNode (Some "E") None None [] []
        [mkNode (Some "C") None None [] []
           [mkNode (Some "A") None None [] [] [];
            mkNode (Some "B") None None [] [] []];
         mkNode (Some "D") None None [] [] []].
Proof.
  exact (written_tree_is_read_back PyNumber (PyFloat "1.0")
           key_value_annotations no_tree_weight
           (with_suppress_taxa default_reader true true) new_tree
           require_taxon_for_symbol
           (mkNode (Some "E") None None [] []
              [mkNode (Some "C") None None [] []
                 [mkNode (Some "A") None None [] [] [];
                  mkNode (Some "B") None None [] [] []];
               mkNode (Some "D") None None [] [] []])
           [] eq_refl eq_refl eq_refl eq_refl eq_refl eq_refl
           ltac:(discriminate)).
Defined.

(** X16: a stream of statements is read back one tree per request. Write
    any list of such trees down, statement after statement; iterating over
    [tree_iter] on that stream, with both taxon-suppression options on and
    no [finish_node_func], yields exactly these trees, in order, each with
    the rootedness, weight and comments the tree factory's tree gets from an
    empty batch of comments, and then the [None] of the end of the stream. *)
Theorem written_stream_is_read_back :
  forall (Num : Type) (float_one : Num) (meta : string -> list Annotation)
         (ev : string -> result Num) (self : NewickReader Num)
         (tree_factory : Tree Num) (mapper : TaxonSymbolMapFunc)
         (trees : list (Node Num)) (ns : TaxonNamespace) (k : nat),
    finish_node_func self = None ->
    suppress_internal_node_taxa self = true ->
    suppress_external_node_taxa self = true ->
    known_rooting (_rooting self) = true ->
    seed_node tree_factory = node_factory ->
    (forall n, In n trees ->
               plain_labelled self n = true /\ _child_nodes n <> []) ->
    List.length trees + 2 <= k ->
    exists tree0,
      _process_tree_comments float_one meta ev self tree_factory [] = Ok tree0 /\
      collect float_one meta ev self k tree_factory mapper
              (tree_iter (flat_map newick_statement trees) ns)
      = Return (map (fun n => Some (set_seed_node tree0 n)) trees ++ [None]).
Proof.
  intros Num float_one meta ev self tf mapper trees ns k Hfin Hint Hext Hk
    Hseed Hall Hlen.
  destruct (process_no_tree_comments meta self float_one ev tf Hk)
    as (tree0 & Et & Hs0 & _).
  exists tree0. split; [exact Et|].
  apply (stream_read_back meta self mapper Hfin Hint Hext float_one ev tf
           tree0 ns Et); try assumption.
  - congruence.
  - left. reflexivity.
Qed.

(** The theorem on "(A,B);((C,D)E,F);". *)
Lemma written_stream_is_read_back_witness :
  read_trees (with_suppress_taxa default_reader true true) "(A,B);((C,D)E,F);"
  = Return
      [Some (mkTree (mkNode None None None [] []
                       [mkNode (Some "A") None None [] [] [];
                        mkNode (Some "B") None None [] [] []])
                    (Some false) None [] []);
       Some (mkTree (mkNode None None None [] []
                       [mkNode (Some "E") None None [] []
                          [mkNode (Some "C") None None [] [] [];
                           mkNode (Some "D") None None [] [] []];
                        mkNode (Some "F") None None [] [] []])
                    (Some false) None [] []);
       None].
Proof.
  destruct (written_stream_is_read_back PyNumber (PyFloat "1.0")
              key_value_annotations no_tree_weight
              (with_suppress_taxa default_reader true true) new_tree
              require_taxon_for_symbol
              [mkNode None None None [] []
                 [mkNode (Some "A") None None [] [] [];
                  mkNode (Some "B") None None [] [] []];
               mkNode None None None [] []
                 [mkNode (Some "E") None None [] []
                    [mkNode (Some "C") None None [] [] [];
                     mkNode (Some "D") None None [] [] []];
                  mkNode (Some "F") None None [] [] []]]
              []
              (requests_bound
                 (@tree_iter PyNumber (tokenize "(A,B);((C,D)E,F);") []))
              eq_refl eq_refl eq_refl eq_refl eq_refl)
    as (tree0 & Et & E).
  - intros n [<- | [<- | []]]; split; try reflexivity; discriminate.
  - vm_compute. lia.
  - vm_compute in Et. injection Et as <-. exact E.
Defined.

(** X17: the annotations [_process_tree_comments] gives a tree. Whenever it
    returns, the tree's annotations are those it had, followed by the
    annotations of the comments of the batch that are neither rooting nor
    weight directives, start with [&] and parse to at least one annotation,
    provided metadata extraction is on; the seed node is untouched. A
    rooting or weight directive never becomes an annotation, and with
    extraction off no comment does. *)
Theorem tree_annotations_from_metadata :
  forall (Num : Type) (float_one : Num) (meta : string -> list Annotation)
         (ev : string -> result Num) (self : NewickReader Num)
         (tree tree' : Tree Num) (batch : list string),
    _process_tree_comments float_one meta ev self tree batch = Ok tree' ->
    tree_annotations tree'
    = tree_annotations tree
      ++ flat_map meta (filter (tree_metadata_comment meta self) batch) /\
    seed_node tree' = seed_node tree /\
    (forall c,
        is_rooting_comment c = true \/ is_weight_comment c = true ->
        tree_metadata_comment meta self c = false) /\
    (extract_comment_metadata self = false ->
     tree_annotations tree' = tree_annotations tree).
Proof.
  intros Num float_one meta ev self tree tree' batch H.
  pose proof (process_tree_comments_annotations float_one meta self
                (weight_try_body ev) tree batch tree' H) as Ha.
  split; [exact Ha|]. split.
  { exact (process_tree_comments_seed_node float_one meta ev self tree batch
             tree' H). }
  split.
  - intros c [Hc | Hc]; unfold tree_metadata_comment; rewrite Hc;
      [reflexivity|]. rewrite andb_false_r. reflexivity.
  - intros Hoff. rewrite Ha.
    assert (Hnil : forall l,
               filter (tree_metadata_comment meta self) l = []).
    { induction l as [|c cs IH]; [reflexivity|]. cbn [filter].
      unfold tree_metadata_comment at 1. unfold metadata_comment.
      rewrite Hoff, !andb_false_r. exact IH. }
    rewrite Hnil. cbn [flat_map]. apply app_nil_r.
Qed.

(** The theorem on the batch [&R], [&color=red], [note]. *)
Lemma tree_annotations_from_metadata_witness :
  exists tree',
    _process_tree_comments (PyFloat "1.0") key_value_annotations no_tree_weight
      (with_extract_comment_metadata default_reader true) new_tree
      ["&R"; "&color=red"; "note"] = Ok tree' /\
    tree_comments tree' = ["note"] /\
    tree_annotations tree' = [("color", "red")].
Proof.
  eexists.
  assert (H : _process_tree_comments (PyFloat "1.0") key_value_annotations
                no_tree_weight
                (with_extract_comment_metadata default_reader true) new_tree
                ["&R"; "&color=red"; "note"] = Ok _)
    by (vm_compute; reflexivity).
  split; [exact H|]. split; [reflexivity|].
  exact (proj1 (tree_annotations_from_metadata PyNumber (PyFloat "1.0")
                  key_value_annotations no_tree_weight
                  (with_extract_comment_metadata default_reader true)
                  new_tree _ ["&R"; "&color=red"; "note"] H)).
Defined.

